(** * Game-store storefront: catalog pipeline, range slider, joins, API client

    A shallow embedding of the storefront logic of the Game-store frontend
    (FilterSidebar, Catalog, Profile, Home, services/api) together with the
    properties of its specification.

    Conventions of the embedding:
    - JavaScript numbers that the data model declares as identifiers or that
      the properties quantify over as integers are [Z];
    - prices and ratings are decimals.  A JSON response only ever carries
      finite numbers, and on finite doubles the tests [a <= b], [a >= b] and
      the sign of [a - b] agree with the same tests on the exact rational
      values, so they are [Q];
    - strings are [string], a text being held as its UTF-8 bytes; where the
      code counts the length of a text, the text is the sequence of its
      UTF-16 code units ([JsString]);
    - [Array.prototype.sort] is the stable sort that ECMAScript 2019 requires,
      embedded as a stable insertion sort driven by the sign of the
      comparator. *)

From Stdlib Require Import ZArith QArith Lia.
From Stdlib Require Import Sorting.Sorted Sorting.Permutation.
From Stdlib Require DecimalString DecimalZ DecimalPos.
From stdpp Require Import base option list sorting strings gmap.

Set Warnings "-register-all".
Local Open Scope Z_scope.

(** ** Range slider (FilterSidebar) *)

(** State of [useState({ min, max })] and what one handler call does with it:
    the state it leaves (the argument of [setRange], or the old state when the
    handler returns early) and the calls it makes to [onPriceChange]. *)
Module Slider.

Record range := mkRange { min : Z; max : Z }.

Record outcome := mkOutcome { next : range; reported : list (Z * Z) }.

(** The two ways a value reaches the component: both the thumb and the
    numeric field of a bound call the same handler with [Number(e.target.value)]. *)
Inductive update :=
| MinChange (value : Z)
| MaxChange (value : Z).

Definition proposed (u : update) : Z :=
  match u with MinChange v => v | MaxChange v => v end.

Section Handlers.
Variable handleMinChange handleMaxChange : range -> Z -> outcome.

Definition handle (r : range) (u : update) : outcome :=
  match u with
  | MinChange v => handleMinChange r v
  | MaxChange v => handleMaxChange r v
  end.

(** The states the component goes through, one per delivered update. *)
Fixpoint states (r : range) (us : list update) : list range :=
  match us with
  | [] => []
  | u :: us' => let r' := next (handle r u) in r' :: states r' us'
  end.

(** Every pair handed to [onPriceChange] along the way. *)
Fixpoint reports (r : range) (us : list update) : list (Z * Z) :=
  match us with
  | [] => []
  | u :: us' => let o := handle r u in reported o ++ reports (next o) us'
  end.
End Handlers.

(** The handlers of the slider with reserved separation (bounds 9999 / 10000
    and the two early returns). *)
Module Clamped.

Definition handleMinChange (range : range) (value : Z) : outcome :=
  if max range =? 1 then mkOutcome range []
  else
    let newMin := Z.min (Z.min value 9999) (max range) in
    mkOutcome (mkRange newMin (max range)) [(newMin, max range)].

Definition handleMaxChange (range : range) (value : Z) : outcome :=
  if min range =? 9999 then mkOutcome range []
  else
    let newMax := Z.max (min range) (Z.min value 10000) in
    mkOutcome (mkRange (min range) newMax) [(min range, newMax)].

Definition minZIndex (range : range) : Z :=
  if (9999 <=? min range) && (max range =? 10000) then 3 else 2.
Definition maxZIndex (range : range) : Z :=
  if (9999 <=? min range) && (max range =? 10000) then 2 else 3.

End Clamped.

(** The handlers of the plain slider (components/FilterSidebar/FilterSidebar.tsx). *)
Module Plain.

Definition handleMinChange (range : range) (value : Z) : outcome :=
  let newMin := Z.min value (max range) in
  mkOutcome (mkRange newMin (max range)) [(newMin, max range)].

Definition handleMaxChange (range : range) (value : Z) : outcome :=
  let newMax := Z.max value (min range) in
  mkOutcome (mkRange (min range) newMax) [(min range, newMax)].

End Plain.

(** The invariant as the specification words it. *)
Definition strictly_separated (r : range) : Prop :=
  0 <= min r /\ min r < max r /\ max r <= 10000.

(** What the clamped handlers keep for arbitrary integers ... *)
Definition bounded_above (r : range) : Prop :=
  min r <= max r /\ max r <= 10000 /\ min r <= 9999.

(** ... and for proposed values that are not negative. *)
Definition within_domain (r : range) : Prop :=
  0 <= min r /\ bounded_above r.

Definition ordered (r : range) : Prop := min r <= max r.

(** The same bounds on a pair handed to [onPriceChange]. *)
Definition pair_bounded (p : Z * Z) : Prop := bounded_above (mkRange (fst p) (snd p)).

(** The rule of the specification for a proposed minimum. *)
Definition clamp (lo hi v : Z) : Z := Z.max lo (Z.min v hi).
Definition min_rule (r : range) (v : Z) : Z := Z.min (clamp 0 9999 v) (max r).

End Slider.

(** ** Data model *)

(** Modelled from the spec: the entity types of [@/types/api], whose
    declarations are not part of the sources at hand.  Fields are the ones
    the data model lists; [release_date] is the date string of the JSON body. *)
Module Game.
Record t := mk {
  id : Z; title : string; description : string;
  price : Q; rating : Q; release_date : string;
  genre_id : Z; platform_id : Z }.
End Game.

Module Order.
Record t := mk {
  id : Z; user_id : Z; game_id : Z; game_price : Q; purchase_date : string }.
End Order.

Module Review.
Record t := mk {
  id : Z; user_id : Z; game_id : Z; rating : Z; comment : string }.
End Review.

Module LibraryEntry.
Record t := mk { user_id : Z; game_id : Z }.
End LibraryEntry.

Module User.
Record t := mk { id : Z; name : string; email : string }.
End User.

(** ** Platform functions *)

(** Template-literal conversion of an integer number: [`${n}`]. *)
Definition string_of_Z (n : Z) : string :=
  DecimalString.NilZero.string_of_int (Z.to_int n).

(** [Array.prototype.sort(compareFn)]: [compareFn a b > 0] asks for [a] after
    [b]; elements that the comparator does not order keep their order.  An
    element is inserted in front of the sorted rest and moves right only past
    elements it must come after. *)
Module JsArray.
Section Sort.
Context {A : Type}.
Variable compareFn : A -> A -> Q.

Definition after (a b : A) : bool :=
  match (compareFn a b ?= 0)%Q with Gt => true | _ => false end.

Fixpoint insert (x : A) (sorted : list A) : list A :=
  match sorted with
  | [] => [x]
  | y :: rest => if after x y then y :: insert x rest else x :: y :: rest
  end.

Fixpoint sort (l : list A) : list A :=
  match l with
  | [] => []
  | x :: rest => insert x (sort rest)
  end.
End Sort.

(** Orders on the elements that a sort by a key produces: by the key, by the
    key and then by a second relation among equal keys; and the test for one
    value of the key. *)
Definition keyLe {A} (key : A -> Q) (a b : A) : Prop := (key a <= key b)%Q.
Definition keyThen {A} (key : A -> Q) (R : A -> A -> Prop) (a b : A) : Prop :=
  (key a < key b)%Q \/ ((key a == key b)%Q /\ R a b).
Definition hasKey {A} (key : A -> Q) (k : Q) (a : A) : bool := Qeq_bool (key a) k.

(** [slice(0, n)], [find], and [map(f).filter(x => x !== undefined)]. *)
Definition slice0 {A} (n : nat) (l : list A) : list A := take n l.
Definition find {A} (p : A -> bool) (l : list A) : option A := List.find p l.
Definition defined {A B} (f : A -> option B) (l : list A) : list B := omap f l.
End JsArray.

(** A sample of [new Date(s).getTime()]: a date-only ISO string
    [YYYY-MM-DD] is midnight UTC of that civil day, in milliseconds. *)
Module IsoDate.
Definition digit (c : Ascii.ascii) : Z := Z.of_N (Ascii.N_of_ascii c) - 48.

Fixpoint number (acc : Z) (s : string) : Z :=
  match s with
  | EmptyString => acc
  | String c s' => number (10 * acc + digit c) s'
  end.

Definition days_from_civil (y m d : Z) : Z :=
  let y := if m <=? 2 then y - 1 else y in
  let era := y / 400 in
  let yoe := y - era * 400 in
  let doy := (153 * (if 2 <? m then m - 3 else m + 9) + 2) / 5 + d - 1 in
  let doe := yoe * 365 + yoe / 4 - yoe / 100 + doy in
  era * 146097 + doe - 719468.

Definition getTime (s : string) : Z :=
  let y := number 0 (String.substring 0 4 s) in
  let m := number 0 (String.substring 5 2 s) in
  let d := number 0 (String.substring 8 2 s) in
  days_from_civil y m d * 86400000.
End IsoDate.

(** ** Catalog: filter and sort pipeline *)

Module Catalog.

(** The filter state of the page ([selectedGenre], [selectedPlatform],
    [minPrice], [maxPrice], [sortBy]); [null] is [None]. *)
Record FilterState := mkFilterState {
  selectedGenre : option Z;
  selectedPlatform : option Z;
  minPrice : Q;
  maxPrice : Q;
  sortBy : string }.

Section Pipeline.
(** [new Date(s).getTime()] on the date strings of the catalog. *)
Variable getTime : string -> Z.

Definition byNewest (a b : Game.t) : Q :=
  inject_Z (getTime (Game.release_date b) - getTime (Game.release_date a)).
Definition byOldest (a b : Game.t) : Q :=
  inject_Z (getTime (Game.release_date a) - getTime (Game.release_date b)).
Definition byPriceAsc (a b : Game.t) : Q := (Game.price a - Game.price b)%Q.
Definition byPriceDesc (a b : Game.t) : Q := (Game.price b - Game.price a)%Q.
Definition byRating (a b : Game.t) : Q := (Game.rating b - Game.rating a)%Q.

Definition genreTest (selectedGenre : Z) (game : Game.t) : bool :=
  Game.genre_id game =? selectedGenre.
Definition platformTest (selectedPlatform : Z) (game : Game.t) : bool :=
  Game.platform_id game =? selectedPlatform.
Definition priceTest (minPrice maxPrice : Q) (game : Game.t) : bool :=
  Qle_bool minPrice (Game.price game) && Qle_bool (Game.price game) maxPrice.

(** The three filtering statements of [getFilteredGames]. *)
Definition filterStage (st : FilterState) (allGames : list Game.t) : list Game.t :=
  let filtered := allGames in
  let filtered :=
    match selectedGenre st with
    | Some genre => List.filter (genreTest genre) filtered
    | None => filtered
    end in
  let filtered :=
    match selectedPlatform st with
    | Some platform => List.filter (platformTest platform) filtered
    | None => filtered
    end in
  List.filter (priceTest (minPrice st) (maxPrice st)) filtered.

(** The comparator the [switch (sortBy)] selects; no case, no sorting. *)
Definition comparator (sortBy : string) : option (Game.t -> Game.t -> Q) :=
  if String.eqb sortBy "newest" then Some byNewest
  else if String.eqb sortBy "oldest" then Some byOldest
  else if String.eqb sortBy "price-asc" then Some byPriceAsc
  else if String.eqb sortBy "price-desc" then Some byPriceDesc
  else if String.eqb sortBy "rating" then Some byRating
  else None.

Definition sortStage (sortBy : string) (filtered : list Game.t) : list Game.t :=
  match comparator sortBy with
  | Some compareFn => JsArray.sort compareFn filtered
  | None => filtered
  end.

Definition getFilteredGames (st : FilterState) (allGames : list Game.t) : list Game.t :=
  sortStage (sortBy st) (filterStage st allGames).

End Pipeline.

(** The orders of the five sort keys and the tests for one key value, as
    the specification names them. *)
Definition timeOf (getTime : string -> Z) (g : Game.t) : Z :=
  getTime (Game.release_date g).
Definition newestFirst (getTime : string -> Z) (a b : Game.t) : Prop :=
  timeOf getTime b <= timeOf getTime a.
Definition oldestFirst (getTime : string -> Z) (a b : Game.t) : Prop :=
  timeOf getTime a <= timeOf getTime b.
Definition cheapestFirst (a b : Game.t) : Prop := (Game.price a <= Game.price b)%Q.
Definition dearestFirst (a b : Game.t) : Prop := (Game.price b <= Game.price a)%Q.
Definition bestFirst (a b : Game.t) : Prop := (Game.rating b <= Game.rating a)%Q.

Definition releasedAt (getTime : string -> Z) (t : Z) (g : Game.t) : bool :=
  timeOf getTime g =? t.
Definition pricedAt (q : Q) (g : Game.t) : bool := Qeq_bool (Game.price g) q.
Definition ratedAt (q : Q) (g : Game.t) : bool := Qeq_bool (Game.rating g) q.

Definition sortKeys : list string :=
  ["newest"; "oldest"; "price-asc"; "price-desc"; "rating"].

(** All active filters at once, as one test. *)
Definition passes (st : FilterState) (g : Game.t) : bool :=
  match selectedGenre st with Some k => Game.genre_id g =? k | None => true end &&
  match selectedPlatform st with Some k => Game.platform_id g =? k | None => true end &&
  priceTest (minPrice st) (maxPrice st) g.

(** The predicates of the specification, one per filter dimension. *)
Definition genre_ok (st : FilterState) (g : Game.t) : Prop :=
  forall k, selectedGenre st = Some k -> Game.genre_id g = k.
Definition platform_ok (st : FilterState) (g : Game.t) : Prop :=
  forall k, selectedPlatform st = Some k -> Game.platform_id g = k.
Definition price_ok (st : FilterState) (g : Game.t) : Prop :=
  (minPrice st <= Game.price g)%Q /\ (Game.price g <= maxPrice st)%Q.

(** Switching one filter off.  The price filter has no off position in the
    page: it is switched off by a range that no price falls out of, and more
    generally loosened by any wider range. *)
Definition withoutGenre (st : FilterState) : FilterState :=
  mkFilterState None (selectedPlatform st) (minPrice st) (maxPrice st) (sortBy st).
Definition withoutPlatform (st : FilterState) : FilterState :=
  mkFilterState (selectedGenre st) None (minPrice st) (maxPrice st) (sortBy st).
Definition withPrices (lo hi : Q) (st : FilterState) : FilterState :=
  mkFilterState (selectedGenre st) (selectedPlatform st) lo hi (sortBy st).

End Catalog.

(** ** The pipeline on the store

    Arrays and game objects live in a store and are passed by reference, so
    that what a call allocates and what it overwrites is explicit: an array
    is a list of references to game objects.  A computation reads and updates
    the store and fails on a dangling reference. *)
Module Store.

Definition loc := positive.

Record heap := mkHeap {
  objects : gmap loc Game.t;
  arrays : gmap loc (list loc) }.

Definition M (A : Type) : Type := heap -> option (A * heap).

#[global] Instance M_ret : MRet M := fun A x h => Some (x, h).
#[global] Instance M_bind : MBind M := fun A B f m h =>
  match m h with
  | Some (x, h') => f x h'
  | None => None
  end.

(** Array literal / result array of a method: a new array. *)
Definition newArray (elems : list loc) : M loc := fun h =>
  let a := fresh (dom (arrays h)) in
  Some (a, mkHeap (objects h) (<[a := elems]> (arrays h))).

Definition elements (a : loc) : M (list loc) := fun h =>
  match arrays h !! a with
  | Some elems => Some (elems, h)
  | None => None
  end.

(** Overwriting the elements of an existing array. *)
Definition setElements (a : loc) (elems : list loc) : M unit := fun h =>
  match arrays h !! a with
  | Some _ => Some (tt, mkHeap (objects h) (<[a := elems]> (arrays h)))
  | None => None
  end.

(** Reading a game object; no operation writes one. *)
Definition object (o : loc) : M Game.t := fun h =>
  match objects h !! o with
  | Some game => Some (game, h)
  | None => None
  end.

Fixpoint objectsOf (elems : list loc) : M (list Game.t) :=
  match elems with
  | [] => mret []
  | o :: rest =>
      game ← object o;
      games ← objectsOf rest;
      mret (game :: games)
  end.

(** [[...a]] *)
Definition spread (a : loc) : M loc :=
  elems ← elements a;
  newArray elems.

(** [a.filter(test)]: the callback reads the object behind each reference;
    the kept references go to a new array. *)
Definition filter (test : Game.t -> bool) (a : loc) : M loc :=
  elems ← elements a;
  games ← objectsOf elems;
  newArray (List.map fst (List.filter (fun e => test (snd e)) (zip elems games))).

(** [a.sort(compareFn)]: the references of [a] are reordered in place. *)
Definition sort (compareFn : Game.t -> Game.t -> Q) (a : loc) : M unit :=
  elems ← elements a;
  games ← objectsOf elems;
  setElements a
    (List.map fst (JsArray.sort (fun x y => compareFn (snd x) (snd y)) (zip elems games))).

(** The games an array holds, in order. *)
Definition contents (h : heap) (a : loc) : option (list Game.t) :=
  match arrays h !! a with
  | Some elems => mapM (fun o => objects h !! o) elems
  | None => None
  end.

(** Nothing that exists in [h] differs in [h']: every game object and every
    array of [h] is in [h'] as it was. *)
Definition preserved (h h' : heap) : Prop :=
  objects h' = objects h /\
  forall l elems, arrays h !! l = Some elems -> arrays h' !! l = Some elems.

(** A reference paired with the object it denotes. *)
Definition denotes (h : heap) (p : loc * Game.t) : Prop :=
  objects h !! fst p = Some (snd p).

Section Pipeline.
Variable getTime : string -> Z.

Definition getFilteredGames (st : Catalog.FilterState) (allGames : loc) : M loc :=
  filtered ← spread allGames;
  filtered ←
    match Catalog.selectedGenre st with
    | Some genre => filter (Catalog.genreTest genre) filtered
    | None => mret filtered
    end;
  filtered ←
    match Catalog.selectedPlatform st with
    | Some platform => filter (Catalog.platformTest platform) filtered
    | None => mret filtered
    end;
  filtered ← filter (Catalog.priceTest (Catalog.minPrice st) (Catalog.maxPrice st)) filtered;
  _ ←
    match Catalog.comparator getTime (Catalog.sortBy st) with
    | Some compareFn => sort compareFn filtered
    | None => mret tt
    end;
  mret filtered.
End Pipeline.

End Store.

(** ** API client (services/api.ts) *)

Module Api.

(** What [response.json()] resolves to. *)
Inductive json :=
| JNull
| JBool (b : bool)
| JNumber (q : Q)
| JString (s : string)
| JArray (items : list json)
| JObject (props : list (string * json)).

(** The options object of a request and the response of [fetch]:
    [parsed] is the value [response.json()] resolves to, [None] when the body
    is not JSON and the promise rejects. *)
Record RequestInit := mkInit {
  method : option string;
  headers : list (string * string);
  body : option string }.

Record Response := mkResponse { status : Z; parsed : option json }.

Inductive fetched :=
| Rejected (reason : string)
| Responded (response : Response).

(** What a call can throw. *)
Inductive exception :=
| Error (message : string)
| TypeError
| SyntaxError
| Failure (reason : string).

(** One run of [request]: the calls made to [fetch], what went to
    [console.error], and the value returned or the exception thrown. *)
Record run := mkRun {
  calls : list (string * RequestInit);
  logged : list exception;
  result : exception + json }.

Definition ok (response : Response) : bool :=
  (200 <=? status response) && (status response <=? 299).

(** The method [fetch] uses for an options object. *)
Definition methodOf (init : RequestInit) : string :=
  match method init with Some m => m | None => "GET" end.

(** The properties of an object are enumerated with the array indices first
    (the names that are the decimal form of an integer from 0 to 2^32 - 2),
    in ascending numeric order, and the other names after them in the order
    of their creation.  A list of properties is kept in that order. *)
Definition arrayIndex (name : string) : option Z :=
  match DecimalString.NilEmpty.uint_of_string name with
  | Some digits =>
      let n := Z.of_uint digits in
      if (n <? 4294967295) && String.eqb (string_of_Z n) name then Some n else None
  | None => None
  end.

Definition enumeratedBefore (k k' : string) : bool :=
  match arrayIndex k, arrayIndex k' with
  | Some i, Some i' => i <? i'
  | Some _, None => true
  | None, _ => false
  end.

Fixpoint setProp (k v : string) (props : list (string * string)) : list (string * string) :=
  match props with
  | [] => [(k, v)]
  | (k', v') :: rest =>
      if String.eqb k k' then (k, v) :: rest
      else if enumeratedBefore k k' then (k, v) :: (k', v') :: rest
      else (k', v') :: setProp k v rest
  end.

Fixpoint getProp (k : string) (props : list (string * string)) : option string :=
  match props with
  | [] => None
  | (k', v) :: rest => if String.eqb k k' then Some v else getProp k rest
  end.

(** [{ 'Content-Type': 'application/json', ...options?.headers }], for
    headers given as an object: the spread sets its properties one by one,
    in the order in which that object enumerates them. *)
Definition mergedHeaders (options : option RequestInit) : list (string * string) :=
  let base := [("Content-Type", "application/json")] in
  match options with
  | Some o => fold_left (fun acc kv => setProp (fst kv) (snd kv) acc) (headers o) base
  | None => base
  end.

(** [{ ...options, headers: ... }] *)
Definition initOf (options : option RequestInit) : RequestInit :=
  mkInit (match options with Some o => method o | None => None end)
         (mergedHeaders options)
         (match options with Some o => body o | None => None end).

Fixpoint lookupProp (k : string) (props : list (string * json)) : option json :=
  match props with
  | [] => None
  | (k', v) :: rest => if String.eqb k k' then Some v else lookupProp k rest
  end.

(** [error.detail]: [undefined] is [None]; reading a property of [null]
    throws. *)
Definition detailOf (error : json) : exception + option json :=
  match error with
  | JNull => inl TypeError
  | JObject props => inr (lookupProp "detail" props)
  | _ => inr None
  end.

(** Truthiness on the left of [||]. *)
Definition truthy (v : option json) : bool :=
  match v with
  | None | Some JNull => false
  | Some (JBool b) => b
  | Some (JNumber q) => negb (Qeq_bool q 0)
  | Some (JString s) => negb (String.eqb s "")
  | Some (JArray _) | Some (JObject _) => true
  end.

Fixpoint join (sep : string) (parts : list string) : string :=
  match parts with
  | [] => ""
  | [p] => p
  | p :: rest => p +:+ sep +:+ join sep rest
  end.

Section Client.
(** [import.meta.env.VITE_API_BASE_URL] and number-to-string conversion. *)
Variable VITE_API_BASE_URL : option string.
Variable numberToString : Q -> string.

Definition API_BASE_URL : string :=
  match VITE_API_BASE_URL with
  | Some url => if String.eqb url "" then "/api" else url
  | None => "/api"
  end.

(** The message [new Error(v)] gets from a value. *)
Fixpoint toString (v : json) : string :=
  match v with
  | JNull => "null"
  | JBool true => "true"
  | JBool false => "false"
  | JNumber q => numberToString q
  | JString s => s
  | JArray items =>
      join "," (List.map (fun item => match item with JNull => "" | _ => toString item end) items)
  | JObject _ => "[object Object]"
  end.

Variable fetch : string -> RequestInit -> fetched.

Definition request (endpoint : string) (options : option RequestInit) : run :=
  let url := API_BASE_URL +:+ endpoint in
  let init := initOf options in
  let outcome : exception + json :=
    match fetch url init with
    | Rejected reason => inl (Failure reason)
    | Responded response =>
        if negb (ok response) then
          let error :=
            match parsed response with
            | Some v => v
            | None => JObject [("detail", JString "Unknown error")]
            end in
          match detailOf error with
          | inl thrown => inl thrown
          | inr detail =>
              inl (Error (if truthy detail
                          then match detail with Some v => toString v | None => "" end
                          else "HTTP error! status: " +:+ string_of_Z (status response)))
          end
        else
          match parsed response with
          | Some v => inr v
          | None => inl SyntaxError
          end
    end in
  mkRun [(url, init)]
        (match outcome with inl thrown => [thrown] | inr _ => [] end)
        outcome.

Definition getGames : run := request "/games/" None.
Definition getGameById (id : Z) : run := request ("/games/" +:+ string_of_Z id) None.
Definition searchGames (keyword : string) : run :=
  request ("/games/search/" +:+ keyword) None.
Definition getAllOrders : run := request "/orders/" None.
Definition getUserOrders (userId : Z) : run :=
  request ("/orders/" +:+ string_of_Z userId) None.
Definition deleteOrder (userId gameId : Z) : run :=
  request ("/orders/" +:+ string_of_Z userId +:+ "/" +:+ string_of_Z gameId)
          (Some (mkInit (Some "DELETE") [] None)).

End Client.

(** The message the specification promises for a failed request. *)
Definition detail_string (response : Response) : option string :=
  match parsed response with
  | Some (JObject props) =>
      match lookupProp "detail" props with
      | Some (JString s) => if String.eqb s "" then None else Some s
      | _ => None
      end
  | _ => None
  end.

Definition promised_message (response : Response) : string :=
  match detail_string response with
  | Some s => s
  | None => "HTTP error: " +:+ string_of_Z (status response)
  end.

End Api.

(** ** Profile: joins against the catalog *)

Module Profile.

(** An order with the [gameTitle] the join attaches to it. *)
Record OrderRow := mkRow { order : Order.t; gameTitle : string }.

Record state := mkState {
  orders : list OrderRow;
  libraryGames : list Game.t;
  userReviews : list Review.t;
  allGames : list Game.t }.

(** [games.find(g => g.id === game_id)] *)
Definition gameById (games : list Game.t) (game_id : Z) : option Game.t :=
  JsArray.find (fun g => Game.id g =? game_id) games.

(** [game?.title ?? `#${game_id}`] *)
Definition titleOr (game : option Game.t) (game_id : Z) : string :=
  match game with
  | Some g => Game.title g
  | None => "#" +:+ string_of_Z game_id
  end.

Definition ordersWithGames (games : list Game.t) (data : list Order.t) : list OrderRow :=
  List.map (fun order => mkRow order (titleOr (gameById games (Order.game_id order)) (Order.game_id order)))
           data.

Definition userGames (games : list Game.t) (library : list LibraryEntry.t) : list Game.t :=
  JsArray.defined (fun lib => gameById games (LibraryEntry.game_id lib)) library.

(** The loaders; each receives what its API call returned or threw.  A
    thrown exception is logged and the state is left as it was. *)
Definition loadOrders (currentUser : option User.t)
    (getUserOrders : Z -> Api.exception + list Order.t)
    (games : list Game.t) (st : state) : state :=
  match currentUser with
  | None => st
  | Some user =>
      match getUserOrders (User.id user) with
      | inr data =>
          mkState (ordersWithGames games data) (libraryGames st) (userReviews st) (allGames st)
      | inl _ => st
      end
  end.

Definition loadLibrary (currentUser : option User.t)
    (getUserLibrary : Z -> Api.exception + list LibraryEntry.t)
    (games : list Game.t) (st : state) : state :=
  match currentUser with
  | None => st
  | Some user =>
      match getUserLibrary (User.id user) with
      | inr library =>
          mkState (orders st) (userGames games library) (userReviews st) (allGames st)
      | inl _ => st
      end
  end.

Definition loadUserReviews (currentUser : option User.t)
    (getAllReviews : Api.exception + list Review.t) (st : state) : state :=
  match currentUser with
  | None => st
  | Some user =>
      match getAllReviews with
      | inr allReviews =>
          let filtered :=
            List.filter (fun review => Review.user_id review =? User.id user) allReviews in
          mkState (orders st) (libraryGames st) filtered (allGames st)
      | inl _ => st
      end
  end.

Definition loadData (currentUser : option User.t)
    (getGames : Api.exception + list Game.t)
    (getUserOrders : Z -> Api.exception + list Order.t)
    (getUserLibrary : Z -> Api.exception + list LibraryEntry.t)
    (getAllReviews : Api.exception + list Review.t) (st : state) : state :=
  match currentUser with
  | None => st
  | Some _ =>
      match getGames with
      | inr games =>
          let st := mkState (orders st) (libraryGames st) (userReviews st) games in
          let st := loadOrders currentUser getUserOrders games st in
          let st := loadLibrary currentUser getUserLibrary games st in
          loadUserReviews currentUser getAllReviews st
      | inl _ => st
      end
  end.

(** The labels the three tabs render, one per row. *)
Definition orderLabels (st : state) : list string :=
  List.map gameTitle (orders st).
Definition libraryLabels (st : state) : list string :=
  List.map Game.title (libraryGames st).
Definition reviewLabels (st : state) : list string :=
  List.map (fun review =>
              titleOr (gameById (allGames st) (Review.game_id review)) (Review.game_id review))
           (userReviews st).

Definition initial : state := mkState [] [] [] [].

Definition resolves (games : list Game.t) (game_id : Z) : Prop :=
  exists g, In g games /\ Game.id g = game_id.

End Profile.

(** ** Home: featured and top-rated games *)

(** [Record<number, number>] as an object: property keys that are array
    indices are enumerated first, in ascending numeric order, and the other
    keys after them in the order of their creation. *)
Module JsRecord.

Definition isIndex (k : Z) : bool := (0 <=? k) && (k <? 4294967295).

Record t := mk { indexed : list (Z * Z); named : list (Z * Z) }.

Definition empty : t := mk [] [].

Fixpoint lookup (k : Z) (props : list (Z * Z)) : option Z :=
  match props with
  | [] => None
  | (k', v) :: rest => if k =? k' then Some v else lookup k rest
  end.

Fixpoint putIndexed (k v : Z) (props : list (Z * Z)) : list (Z * Z) :=
  match props with
  | [] => [(k, v)]
  | (k', v') :: rest =>
      if k <? k' then (k, v) :: (k', v') :: rest
      else if k =? k' then (k, v) :: rest
      else (k', v') :: putIndexed k v rest
  end.

Fixpoint putNamed (k v : Z) (props : list (Z * Z)) : list (Z * Z) :=
  match props with
  | [] => [(k, v)]
  | (k', v') :: rest =>
      if k =? k' then (k, v) :: rest else (k', v') :: putNamed k v rest
  end.

Definition get (o : t) (k : Z) : option Z :=
  if isIndex k then lookup k (indexed o) else lookup k (named o).

Definition set (o : t) (k v : Z) : t :=
  if isIndex k then mk (putIndexed k v (indexed o)) (named o)
  else mk (indexed o) (putNamed k v (named o)).

(** [Object.entries(o)] with the keys read back by [Number(id)]. *)
Definition entries (o : t) : list (Z * Z) := indexed o ++ named o.

End JsRecord.

Module Home.

(** [(purchaseCount[id] || 0) + 1] *)
Definition bump (purchaseCount : JsRecord.t) (game_id : Z) : JsRecord.t :=
  let current :=
    match JsRecord.get purchaseCount game_id with
    | Some n => if n =? 0 then 0 else n
    | None => 0
    end in
  JsRecord.set purchaseCount game_id (current + 1).

Definition tally (orders : list Order.t) : JsRecord.t :=
  fold_left (fun purchaseCount order => bump purchaseCount (Order.game_id order))
            orders JsRecord.empty.

Definition byCount (x y : Z * Z) : Q := inject_Z (snd y - snd x).

Definition sortedGameIds (orders : list Order.t) : list Z :=
  List.map fst (JsArray.slice0 3 (JsArray.sort byCount (JsRecord.entries (tally orders)))).

Definition resolved (games : list Game.t) (ids : list Z) : list Game.t :=
  JsArray.defined (fun id => JsArray.find (fun g => Game.id g =? id) games) ids.

Definition notIn (featuredGames : list Game.t) (g : Game.t) : bool :=
  match JsArray.find (fun fg => Game.id fg =? Game.id g) featuredGames with
  | Some _ => false
  | None => true
  end.

(** [getMostPurchasedGames]; the argument is what [api.getAllOrders()]
    returned or threw. *)
Definition getMostPurchasedGames (games : list Game.t)
    (getAllOrders : Api.exception + list Order.t) : list Game.t :=
  match getAllOrders with
  | inr orders =>
      let featuredGames := resolved games (sortedGameIds orders) in
      if (length featuredGames <? 3)%nat then
        let remainingGames :=
          JsArray.slice0 (3 - length featuredGames) (List.filter (notIn featuredGames) games) in
        featuredGames ++ remainingGames
      else featuredGames
  | inl _ => JsArray.slice0 3 games
  end.

Definition byRating (a b : Game.t) : Q := (Game.rating b - Game.rating a)%Q.

Definition rated (game : Game.t) : bool :=
  match (Game.rating game ?= 0)%Q with Gt => true | _ => false end.

(** [[...games].sort(...).slice(0, n).filter(game => game.rating > 0)] with
    [n = 6] on the positional page and [n = 3] on the order-aggregation page. *)
Definition topRated (n : nat) (games : list Game.t) : list Game.t :=
  List.filter rated (JsArray.slice0 n (JsArray.sort byRating games)).

Module Positional.
Definition featuredGames (games : list Game.t) : list Game.t := JsArray.slice0 4 games.
Definition topRatedGames (games : list Game.t) : list Game.t := topRated 6 games.
End Positional.

Module Aggregated.
Definition topRatedGames (games : list Game.t) : list Game.t := topRated 3 games.
End Aggregated.

(** The top-rated list in the words of the specification: leave out the
    games of rating 0, order the rest by rating descending, take the top [n].
    [ordered] is the rest in its order: the same games, no game before one
    of higher rating, the games of one rating in the order of the catalog. *)
Definition unrated (game : Game.t) : bool := Qeq_bool (Game.rating game) 0.
Definition topRated_spec (n : nat) (games top : list Game.t) : Prop :=
  let rest := List.filter (fun g => negb (unrated g)) games in
  exists ordered,
    Permutation ordered rest /\
    StronglySorted Catalog.bestFirst ordered /\
    (forall r, List.filter (Catalog.ratedAt r) ordered = List.filter (Catalog.ratedAt r) rest) /\
    top = take n ordered.

(** Purchases of a game and the two orders in which ties could be broken. *)
Definition purchases (orders : list Order.t) (game_id : Z) : Z :=
  Z.of_nat (length (List.filter (fun o => Order.game_id o =? game_id) orders)).

Fixpoint firstOrder (orders : list Order.t) (game_id : Z) : nat :=
  match orders with
  | [] => 0
  | o :: rest => if Order.game_id o =? game_id then 0 else S (firstOrder rest game_id)
  end.

(** Entries of the tally: ascending keys, and the key a sort by count uses. *)
Definition keyLt (x y : Z * Z) : Prop := fst x < fst y.
Definition countKey (x : Z * Z) : Q := inject_Z (- snd x).

(** [a] ranks before [b]: more purchases, or as many and the smaller id. *)
Definition ranksBefore (orders : list Order.t) (a b : Z) : Prop :=
  purchases orders b < purchases orders a \/
  (purchases orders a = purchases orders b /\ a < b).

End Home.

(** ** Further components

    The rest of the sidebar, the catalog page around the pipeline, the game
    card, and the genre strip and carousel of the home page. *)

(** Modelled from the spec: the entity types [Genre] and [Platform] of
    [@/types/api], whose declarations are not part of the sources at hand. *)
Module Genre.
Record t := mk { id : Z; name : string }.
End Genre.

Module Platform.
Record t := mk { id : Z; name : string }.
End Platform.

(** [err instanceof Error ? err.message : fallback].  Every exception the
    client throws is an [Error] instance: the normalized error carries its
    message, a rejection of [fetch] its reason, and the messages of the two
    engine errors are the engine's. *)
Module Thrown.
Definition message (engineMessage : Api.exception -> string) (fallback : string)
    (err : Api.exception) : string :=
  match err with
  | Api.Error m => m
  | Api.Failure reason => reason
  | Api.TypeError => engineMessage Api.TypeError
  | Api.SyntaxError => engineMessage Api.SyntaxError
  end.

(** A string in a condition. *)
Definition truthy (s : option string) : bool :=
  match s with
  | Some s => negb (String.eqb s "")
  | None => false
  end.
End Thrown.

(** A string as the page has it: the sequence of its UTF-16 code units,
    which is what [length] and [substring] count.  The strings of the data
    model hold a text as its UTF-8 bytes, the form in which the body of a
    response carries it; [units] is that text in code units, and [None] when
    the bytes are not the UTF-8 form of a text. *)
Module JsString.

Definition t := list Z.

Definition byte (c : Ascii.ascii) : Z := Z.of_N (Ascii.N_of_ascii c).

(** The six bits a continuation byte [10xxxxxx] carries. *)
Definition continuation (c : Ascii.ascii) : option Z :=
  if (128 <=? byte c) && (byte c <? 192) then Some (byte c - 128) else None.

(** A code point below 2^16 is one unit, another one a surrogate pair. *)
Definition encode (codePoint : Z) : list Z :=
  if codePoint <? 65536 then [codePoint]
  else [55296 + (codePoint - 65536) / 1024; 56320 + (codePoint - 65536) mod 1024].

Definition scalar2 (codePoint : Z) : bool := 128 <=? codePoint.
Definition scalar3 (codePoint : Z) : bool :=
  (2048 <=? codePoint) && negb ((55296 <=? codePoint) && (codePoint <? 57344)).
Definition scalar4 (codePoint : Z) : bool :=
  (65536 <=? codePoint) && (codePoint <? 1114112).

Fixpoint units (s : string) : option t :=
  match s with
  | EmptyString => Some []
  | String c0 s1 =>
      if byte c0 <? 128 then
        rest ← units s1; Some (byte c0 :: rest)
      else if byte c0 <? 192 then None
      else if byte c0 <? 224 then
        match s1 with
        | String c1 s2 =>
            x1 ← continuation c1;
            let codePoint := (byte c0 - 192) * 64 + x1 in
            if scalar2 codePoint then rest ← units s2; Some (encode codePoint ++ rest)
            else None
        | _ => None
        end
      else if byte c0 <? 240 then
        match s1 with
        | String c1 (String c2 s3) =>
            x1 ← continuation c1;
            x2 ← continuation c2;
            let codePoint := ((byte c0 - 224) * 64 + x1) * 64 + x2 in
            if scalar3 codePoint then rest ← units s3; Some (encode codePoint ++ rest)
            else None
        | _ => None
        end
      else if byte c0 <? 248 then
        match s1 with
        | String c1 (String c2 (String c3 s4)) =>
            x1 ← continuation c1;
            x2 ← continuation c2;
            x3 ← continuation c3;
            let codePoint := (((byte c0 - 240) * 64 + x1) * 64 + x2) * 64 + x3 in
            if scalar4 codePoint then rest ← units s4; Some (encode codePoint ++ rest)
            else None
        | _ => None
        end
      else None
  end.

(** A literal of the program text that is written in ASCII. *)
Definition literal (s : string) : t := List.map byte (String.list_ascii_of_string s).

Definition substring0 (n : nat) (s : t) : t := take n s.

End JsString.

(** The description line of a game card:
    [description.length > 100 ? `${description.substring(0, 100)}...` : description]. *)
Module GameCard.
Definition shownDescription (description : JsString.t) : JsString.t :=
  if (100 <? length description)%nat
  then JsString.substring0 100 description ++ JsString.literal "..."
  else description.

(** The line for a game, whose description is a text. *)
Definition descriptionLine (game : Game.t) : option JsString.t :=
  description ← JsString.units (Game.description game);
  Some (shownDescription description).
End GameCard.

(** The sort dropdown of the sidebar; [t] is the translation function. *)
Module Sidebar.
Section Labels.
Variable t : string -> string.

Definition sortOptions : list (string * string) :=
  [("newest", t "filters.newest");
   ("oldest", t "filters.oldest");
   ("price-asc", t "filters.priceAsc");
   ("price-desc", t "filters.priceDesc");
   ("rating", t "filters.rating")].

(** [sortOptions.find((o) => o.value === sortBy)?.label || t('filters.newest')] *)
Definition sortLabel (sortBy : string) : string :=
  match JsArray.find (fun o => String.eqb (fst o) sortBy) sortOptions with
  | Some o => if String.eqb (snd o) "" then t "filters.newest" else snd o
  | None => t "filters.newest"
  end.
End Labels.
End Sidebar.

(** The catalog page: its state, its handlers, and the page together with
    the sidebar it renders. *)
Module CatalogPage.

(** A number where the page expects a genre id: an integer, or a number
    that is not one (NaN, a fraction, an infinity), which is [===] to the
    [genre_id] of no game. *)
Inductive number :=
| Integer (n : Z)
| NotInteger.

Record state := mkState {
  allGames : list Game.t;
  genres : list Genre.t;
  platforms : list Platform.t;
  selectedGenre : option number;
  selectedPlatform : option Z;
  minPrice : Q;
  maxPrice : Q;
  sortBy : string;
  searchQuery : string;
  searchParams : list (string * string);
  loading : bool;
  error : option string }.

Fixpoint param (k : string) (params : list (string * string)) : option string :=
  match params with
  | [] => None
  | (k', v) :: rest => if String.eqb k k' then Some v else param k rest
  end.

(** The state of the first render, for the query string of the URL. *)
Definition initial (params : list (string * string)) : state :=
  mkState [] [] [] None None 0 (10000 # 1) "newest"
    (match param "search" params with
     | Some s => s
     | None => ""
     end)
    params true None.

Definition setAllGames (games : list Game.t) (st : state) : state :=
  mkState games (genres st) (platforms st) (selectedGenre st) (selectedPlatform st)
    (minPrice st) (maxPrice st) (sortBy st) (searchQuery st) (searchParams st)
    (loading st) (error st).
Definition setLists (gs : list Genre.t) (ps : list Platform.t) (st : state) : state :=
  mkState (allGames st) gs ps (selectedGenre st) (selectedPlatform st)
    (minPrice st) (maxPrice st) (sortBy st) (searchQuery st) (searchParams st)
    (loading st) (error st).
Definition setSelectedGenre (g : option number) (st : state) : state :=
  mkState (allGames st) (genres st) (platforms st) g (selectedPlatform st)
    (minPrice st) (maxPrice st) (sortBy st) (searchQuery st) (searchParams st)
    (loading st) (error st).
Definition setSelectedPlatform (p : option Z) (st : state) : state :=
  mkState (allGames st) (genres st) (platforms st) (selectedGenre st) p
    (minPrice st) (maxPrice st) (sortBy st) (searchQuery st) (searchParams st)
    (loading st) (error st).
Definition setSortBy (s : string) (st : state) : state :=
  mkState (allGames st) (genres st) (platforms st) (selectedGenre st) (selectedPlatform st)
    (minPrice st) (maxPrice st) s (searchQuery st) (searchParams st)
    (loading st) (error st).
Definition setLoading (b : bool) (st : state) : state :=
  mkState (allGames st) (genres st) (platforms st) (selectedGenre st) (selectedPlatform st)
    (minPrice st) (maxPrice st) (sortBy st) (searchQuery st) (searchParams st)
    b (error st).
Definition setError (e : string) (st : state) : state :=
  mkState (allGames st) (genres st) (platforms st) (selectedGenre st) (selectedPlatform st)
    (minPrice st) (maxPrice st) (sortBy st) (searchQuery st) (searchParams st)
    (loading st) (Some e).

(** [handlePriceChange]: the pair the sidebar reports becomes the price range. *)
Definition handlePriceChange (min max : Z) (st : state) : state :=
  mkState (allGames st) (genres st) (platforms st) (selectedGenre st) (selectedPlatform st)
    (inject_Z min) (inject_Z max) (sortBy st) (searchQuery st) (searchParams st)
    (loading st) (error st).

(** [handleSearch]: the query and the query string of the URL, which is
    replaced as a whole. *)
Definition handleSearch (query : string) (st : state) : state :=
  mkState (allGames st) (genres st) (platforms st) (selectedGenre st) (selectedPlatform st)
    (minPrice st) (maxPrice st) (sortBy st) query
    (if String.eqb query "" then [] else [("search", query)])
    (loading st) (error st).

(** What the router hands over as [searchParams]. *)
Definition setSearchParams (params : list (string * string)) (st : state) : state :=
  mkState (allGames st) (genres st) (platforms st) (selectedGenre st) (selectedPlatform st)
    (minPrice st) (maxPrice st) (sortBy st) (searchQuery st) params
    (loading st) (error st).

(** The effect on [searchParams]:
    [if (genreParam) setSelectedGenre(Number(genreParam))]. *)
Definition genreEffect (Number : string -> number) (st : state) : state :=
  match param "genre" (searchParams st) with
  | Some genreParam =>
      if String.eqb genreParam "" then st
      else setSelectedGenre (Some (Number genreParam)) st
  | None => st
  end.

(** The two calls [fetchGames] chooses between, as what they return or throw. *)
Record api := mkApi {
  searchGames : string -> Api.exception + list Game.t;
  getGames : Api.exception + list Game.t }.

Definition fetched (a : api) (st : state) : Api.exception + list Game.t :=
  if String.eqb (searchQuery st) "" then getGames a else searchGames a (searchQuery st).

Section Handlers.
Variable engineMessage : Api.exception -> string.

(** [fetchGames] from the moment its call has settled. *)
Definition fetchSettled (outcome : Api.exception + list Game.t) (st : state) : state :=
  setLoading false
    match outcome with
    | inr fetchedGames => setAllGames fetchedGames st
    | inl err => setError (Thrown.message engineMessage "Failed to fetch games" err) st
    end.

Definition fetchGames (a : api) (st : state) : state :=
  fetchSettled (fetched a st) (setLoading true st).

(** [loadInitialData] from the moment [Promise.all] has settled. *)
Definition initialSettled (outcome : Api.exception + (list Genre.t * list Platform.t))
    (st : state) : state :=
  setLoading false
    match outcome with
    | inr (genresData, platformsData) => setLists genresData platformsData st
    | inl err => setError (Thrown.message engineMessage "Failed to load data" err) st
    end.
End Handlers.

(** The filter state of the pipeline for a selected genre that is [null] or
    an integer. *)
Definition filtersOf (st : state) : Catalog.FilterState :=
  Catalog.mkFilterState
    (match selectedGenre st with
     | Some (Integer genre) => Some genre
     | _ => None
     end)
    (selectedPlatform st) (minPrice st) (maxPrice st) (sortBy st).

(** [getFilteredGames] on the state of the page.  A selected genre that is
    not an integer is not [null], so the genre filter runs, and it keeps no
    game; the other statements then work on the empty list. *)
Definition getFilteredGames (getTime : string -> Z) (st : state) : list Game.t :=
  match selectedGenre st with
  | Some NotInteger =>
      Catalog.getFilteredGames getTime (filtersOf st)
        (List.filter (fun _ => false) (allGames st))
  | _ => Catalog.getFilteredGames getTime (filtersOf st) (allGames st)
  end.

(** What the page renders: the loading line, the error with its retry
    button, or the results with the count line when there is a game. *)
Inductive view :=
| Loading
| Failed (message : string)
| Results (count : option string) (games : list Game.t).

Definition countLine (t : string -> string) (games : list Game.t) : option string :=
  if (0 <? length games)%nat
  then Some (string_of_Z (Z.of_nat (length games)) +:+ " " +:+
             (if (length games =? 1)%nat then t "common.gameFound" else t "common.gamesFound"))
  else None.

Definition render (getTime : string -> Z) (t : string -> string) (st : state) : view :=
  if loading st then Loading
  else if Thrown.truthy (error st)
       then Failed (match error st with Some e => e | None => "" end)
       else let games := getFilteredGames getTime st in
            Results (countLine t games) games.

(** The sidebar the page imports from [@/components/FilterSidebar/FilterSidebar]:
    the sources hold two versions of it, the one with the clamped handlers
    and the plain one. *)
Inductive sidebar :=
| Clamped
| Plain.

Definition handleMinChange (sb : sidebar) : Slider.range -> Z -> Slider.outcome :=
  match sb with
  | Clamped => Slider.Clamped.handleMinChange
  | Plain => Slider.Plain.handleMinChange
  end.

Definition handleMaxChange (sb : sidebar) : Slider.range -> Z -> Slider.outcome :=
  match sb with
  | Clamped => Slider.Clamped.handleMaxChange
  | Plain => Slider.Plain.handleMaxChange
  end.

(** The page with its sidebar, and what can happen to them: an update of a
    slider bound, a click on a sort option, on a genre or platform button
    ([None] is the button for all), a search, search params handed over by
    the router (those of the URL at mount, or of a later navigation), and
    the start and the settling of the two loads.  The effect on
    [searchParams] runs whenever these change. *)
Record system := mkSystem { page : state; range : Slider.range }.

Inductive event :=
| Slide (u : Slider.update)
| PickSort (i : nat)
| PickGenre (i : option nat)
| PickPlatform (i : option nat)
| Search (query : string)
| Params (params : list (string * string))
| FetchStarted
| FetchSettled (outcome : Api.exception + list Game.t)
| InitialStarted
| InitialSettled (outcome : Api.exception + (list Genre.t * list Platform.t)).

(** The first render: the slider starts from the price range of the page.
    The effects of the mount are events that follow: the two loads, and the
    search params of the URL. *)
Definition mounted (params : list (string * string)) : system :=
  mkSystem (initial params)
    (Slider.mkRange 0 10000).

Section Events.
Variable mounted_sidebar : sidebar.
Variable engineMessage : Api.exception -> string.
Variable t : string -> string.
(** [Number(genreParam)] *)
Variable Number : string -> number.

Definition step (s : system) (e : event) : system :=
  match e with
  | Slide u =>
      let o := Slider.handle (handleMinChange mounted_sidebar) (handleMaxChange mounted_sidebar)
                 (range s) u in
      mkSystem
        (fold_left (fun st p => handlePriceChange (fst p) (snd p) st) (Slider.reported o) (page s))
        (Slider.next o)
  | PickSort i =>
      match Sidebar.sortOptions t !! i with
      | Some option => mkSystem (setSortBy (fst option) (page s)) (range s)
      | None => s
      end
  | PickGenre None => mkSystem (setSelectedGenre None (page s)) (range s)
  | PickGenre (Some i) =>
      match genres (page s) !! i with
      | Some genre =>
          mkSystem (setSelectedGenre (Some (Integer (Genre.id genre))) (page s)) (range s)
      | None => s
      end
  | PickPlatform None => mkSystem (setSelectedPlatform None (page s)) (range s)
  | PickPlatform (Some i) =>
      match platforms (page s) !! i with
      | Some platform =>
          mkSystem (setSelectedPlatform (Some (Platform.id platform)) (page s)) (range s)
      | None => s
      end
  | Search query => mkSystem (genreEffect Number (handleSearch query (page s))) (range s)
  | Params params =>
      mkSystem (genreEffect Number (setSearchParams params (page s))) (range s)
  | FetchStarted => mkSystem (setLoading true (page s)) (range s)
  | FetchSettled outcome => mkSystem (fetchSettled engineMessage outcome (page s)) (range s)
  | InitialStarted => mkSystem (setLoading true (page s)) (range s)
  | InitialSettled outcome => mkSystem (initialSettled engineMessage outcome (page s)) (range s)
  end.

Definition run (s : system) (es : list event) : system := fold_left step es s.
End Events.

Definition failing (e : event) : bool :=
  match e with
  | FetchSettled (inl _) | InitialSettled (inl _) => true
  | _ => false
  end.

(** The same filters with another sort key. *)
Definition sortedBy (s : string) (st : Catalog.FilterState) : Catalog.FilterState :=
  Catalog.mkFilterState (Catalog.selectedGenre st) (Catalog.selectedPlatform st)
    (Catalog.minPrice st) (Catalog.maxPrice st) s.

End CatalogPage.

(** The home page with aggregation: the genre strip and the carousel. *)
Module HomePage.

(** A genre with the [gameCount] that [loadData] attaches to it. *)
Record GenreWithCount := mkCounted { genre : Genre.t; gameCount : Z }.

Definition countGames (gamesData : list Game.t) (genre : Genre.t) : Z :=
  Z.of_nat (length (List.filter (fun g => Game.genre_id g =? Genre.id genre) gamesData)).

Definition byGameCount (a b : GenreWithCount) : Q := inject_Z (gameCount b - gameCount a).

Definition sortedGenres (gamesData : list Game.t) (genresData : list Genre.t)
    : list GenreWithCount :=
  let genresWithCount :=
    List.map (fun genre => mkCounted genre (countGames gamesData genre)) genresData in
  JsArray.sort byGameCount genresWithCount.

Record state := mkState {
  games : list Game.t;
  genres : list GenreWithCount;
  loading : bool;
  error : option string }.

Definition loadData (engineMessage : Api.exception -> string)
    (outcome : Api.exception + (list Game.t * list Genre.t)) (st : state) : state :=
  match outcome with
  | inr (gamesData, genresData) =>
      mkState gamesData (sortedGenres gamesData genresData) false (error st)
  | inl err =>
      mkState (games st) (genres st) false
        (Some (Thrown.message engineMessage "Failed to load data" err))
  end.

(** The carousel: the timer moves to [(prev + 1) % 3]; there is one
    indicator per game of [featuredGames.slice(0, 3)]; the slide shows
    [featuredGames[currentSlide]]. *)
Inductive slideEvent :=
| Tick
| Indicator (index : nat).

Definition slideStep (featuredGames : list Game.t) (currentSlide : nat) (e : slideEvent) : nat :=
  match e with
  | Tick => (currentSlide + 1) mod 3
  | Indicator index =>
      if (index <? length (JsArray.slice0 3 featuredGames))%nat then index else currentSlide
  end.

Definition slides (featuredGames : list Game.t) (es : list slideEvent) : nat :=
  fold_left (slideStep featuredGames) es 0%nat.

Definition shown (featuredGames : list Game.t) (currentSlide : nat) : option Game.t :=
  featuredGames !! currentSlide.

End HomePage.

(** The state of a slider after a sequence of updates. *)
Module SliderRun.
Definition final (handleMinChange handleMaxChange : Slider.range -> Z -> Slider.outcome)
    (r : Slider.range) (us : list Slider.update) : Slider.range :=
  fold_left (fun r u => Slider.next (Slider.handle handleMinChange handleMaxChange r u)) us r.

Definition clamped : Slider.range -> list Slider.update -> Slider.range :=
  final Slider.Clamped.handleMinChange Slider.Clamped.handleMaxChange.
End SliderRun.

(** What the joins of the profile and the tally of the home page are
    measured against: whether an id is in the catalog, and the sum of the
    counts of a tally. *)
Module Joined.
Definition inCatalog (games : list Game.t) (game_id : Z) : bool :=
  existsb (fun g => Game.id g =? game_id) games.

Definition total (entries : list (Z * Z)) : Z :=
  fold_right (fun e acc => snd e + acc) 0 entries.
End Joined.

(** The featured list in the words of the specification, for the ids picked
    from the tally: the picked ids that are in the catalog, in their order,
    each as the first catalog game of that id, and after them, when they are
    fewer than 3, the first catalog games that are not among them, up to 3
    games in all. *)
Module Featured.
Definition firstWithId (games : list Game.t) (id : Z) (g : Game.t) : Prop :=
  exists before after,
    games = before ++ g :: after /\ Game.id g = id /\
    Forall (fun h => Game.id h <> id) before.

Definition remaining (games featured : list Game.t) : list Game.t :=
  List.filter (fun g => negb (Joined.inCatalog featured (Game.id g))) games.

Definition spec (games : list Game.t) (ids : list Z) (out : list Game.t) : Prop :=
  exists featured,
    Forall2 (firstWithId games) (List.filter (Joined.inCatalog games) ids) featured /\
    out = featured ++ take (3 - length featured) (remaining games featured).
End Featured.

(** The top-rated list on the store: [[...games]] is sorted in place, sliced
    and filtered. *)
Module StoreHome.
(** [a.slice(0, n)] *)
Definition slice0 (n : nat) (a : Store.loc) : Store.M Store.loc :=
  elems ← Store.elements a;
  Store.newArray (take n elems).

Definition topRatedGames (n : nat) (games : Store.loc) : Store.M Store.loc :=
  copy ← Store.spread games;
  _ ← Store.sort Home.byRating copy;
  sliced ← slice0 n copy;
  Store.filter Home.rated sliced.
End StoreHome.

(** * Properties *)

(** ** Range slider *)

Section SliderRuns.
Import Slider.
Variable handleMinChange handleMaxChange : range -> Z -> outcome.
Variable admissible : update -> Prop.
Variable inv : range -> Prop.
Hypothesis step_inv :
  forall r u, admissible u -> inv r -> inv (next (handle handleMinChange handleMaxChange r u)).

Lemma states_inv (r : range) (us : list update) :
  inv r -> Forall admissible us ->
  Forall inv (states handleMinChange handleMaxChange r us).
Proof.
  revert r. induction us as [|u us IH]; intros r Hr Hus; simpl.
  - constructor.
  - inversion Hus as [|? ? Hu Hus']; subst.
    constructor; [|apply IH]; auto.
Qed.

Variable good : Z * Z -> Prop.
Hypothesis step_good :
  forall r u, admissible u -> inv r ->
    Forall good (reported (handle handleMinChange handleMaxChange r u)).

Lemma reports_good (r : range) (us : list update) :
  inv r -> Forall admissible us ->
  Forall good (reports handleMinChange handleMaxChange r us).
Proof.
  revert r. induction us as [|u us IH]; intros r Hr Hus; simpl.
  - constructor.
  - inversion Hus as [|? ? Hu Hus']; subst.
    apply Forall_app. split; [now apply step_good | apply IH; auto].
Qed.
End SliderRuns.

Lemma clamped_step_bounded (r : Slider.range) (u : Slider.update) :
  Slider.bounded_above r ->
  Slider.bounded_above
    (Slider.next (Slider.handle Slider.Clamped.handleMinChange Slider.Clamped.handleMaxChange r u)).
Proof.
  unfold Slider.bounded_above. destruct r as [lo hi], u as [v|v]; simpl;
    unfold Slider.Clamped.handleMinChange, Slider.Clamped.handleMaxChange; simpl.
  - destruct (Z.eqb_spec hi 1); simpl; lia.
  - destruct (Z.eqb_spec lo 9999); simpl; lia.
Qed.

Lemma clamped_step_reported (r : Slider.range) (u : Slider.update) :
  Slider.bounded_above r ->
  Forall Slider.pair_bounded
    (Slider.reported
       (Slider.handle Slider.Clamped.handleMinChange Slider.Clamped.handleMaxChange r u)).
Proof.
  unfold Slider.pair_bounded, Slider.bounded_above.
  destruct r as [lo hi], u as [v|v]; simpl;
    unfold Slider.Clamped.handleMinChange, Slider.Clamped.handleMaxChange; simpl.
  - destruct (Z.eqb_spec hi 1); simpl; repeat constructor; simpl; lia.
  - destruct (Z.eqb_spec lo 9999); simpl; repeat constructor; simpl; lia.
Qed.

Lemma clamped_step_domain (r : Slider.range) (u : Slider.update) :
  0 <= Slider.proposed u ->
  Slider.within_domain r ->
  Slider.within_domain
    (Slider.next (Slider.handle Slider.Clamped.handleMinChange Slider.Clamped.handleMaxChange r u)).
Proof.
  unfold Slider.within_domain, Slider.bounded_above.
  destruct r as [lo hi], u as [v|v]; simpl;
    unfold Slider.Clamped.handleMinChange, Slider.Clamped.handleMaxChange; simpl.
  - destruct (Z.eqb_spec hi 1); simpl; lia.
  - destruct (Z.eqb_spec lo 9999); simpl; lia.
Qed.

Lemma plain_step_ordered (r : Slider.range) (u : Slider.update) :
  Slider.ordered r ->
  Slider.ordered
    (Slider.next (Slider.handle Slider.Plain.handleMinChange Slider.Plain.handleMaxChange r u)).
Proof.
  unfold Slider.ordered. destruct r as [lo hi], u as [v|v]; simpl; lia.
Qed.

(** C1, as the handlers keep it.  From a state with [0 <= min < max <= 10000]
    and for every finite sequence of updates with arbitrary integer values,
    every state of the clamped slider, and every pair it reports, has
    [min <= max <= 10000] and [min <= 9999]; when no proposed value is
    negative every state also has [0 <= min]; every state of the plain slider
    has [min <= max].  The bounds may meet. *)
Theorem slider_bounds_kept (r : Slider.range) (us : list Slider.update) :
  Slider.strictly_separated r ->
  Forall Slider.bounded_above
    (Slider.states Slider.Clamped.handleMinChange Slider.Clamped.handleMaxChange r us) /\
  Forall Slider.pair_bounded
    (Slider.reports Slider.Clamped.handleMinChange Slider.Clamped.handleMaxChange r us) /\
  (Forall (fun u => 0 <= Slider.proposed u) us ->
   Forall Slider.within_domain
     (Slider.states Slider.Clamped.handleMinChange Slider.Clamped.handleMaxChange r us)) /\
  Forall Slider.ordered
    (Slider.states Slider.Plain.handleMinChange Slider.Plain.handleMaxChange r us).
Proof.
  intros (H0 & Hlt & Hhi).
  assert (Hall : Forall (fun _ : Slider.update => True) us) by now apply Forall_forall.
  assert (Hb : Slider.bounded_above r) by (unfold Slider.bounded_above; lia).
  split; [|split; [|split]].
  - apply states_inv with (admissible := fun _ => True); auto.
    intros; now apply clamped_step_bounded.
  - apply reports_good with (admissible := fun _ => True) (inv := Slider.bounded_above); auto.
    + intros; now apply clamped_step_bounded.
    + intros; now apply clamped_step_reported.
  - intros Hus. apply states_inv with (admissible := fun u => 0 <= Slider.proposed u); auto.
    + intros; now apply clamped_step_domain.
    + unfold Slider.within_domain; auto with zarith.
  - apply states_inv with (admissible := fun _ => True); auto.
    + intros; now apply plain_step_ordered.
    + unfold Slider.ordered; lia.
Qed.

(** From (500, 9999): the maximum is proposed at 400, then the minimum at
    12000. *)
Lemma slider_bounds_kept_witness :
  Forall Slider.within_domain
    (Slider.states Slider.Clamped.handleMinChange Slider.Clamped.handleMaxChange
       (Slider.mkRange 500 9999) [Slider.MaxChange 400; Slider.MinChange 12000]).
Proof.
  refine (proj1 (proj2 (proj2 (slider_bounds_kept (Slider.mkRange 500 9999)
            [Slider.MaxChange 400; Slider.MinChange 12000] _))) _).
  - unfold Slider.strictly_separated; simpl; lia.
  - repeat constructor; simpl; lia.
Defined.

(** C1 as stated fails: a minimum proposed at the current maximum is
    committed and the bounds meet; a negative minimum is committed as it is. *)
Lemma slider_separation_lost :
  Slider.strictly_separated (Slider.mkRange 0 5000) /\
  Slider.states Slider.Clamped.handleMinChange Slider.Clamped.handleMaxChange
    (Slider.mkRange 0 5000) [Slider.MinChange 5000] = [Slider.mkRange 5000 5000] /\
  ~ Forall Slider.strictly_separated
      (Slider.states Slider.Clamped.handleMinChange Slider.Clamped.handleMaxChange
         (Slider.mkRange 0 5000) [Slider.MinChange 5000]) /\
  ~ Forall Slider.strictly_separated
      (Slider.states Slider.Clamped.handleMinChange Slider.Clamped.handleMaxChange
         (Slider.mkRange 0 5000) [Slider.MinChange (-5)]).
Proof.
  unfold Slider.strictly_separated. repeat split; simpl; try lia.
  - intros H. inversion H as [|? ? Hx _]; subst. simpl in Hx. lia.
  - intros H. inversion H as [|? ? Hx _]; subst. simpl in Hx. lia.
Qed.

(** C2, as the handler computes it.  When the current maximum is 1 the
    handler commits nothing.  Otherwise it commits the proposed value capped
    at 9999 and at the current maximum: for a proposed value that is not
    negative this is the value clamped to [0, 9999] and then to the current
    maximum; a negative proposed value is committed unchanged whenever it is
    below the current maximum. *)
Theorem min_handler_commit (r : Slider.range) (v : Z) :
  (Slider.max r = 1 -> Slider.Clamped.handleMinChange r v = Slider.mkOutcome r []) /\
  (Slider.max r <> 1 ->
   let newMin := Z.min (Z.min v 9999) (Slider.max r) in
   Slider.Clamped.handleMinChange r v =
     Slider.mkOutcome (Slider.mkRange newMin (Slider.max r)) [(newMin, Slider.max r)] /\
   (0 <= v -> newMin = Slider.min_rule r v) /\
   (v < 0 -> v <= Slider.max r -> newMin = v)).
Proof.
  unfold Slider.Clamped.handleMinChange, Slider.min_rule, Slider.clamp.
  destruct (Z.eqb_spec (Slider.max r) 1); split; intros; try contradiction; try easy.
  simpl. repeat split; lia.
Qed.

Lemma min_handler_commit_witness :
  Slider.Clamped.handleMinChange (Slider.mkRange 0 10000) 12000 =
    Slider.mkOutcome (Slider.mkRange 9999 10000) [(9999, 10000)] /\
  9999 = Slider.min_rule (Slider.mkRange 0 10000) 12000.
Proof.
  destruct (proj2 (min_handler_commit (Slider.mkRange 0 10000) 12000)) as (H1 & H2 & _).
  - simpl; lia.
  - split; [exact H1 | apply H2; lia].
Defined.

(** C2 as stated fails: for the proposed value -5 the rule of the
    specification gives 0, the handler commits -5. *)
Lemma min_handler_negative :
  Slider.min_rule (Slider.mkRange 0 10000) (-5) = 0 /\
  Slider.Clamped.handleMinChange (Slider.mkRange 0 10000) (-5) =
    Slider.mkOutcome (Slider.mkRange (-5) 10000) [(-5, 10000)] /\
  Slider.min (Slider.next (Slider.Clamped.handleMinChange (Slider.mkRange 0 10000) (-5)))
    <> Slider.min_rule (Slider.mkRange 0 10000) (-5).
Proof.
  repeat split. vm_compute. discriminate.
Qed.

(** ** The stable sort *)

Section SortFacts.
Context {A : Type}.
Variable compareFn : A -> A -> Q.

Lemma insert_perm (x : A) (l : list A) :
  Permutation (JsArray.insert compareFn x l) (x :: l).
Proof.
  induction l as [|y l IH]; simpl; [reflexivity|].
  destruct (JsArray.after compareFn x y); [|reflexivity].
  rewrite IH. apply perm_swap.
Qed.

Lemma sort_perm (l : list A) : Permutation (JsArray.sort compareFn l) l.
Proof.
  induction l as [|x l IH]; simpl; [reflexivity|].
  rewrite insert_perm. now constructor.
Qed.

Lemma sort_length (l : list A) : length (JsArray.sort compareFn l) = length l.
Proof. apply Permutation_length, sort_perm. Qed.

Lemma sort_In (x : A) (l : list A) : In x (JsArray.sort compareFn l) <-> In x l.
Proof.
  split; apply Permutation_in; [|symmetry]; apply sort_perm.
Qed.

(** The comparator orders by a key: [a] goes after [b] exactly when its key
    is the larger one. *)
Variable key : A -> Q.
Hypothesis after_key :
  forall a b, JsArray.after compareFn a b = true <-> (key b < key a)%Q.

Lemma not_after_key (a b : A) :
  JsArray.after compareFn a b = false <-> (key a <= key b)%Q.
Proof.
  split; intros H.
  - apply Qnot_lt_le. intros Hlt. apply after_key in Hlt. congruence.
  - destruct (JsArray.after compareFn a b) eqn:E; [|reflexivity].
    apply after_key in E. exfalso. eapply Qlt_not_le; eauto.
Qed.

(** Sorting a list that a relation [R] already orders yields a list ordered
    by the key first and by [R] among equal keys. *)
Section Secondary.
Variable R : A -> A -> Prop.

Lemma keyThen_le (a b : A) : (JsArray.keyThen key R) a b -> (key a <= key b)%Q.
Proof.
  intros [H|[H _]]; [now apply Qlt_le_weak | rewrite H; apply Qle_refl].
Qed.

Lemma insert_keyThen (x : A) (s : list A) :
  StronglySorted (JsArray.keyThen key R) s -> Forall (R x) s ->
  StronglySorted (JsArray.keyThen key R) (JsArray.insert compareFn x s).
Proof.
  induction s as [|y s IH]; intros Hs Hx; simpl.
  - repeat constructor.
  - inversion Hs as [|? ? Hs' Hy]; subst.
    inversion Hx as [|? ? Hxy Hxs]; subst.
    destruct (JsArray.after compareFn x y) eqn:E.
    + constructor; [now apply IH|].
      rewrite (insert_perm x s). constructor; [|assumption].
      left. now apply after_key.
    + apply not_after_key in E.
      constructor; [assumption|].
      constructor.
      * destruct (Qle_lt_or_eq _ _ E) as [Hlt|Heq]; [now left | right; now split].
      * rewrite Forall_forall in *. intros z Hz.
        assert (Hyz : (key y <= key z)%Q) by (apply keyThen_le, Hy, Hz).
        assert (Hxz : (key x <= key z)%Q) by (eapply Qle_trans; eauto).
        destruct (Qle_lt_or_eq _ _ Hxz) as [Hlt|Heq]; [now left | right; split; auto].
Qed.

Lemma sort_keyThen (l : list A) :
  StronglySorted R l -> StronglySorted (JsArray.keyThen key R) (JsArray.sort compareFn l).
Proof.
  induction l as [|x l IH]; intros Hl; simpl; [constructor|].
  inversion Hl as [|? ? Hl' Hx]; subst.
  apply insert_keyThen; [now apply IH|].
  now rewrite sort_perm.
Qed.
End Secondary.

Lemma sort_sorted (l : list A) : StronglySorted (JsArray.keyLe key) (JsArray.sort compareFn l).
Proof.
  induction l as [|x l IH]; simpl; [constructor|].
  set (s := JsArray.sort compareFn l) in *. clearbody s.
  induction s as [|y s IHs]; simpl; [repeat constructor|].
  inversion IH as [|? ? Hs Hy]; subst.
  destruct (JsArray.after compareFn x y) eqn:E.
  - constructor; [now apply IHs|].
    rewrite (insert_perm x s). constructor; [|assumption].
    apply Qlt_le_weak. now apply after_key.
  - apply not_after_key in E. constructor; [assumption|].
    constructor; [assumption|].
    rewrite Forall_forall in *. intros z Hz.
    unfold JsArray.keyLe in *. eapply Qle_trans; [exact E|]. now apply Hy.
Qed.

Lemma insert_front (x : A) (l : list A) :
  Forall (JsArray.keyLe key x) l -> JsArray.insert compareFn x l = x :: l.
Proof.
  destruct l as [|y l]; [reflexivity|]. intros H. simpl.
  inversion H as [|? ? Hxy _]; subst.
  apply not_after_key in Hxy. now rewrite Hxy.
Qed.

Lemma filter_insert (p : A -> bool) (x : A) (l : list A) :
  StronglySorted (JsArray.keyLe key) l ->
  List.filter p (JsArray.insert compareFn x l) =
    if p x then JsArray.insert compareFn x (List.filter p l) else List.filter p l.
Proof.
  induction l as [|y l IH]; intros Hl; simpl.
  - now destruct (p x).
  - inversion Hl as [|? ? Hl' Hy]; subst.
    destruct (JsArray.after compareFn x y) eqn:E; simpl.
    + rewrite (IH Hl'). destruct (p y), (p x); simpl; try reflexivity.
      now rewrite E.
    + apply not_after_key in E.
      destruct (p x); [|reflexivity].
      symmetry. apply insert_front.
      assert (Hall : Forall (JsArray.keyLe key x) (y :: l)).
      { constructor; [assumption|]. rewrite Forall_forall in *. intros z Hz.
        unfold JsArray.keyLe in *. eapply Qle_trans; [exact E|]. now apply Hy. }
      rewrite Forall_forall in *. intros z Hz. apply Hall.
      apply list_elem_of_In. apply list_elem_of_In in Hz.
      change (if p y then y :: List.filter p l else List.filter p l)
        with (List.filter p (y :: l)) in Hz.
      apply List.filter_In in Hz. tauto.
Qed.

(** Filtering commutes with the sort: the sort is stable. *)
Lemma filter_sort (p : A -> bool) (l : list A) :
  List.filter p (JsArray.sort compareFn l) = JsArray.sort compareFn (List.filter p l).
Proof.
  induction l as [|x l IH]; simpl; [reflexivity|].
  rewrite filter_insert by apply sort_sorted.
  rewrite IH. now destruct (p x).
Qed.

Lemma sort_same_key (k : Q) (l : list A) :
  Forall (fun a => (key a == k)%Q) l -> JsArray.sort compareFn l = l.
Proof.
  induction l as [|x l IH]; intros H; simpl; [reflexivity|].
  inversion H as [|? ? Hx Hl]; subst.
  rewrite (IH Hl). apply insert_front.
  rewrite Forall_forall in *. intros z Hz. unfold JsArray.keyLe.
  rewrite Hx, (Hl z Hz). apply Qle_refl.
Qed.

(** Elements of equal key come out in the order they went in. *)
Lemma sort_stable (k : Q) (l : list A) :
  List.filter (JsArray.hasKey key k) (JsArray.sort compareFn l) = List.filter (JsArray.hasKey key k) l.
Proof.
  rewrite filter_sort. apply (sort_same_key k).
  apply Forall_forall. intros a Ha. apply list_elem_of_In in Ha.
  apply List.filter_In in Ha. destruct Ha as [_ Ha].
  now apply Qeq_bool_iff in Ha.
Qed.

End SortFacts.

(** ** Comparators of the pages *)

Lemma after_difference {A : Type} (compareFn : A -> A -> Q) (key : A -> Q) :
  (forall a b, (compareFn a b == key a - key b)%Q) ->
  forall a b, JsArray.after compareFn a b = true <-> (key b < key a)%Q.
Proof.
  intros Hc a b. unfold JsArray.after. rewrite (Hc a b).
  rewrite (Qlt_minus_iff (key b) (key a)).
  change (key a + - key b)%Q with (key a - key b)%Q.
  rewrite (Qgt_alt (key a - key b) 0).
  destruct (key a - key b ?= 0)%Q; split; congruence.
Qed.

Lemma byOldest_key getTime (a b : Game.t) :
  JsArray.after (Catalog.byOldest getTime) a b = true <->
  (inject_Z (Catalog.timeOf getTime b) < inject_Z (Catalog.timeOf getTime a))%Q.
Proof.
  apply (after_difference _ (fun g => inject_Z (Catalog.timeOf getTime g))).
  intros x y. unfold Catalog.byOldest, Catalog.timeOf.
  unfold Z.sub. rewrite inject_Z_plus, inject_Z_opp. reflexivity.
Qed.

Lemma byNewest_key getTime (a b : Game.t) :
  JsArray.after (Catalog.byNewest getTime) a b = true <->
  (- inject_Z (Catalog.timeOf getTime b) < - inject_Z (Catalog.timeOf getTime a))%Q.
Proof.
  apply (after_difference _ (fun g => (- inject_Z (Catalog.timeOf getTime g))%Q)).
  intros x y. unfold Catalog.byNewest, Catalog.timeOf.
  unfold Z.sub. rewrite inject_Z_plus, inject_Z_opp. ring.
Qed.

Lemma byPriceAsc_key (a b : Game.t) :
  JsArray.after Catalog.byPriceAsc a b = true <-> (Game.price b < Game.price a)%Q.
Proof. apply after_difference. intros x y. reflexivity. Qed.

Lemma byPriceDesc_key (a b : Game.t) :
  JsArray.after Catalog.byPriceDesc a b = true <->
  (- Game.price b < - Game.price a)%Q.
Proof.
  apply (after_difference _ (fun g => (- Game.price g)%Q)).
  intros x y. unfold Catalog.byPriceDesc. ring.
Qed.

Lemma byRating_key (a b : Game.t) :
  JsArray.after Home.byRating a b = true <->
  (- Game.rating b < - Game.rating a)%Q.
Proof.
  apply (after_difference _ (fun g => (- Game.rating g)%Q)).
  intros x y. unfold Home.byRating. ring.
Qed.

Lemma catalog_byRating_key (a b : Game.t) :
  JsArray.after Catalog.byRating a b = true <->
  (- Game.rating b < - Game.rating a)%Q.
Proof. apply byRating_key. Qed.

Lemma StronglySorted_weaken {A : Type} (R S : A -> A -> Prop) (l : list A) :
  (forall a b, R a b -> S a b) -> StronglySorted R l -> StronglySorted S l.
Proof.
  intros HRS. induction 1 as [|x l Hl IH Hx]; constructor; [assumption|].
  eapply Forall_impl; eauto.
Qed.

Lemma filter_pointwise {A : Type} (p q : A -> bool) (l : list A) :
  (forall a, p a = q a) -> List.filter p l = List.filter q l.
Proof. intros H. apply List.filter_ext. exact H. Qed.

Lemma filter_same_as {A : Type} (p q : A -> bool) (l l' : list A) :
  (forall a, p a = q a) ->
  List.filter q l = List.filter q l' -> List.filter p l = List.filter p l'.
Proof.
  intros H E. now rewrite (filter_pointwise p q l H), (filter_pointwise p q l' H).
Qed.

Lemma Qeq_bool_opp (p q : Q) : Qeq_bool (- p) (- q) = Qeq_bool p q.
Proof.
  destruct (Qeq_bool p q) eqn:E.
  - apply Qeq_bool_iff in E. apply Qeq_bool_iff. now rewrite E.
  - destruct (Qeq_bool (- p) (- q)) eqn:E'; [|reflexivity].
    apply Qeq_bool_iff in E'.
    assert (H : (p == q)%Q) by (rewrite <- (Qopp_involutive p), E'; apply Qopp_involutive).
    apply Qeq_bool_iff in H. congruence.
Qed.

Lemma Qeq_bool_inject (a b : Z) : Qeq_bool (inject_Z a) (inject_Z b) = (a =? b).
Proof.
  destruct (Z.eqb_spec a b) as [->|Hne].
  - apply Qeq_bool_iff. reflexivity.
  - destruct (Qeq_bool (inject_Z a) (inject_Z b)) eqn:E; [|reflexivity].
    apply Qeq_bool_iff in E. unfold Qeq in E. simpl in E. lia.
Qed.

(** ** Catalog pipeline: filtering *)

Lemma filter_filter {A : Type} (p q : A -> bool) (l : list A) :
  List.filter p (List.filter q l) = List.filter (fun a => q a && p a) l.
Proof.
  induction l as [|x l IH]; simpl; [reflexivity|].
  destruct (q x); simpl; [destruct (p x)|]; now rewrite IH.
Qed.

Lemma filter_true {A : Type} (l : list A) : List.filter (fun _ => true) l = l.
Proof. induction l as [|x l IH]; simpl; congruence. Qed.

Lemma filterStage_passes (st : Catalog.FilterState) (games : list Game.t) :
  Catalog.filterStage st games = List.filter (Catalog.passes st) games.
Proof.
  unfold Catalog.filterStage, Catalog.passes.
  destruct (Catalog.selectedGenre st), (Catalog.selectedPlatform st);
    rewrite ?filter_filter; apply filter_pointwise; intros g;
    unfold Catalog.genreTest, Catalog.platformTest; simpl;
    rewrite ?andb_true_r, ?andb_assoc; reflexivity.
Qed.

Lemma priceTest_iff (lo hi : Q) (g : Game.t) :
  Catalog.priceTest lo hi g = true <-> (lo <= Game.price g)%Q /\ (Game.price g <= hi)%Q.
Proof.
  unfold Catalog.priceTest. rewrite andb_true_iff, !Qle_bool_iff. reflexivity.
Qed.

Lemma passes_iff (st : Catalog.FilterState) (g : Game.t) :
  Catalog.passes st g = true <->
  Catalog.genre_ok st g /\ Catalog.platform_ok st g /\ Catalog.price_ok st g.
Proof.
  unfold Catalog.passes, Catalog.genre_ok, Catalog.platform_ok, Catalog.price_ok.
  rewrite !andb_true_iff, priceTest_iff.
  destruct (Catalog.selectedGenre st) as [k|], (Catalog.selectedPlatform st) as [k'|];
    rewrite ?Z.eqb_eq; split.
  all: try (intros [[Hg Hp] Hr]; repeat split; try apply Hr; intros ? [= <-]; assumption).
  all: try (intros [[Hg Hp] Hr]; repeat split; try apply Hr; intros ? [=]).
  all: intros (Hg & Hp & Hr); repeat split; try apply Hr; auto.
Qed.

Lemma sortStage_perm getTime (sortBy : string) (l : list Game.t) :
  Permutation (Catalog.sortStage getTime sortBy l) l.
Proof.
  unfold Catalog.sortStage. destruct (Catalog.comparator getTime sortBy); [apply sort_perm | reflexivity].
Qed.

Lemma getFilteredGames_In getTime (st : Catalog.FilterState) (games : list Game.t) (g : Game.t) :
  In g (Catalog.getFilteredGames getTime st games) <-> In g games /\ Catalog.passes st g = true.
Proof.
  unfold Catalog.getFilteredGames. rewrite filterStage_passes.
  rewrite <- List.filter_In. split; apply Permutation_in; [|symmetry]; apply sortStage_perm.
Qed.

Lemma getFilteredGames_grows getTime (st st' : Catalog.FilterState) (games : list Game.t) :
  (forall g, Catalog.passes st g = true -> Catalog.passes st' g = true) ->
  incl (Catalog.getFilteredGames getTime st games) (Catalog.getFilteredGames getTime st' games).
Proof.
  intros H g. rewrite !getFilteredGames_In. intuition.
Qed.

(** C3.  The output of the pipeline holds exactly the games of the input
    that pass every active filter (genre when selected, platform when
    selected, price within the inclusive range), each as often as the input
    holds it; and switching the genre filter off, switching the platform
    filter off, or widening the price range never loses a game of the
    output. *)
Theorem pipeline_filters (getTime : string -> Z) (st : Catalog.FilterState)
    (games : list Game.t) :
  (forall g, In g (Catalog.getFilteredGames getTime st games) <->
             In g games /\ Catalog.genre_ok st g /\ Catalog.platform_ok st g /\
             Catalog.price_ok st g) /\
  Permutation (Catalog.getFilteredGames getTime st games)
              (List.filter (Catalog.passes st) games) /\
  incl (Catalog.getFilteredGames getTime st games)
       (Catalog.getFilteredGames getTime (Catalog.withoutGenre st) games) /\
  incl (Catalog.getFilteredGames getTime st games)
       (Catalog.getFilteredGames getTime (Catalog.withoutPlatform st) games) /\
  (forall lo hi, (lo <= Catalog.minPrice st)%Q -> (Catalog.maxPrice st <= hi)%Q ->
     incl (Catalog.getFilteredGames getTime st games)
          (Catalog.getFilteredGames getTime (Catalog.withPrices lo hi st) games)).
Proof.
  split; [|split; [|split; [|split]]].
  - intros g. rewrite getFilteredGames_In, passes_iff. reflexivity.
  - unfold Catalog.getFilteredGames. rewrite <- filterStage_passes. apply sortStage_perm.
  - apply getFilteredGames_grows. intros g. rewrite !passes_iff.
    unfold Catalog.genre_ok, Catalog.platform_ok, Catalog.price_ok. simpl.
    intros (_ & Hp & Hr). repeat split; try apply Hr; auto. intros ? [=].
  - apply getFilteredGames_grows. intros g. rewrite !passes_iff.
    unfold Catalog.genre_ok, Catalog.platform_ok, Catalog.price_ok. simpl.
    intros (Hg & _ & Hr). repeat split; try apply Hr; auto. intros ? [=].
  - intros lo hi Hlo Hhi. apply getFilteredGames_grows. intros g. rewrite !passes_iff.
    unfold Catalog.genre_ok, Catalog.platform_ok, Catalog.price_ok. simpl.
    intros (Hg & Hp & Hr1 & Hr2). repeat split; auto.
    + eapply Qle_trans; eauto.
    + eapply Qle_trans; eauto.
Qed.

(** ** Catalog pipeline: sorting *)

Lemma sort_by_key {A : Type} (compareFn : A -> A -> Q) (key : A -> Q) (l : list A) :
  (forall a b, JsArray.after compareFn a b = true <-> (key b < key a)%Q) ->
  StronglySorted (JsArray.keyLe key) (JsArray.sort compareFn l) /\
  Permutation (JsArray.sort compareFn l) l /\
  (forall k, List.filter (JsArray.hasKey key k) (JsArray.sort compareFn l) =
             List.filter (JsArray.hasKey key k) l).
Proof.
  intros Hkey. split; [|split].
  - now apply sort_sorted.
  - apply sort_perm.
  - intros k. now apply sort_stable.
Qed.

Lemma Qopp_le_cancel (p q : Q) : (- p <= - q)%Q -> (q <= p)%Q.
Proof.
  intros H. apply Qopp_le_compat in H. now rewrite !Qopp_involutive in H.
Qed.

Lemma comparator_cases getTime (sortBy : string) :
  (sortBy = "newest" /\ Catalog.comparator getTime sortBy = Some (Catalog.byNewest getTime)) \/
  (sortBy = "oldest" /\ Catalog.comparator getTime sortBy = Some (Catalog.byOldest getTime)) \/
  (sortBy = "price-asc" /\ Catalog.comparator getTime sortBy = Some Catalog.byPriceAsc) \/
  (sortBy = "price-desc" /\ Catalog.comparator getTime sortBy = Some Catalog.byPriceDesc) \/
  (sortBy = "rating" /\ Catalog.comparator getTime sortBy = Some Catalog.byRating) \/
  (~ In sortBy Catalog.sortKeys /\ Catalog.comparator getTime sortBy = None).
Proof.
  unfold Catalog.comparator, Catalog.sortKeys.
  destruct (String.eqb_spec sortBy "newest"); [left; auto|].
  destruct (String.eqb_spec sortBy "oldest"); [right; left; auto|].
  destruct (String.eqb_spec sortBy "price-asc"); [do 2 right; left; auto|].
  destruct (String.eqb_spec sortBy "price-desc"); [do 3 right; left; auto|].
  destruct (String.eqb_spec sortBy "rating"); [do 4 right; left; auto|].
  do 5 right. split; [|reflexivity]. simpl. intuition congruence.
Qed.

(** C4.  With [pre] the games the filters keep and [out] the output:
    for 'newest' / 'oldest' [out] is [pre] ordered by release date descending
    / ascending, for 'price-asc' / 'price-desc' by price ascending /
    descending, for 'rating' by rating descending; in each case the games of
    one release date (price, rating) are in [out] in the order they have in
    [pre]; for any other sort key [out] is [pre]. *)
Theorem pipeline_sorts (getTime : string -> Z) (st : Catalog.FilterState)
    (games : list Game.t) :
  let pre := Catalog.filterStage st games in
  let out := Catalog.getFilteredGames getTime st games in
  Permutation out pre /\
  (Catalog.sortBy st = "newest" ->
   StronglySorted (Catalog.newestFirst getTime) out /\
   forall t, List.filter (Catalog.releasedAt getTime t) out =
             List.filter (Catalog.releasedAt getTime t) pre) /\
  (Catalog.sortBy st = "oldest" ->
   StronglySorted (Catalog.oldestFirst getTime) out /\
   forall t, List.filter (Catalog.releasedAt getTime t) out =
             List.filter (Catalog.releasedAt getTime t) pre) /\
  (Catalog.sortBy st = "price-asc" ->
   StronglySorted Catalog.cheapestFirst out /\
   forall q, List.filter (Catalog.pricedAt q) out = List.filter (Catalog.pricedAt q) pre) /\
  (Catalog.sortBy st = "price-desc" ->
   StronglySorted Catalog.dearestFirst out /\
   forall q, List.filter (Catalog.pricedAt q) out = List.filter (Catalog.pricedAt q) pre) /\
  (Catalog.sortBy st = "rating" ->
   StronglySorted Catalog.bestFirst out /\
   forall q, List.filter (Catalog.ratedAt q) out = List.filter (Catalog.ratedAt q) pre) /\
  (~ In (Catalog.sortBy st) Catalog.sortKeys -> out = pre).
Proof.
  intros pre out. subst out. unfold Catalog.getFilteredGames. fold pre. clearbody pre.
  split; [apply sortStage_perm|].
  unfold Catalog.sortStage.
  repeat split.
  - rewrite H. simpl.
    destruct (sort_by_key _ _ pre (byNewest_key getTime)) as (Hs & _ & _).
    eapply StronglySorted_weaken; [|exact Hs].
    intros a b Hab. unfold JsArray.keyLe in Hab. apply Qopp_le_cancel in Hab.
    unfold Catalog.newestFirst. now rewrite Zle_Qle.
  - intros t. rewrite H. simpl.
    destruct (sort_by_key _ _ pre (byNewest_key getTime)) as (_ & _ & Hst).
    specialize (Hst (- inject_Z t)%Q).
    eapply filter_same_as; [|exact Hst].
    intros g; unfold Catalog.releasedAt, JsArray.hasKey;
      now rewrite Qeq_bool_opp, Qeq_bool_inject.
  - rewrite H. simpl.
    destruct (sort_by_key _ _ pre (byOldest_key getTime)) as (Hs & _ & _).
    eapply StronglySorted_weaken; [|exact Hs].
    intros a b Hab. unfold JsArray.keyLe in Hab.
    unfold Catalog.oldestFirst. now rewrite Zle_Qle.
  - intros t. rewrite H. simpl.
    destruct (sort_by_key _ _ pre (byOldest_key getTime)) as (_ & _ & Hst).
    specialize (Hst (inject_Z t)).
    eapply filter_same_as; [|exact Hst].
    intros g; unfold Catalog.releasedAt, JsArray.hasKey;
      now rewrite Qeq_bool_inject.
  - rewrite H. simpl.
    destruct (sort_by_key _ _ pre byPriceAsc_key) as (Hs & _ & _). exact Hs.
  - intros q. rewrite H. simpl.
    destruct (sort_by_key _ _ pre byPriceAsc_key) as (_ & _ & Hst). apply Hst.
  - rewrite H. simpl.
    destruct (sort_by_key _ _ pre byPriceDesc_key) as (Hs & _ & _).
    eapply StronglySorted_weaken; [|exact Hs].
    intros a b Hab. now apply Qopp_le_cancel.
  - intros q. rewrite H. simpl.
    destruct (sort_by_key _ _ pre byPriceDesc_key) as (_ & _ & Hst).
    specialize (Hst (- q)%Q).
    eapply filter_same_as; [|exact Hst].
    intros g; unfold Catalog.pricedAt, JsArray.hasKey; now rewrite Qeq_bool_opp.
  - rewrite H. simpl.
    destruct (sort_by_key _ _ pre catalog_byRating_key) as (Hs & _ & _).
    eapply StronglySorted_weaken; [|exact Hs].
    intros a b Hab. now apply Qopp_le_cancel.
  - intros q. rewrite H. simpl.
    destruct (sort_by_key _ _ pre catalog_byRating_key) as (_ & _ & Hst).
    specialize (Hst (- q)%Q).
    eapply filter_same_as; [|exact Hst].
    intros g; unfold Catalog.ratedAt, JsArray.hasKey; now rewrite Qeq_bool_opp.
  - intros Hno.
    destruct (comparator_cases getTime (Catalog.sortBy st))
      as [[E _]|[[E _]|[[E _]|[[E _]|[[E _]|[_ E]]]]]];
      try (exfalso; apply Hno; rewrite E; unfold Catalog.sortKeys; simpl; tauto).
    now rewrite E.
Qed.

(** ** The pipeline on the store *)

Section StoreFacts.
Import Store.

Lemma bind_run {A B : Type} (m : M A) (f : A -> M B) (h : heap) :
  (m ≫= f) h = match m h with Some (x, h') => f x h' | None => None end.
Proof. reflexivity. Qed.

Lemma preserved_refl (h : heap) : preserved h h.
Proof. split; auto. Qed.

Lemma preserved_trans (h1 h2 h3 : heap) :
  preserved h1 h2 -> preserved h2 h3 -> preserved h1 h3.
Proof.
  intros [Ho Ha] [Ho' Ha']. split; [congruence|]. intros l elems H. auto.
Qed.

Lemma preserved_contents (h h' : heap) (a : loc) (games : list Game.t) :
  preserved h h' -> contents h a = Some games -> contents h' a = Some games.
Proof.
  intros [Ho Ha]. unfold contents.
  destruct (arrays h !! a) as [elems|] eqn:E; [|discriminate].
  rewrite (Ha _ _ E), Ho. auto.
Qed.

Lemma fresh_array (h : heap) : arrays h !! fresh (dom (arrays h)) = None.
Proof. apply not_elem_of_dom, is_fresh. Qed.

Lemma newArray_run (elems : list loc) (h : heap) :
  exists r h', newArray elems h = Some (r, h') /\
    arrays h !! r = None /\ preserved h h' /\ arrays h' !! r = Some elems.
Proof.
  unfold newArray. eexists _, _. split; [reflexivity|].
  pose proof (fresh_array h) as Hf. repeat split; simpl.
  - exact Hf.
  - intros l e Hl. rewrite lookup_insert_ne; [assumption|]. congruence.
  - apply lookup_insert_eq.
Qed.

Lemma objectsOf_run (h : heap) (elems : list loc) (games : list Game.t) :
  mapM (fun o => objects h !! o) elems = Some games ->
  objectsOf elems h = Some (games, h).
Proof.
  revert games. induction elems as [|o elems IH]; intros games H.
  - simpl in H. injection H as <-. reflexivity.
  - apply mapM_Some in H. inversion H as [|? g ? gs Ho Hrest]; subst.
    apply mapM_Some in Hrest. simpl.
    rewrite bind_run. unfold object. rewrite Ho.
    rewrite bind_run, (IH _ Hrest). reflexivity.
Qed.

Lemma zip_denotes (h : heap) (elems : list loc) (games : list Game.t) :
  mapM (fun o => objects h !! o) elems = Some games ->
  Forall (denotes h) (zip elems games) /\ List.map snd (zip elems games) = games.
Proof.
  intros H. apply mapM_Some in H. induction H as [|o g elems games Ho _ [IH1 IH2]]; simpl.
  - split; [constructor | reflexivity].
  - split; [constructor; assumption | congruence].
Qed.

Lemma denotes_contents (h : heap) (ps : list (loc * Game.t)) :
  Forall (denotes h) ps ->
  mapM (fun o => objects h !! o) (List.map fst ps) = Some (List.map snd ps).
Proof.
  intros H. apply mapM_Some. induction H as [|p ps Hp _ IH]; simpl; constructor; auto.
Qed.

Lemma filter_snd {A B : Type} (test : B -> bool) (ps : list (A * B)) :
  List.map snd (List.filter (fun e => test (snd e)) ps) = List.filter test (List.map snd ps).
Proof.
  induction ps as [|p ps IH]; simpl; [reflexivity|].
  destruct (test (snd p)); simpl; now rewrite IH.
Qed.

Lemma insert_snd {A B : Type} (compareFn : B -> B -> Q) (p : A * B) (ps : list (A * B)) :
  List.map snd (JsArray.insert (fun x y => compareFn (snd x) (snd y)) p ps) =
  JsArray.insert compareFn (snd p) (List.map snd ps).
Proof.
  induction ps as [|q ps IH]; simpl; [reflexivity|].
  unfold JsArray.after.
  destruct (compareFn (snd p) (snd q) ?= 0)%Q; simpl; try reflexivity.
  now rewrite IH.
Qed.

Lemma sort_snd {A B : Type} (compareFn : B -> B -> Q) (ps : list (A * B)) :
  List.map snd (JsArray.sort (fun x y => compareFn (snd x) (snd y)) ps) =
  JsArray.sort compareFn (List.map snd ps).
Proof.
  induction ps as [|p ps IH]; simpl; [reflexivity|].
  now rewrite insert_snd, IH.
Qed.

Lemma spread_run (h : heap) (a : loc) (games : list Game.t) :
  contents h a = Some games ->
  exists r h', spread a h = Some (r, h') /\
    arrays h !! r = None /\ preserved h h' /\ contents h' r = Some games.
Proof.
  unfold contents, spread. intros H.
  destruct (arrays h !! a) as [elems|] eqn:E; [|discriminate].
  rewrite bind_run. unfold elements. rewrite E.
  destruct (newArray_run elems h) as (r & h' & Hrun & Hfresh & Hpres & Hr).
  exists r, h'. repeat split; try assumption; try apply Hpres.
  rewrite Hr. destruct Hpres as [-> _]. assumption.
Qed.

Lemma filter_run (test : Game.t -> bool) (h : heap) (a : loc) (games : list Game.t) :
  contents h a = Some games ->
  exists r h', filter test a h = Some (r, h') /\
    arrays h !! r = None /\ preserved h h' /\
    contents h' r = Some (List.filter test games).
Proof.
  unfold contents, filter. intros H.
  destruct (arrays h !! a) as [elems|] eqn:E; [|discriminate].
  rewrite bind_run. unfold elements. rewrite E.
  rewrite bind_run, (objectsOf_run _ _ _ H).
  destruct (zip_denotes _ _ _ H) as [Hden Hsnd].
  set (kept := List.filter (fun e => test (snd e)) (zip elems games)).
  destruct (newArray_run (List.map fst kept) h) as (r & h' & Hrun & Hfresh & Hpres & Hr).
  exists r, h'. repeat split; try assumption; try apply Hpres.
  rewrite Hr. destruct Hpres as [-> _].
  rewrite denotes_contents.
  - unfold kept. now rewrite filter_snd, Hsnd.
  - unfold kept. apply Forall_forall. intros p Hp.
    apply list_elem_of_In, List.filter_In in Hp. destruct Hp as [Hp _].
    rewrite Forall_forall in Hden. apply Hden. now apply list_elem_of_In.
Qed.

Lemma sort_run (compareFn : Game.t -> Game.t -> Q) (h : heap) (a : loc)
    (games : list Game.t) :
  contents h a = Some games ->
  exists h', sort compareFn a h = Some (tt, h') /\
    objects h' = objects h /\
    (forall l, l <> a -> arrays h' !! l = arrays h !! l) /\
    contents h' a = Some (JsArray.sort compareFn games).
Proof.
  unfold contents, sort. intros H.
  destruct (arrays h !! a) as [elems|] eqn:E; [|discriminate].
  rewrite bind_run. unfold elements. rewrite E.
  rewrite bind_run, (objectsOf_run _ _ _ H).
  destruct (zip_denotes _ _ _ H) as [Hden Hsnd].
  unfold setElements. rewrite E. eexists. split; [reflexivity|]. simpl.
  repeat split.
  - intros l Hl. now rewrite lookup_insert_ne.
  - rewrite lookup_insert_eq. rewrite denotes_contents.
    + now rewrite sort_snd, Hsnd.
    + apply Forall_forall. intros p Hp. rewrite Forall_forall in Hden. apply Hden.
      apply list_elem_of_In. apply list_elem_of_In in Hp.
      eapply Permutation_in; [apply sort_perm | exact Hp].
Qed.


Lemma fresh_back (h0 h : heap) (r : loc) :
  preserved h0 h -> arrays h !! r = None -> arrays h0 !! r = None.
Proof.
  intros [_ Ha] Hr. destruct (arrays h0 !! r) as [e|] eqn:E; [|reflexivity].
  apply Ha in E. congruence.
Qed.

Lemma filter_stage (test : Game.t -> bool) (h0 h : heap) (a : loc) (games : list Game.t) :
  preserved h0 h -> contents h a = Some games ->
  exists r h', filter test a h = Some (r, h') /\
    preserved h0 h' /\ arrays h0 !! r = None /\
    contents h' r = Some (List.filter test games).
Proof.
  intros Hp Hc. destruct (filter_run test h a games Hc) as (r & h' & Hrun & Hf & Hp' & Hc').
  exists r, h'. repeat split; try assumption.
  - apply (preserved_trans _ _ _ Hp Hp').
  - apply (preserved_trans _ _ _ Hp Hp').
  - now apply (fresh_back h0 h).
Qed.

Lemma selected_stage {K : Type} (test : K -> Game.t -> bool) (selected : option K)
    (h0 h : heap) (a : loc) (games : list Game.t) :
  preserved h0 h -> arrays h0 !! a = None -> contents h a = Some games ->
  exists r h',
    match selected with Some k => filter (test k) a | None => mret a end h = Some (r, h') /\
    preserved h0 h' /\ arrays h0 !! r = None /\
    contents h' r =
      Some (match selected with Some k => List.filter (test k) games | None => games end).
Proof.
  intros Hp Ha Hc. destruct selected as [k|].
  - now apply filter_stage.
  - exists a, h. repeat split; try assumption; apply Hp.
Qed.

Lemma sort_stage (compareFn : option (Game.t -> Game.t -> Q)) (h0 h : heap) (a : loc)
    (games : list Game.t) :
  preserved h0 h -> arrays h0 !! a = None -> contents h a = Some games ->
  exists h',
    match compareFn with Some c => sort c a | None => mret tt end h = Some (tt, h') /\
    preserved h0 h' /\
    contents h' a =
      Some (match compareFn with Some c => JsArray.sort c games | None => games end).
Proof.
  intros Hp Ha Hc. destruct compareFn as [c|].
  - destruct (sort_run c h a games Hc) as (h' & Hrun & Ho & Hother & Hc').
    exists h'. repeat split; try assumption.
    + rewrite Ho. apply Hp.
    + intros l elems Hl. rewrite Hother; [now apply Hp | congruence].
  - exists h. repeat split; try assumption; apply Hp.
Qed.

Lemma getFilteredGames_run (getTime : string -> Z) (st : Catalog.FilterState)
    (h : heap) (allGames : loc) (games : list Game.t) :
  contents h allGames = Some games ->
  exists r h', getFilteredGames getTime st allGames h = Some (r, h') /\
    arrays h !! r = None /\ preserved h h' /\
    contents h' r = Some (Catalog.getFilteredGames getTime st games).
Proof.
  intros Hc. unfold getFilteredGames.
  destruct (spread_run h allGames games Hc) as (r1 & h1 & Hrun1 & Hf1 & Hp1 & Hc1).
  rewrite bind_run, Hrun1.
  destruct (selected_stage Catalog.genreTest (Catalog.selectedGenre st) h h1 r1 _ Hp1 Hf1 Hc1)
    as (r2 & h2 & Hrun2 & Hp2 & Hf2 & Hc2).
  rewrite bind_run, Hrun2.
  destruct (selected_stage Catalog.platformTest (Catalog.selectedPlatform st) h h2 r2 _ Hp2 Hf2 Hc2)
    as (r3 & h3 & Hrun3 & Hp3 & Hf3 & Hc3).
  rewrite bind_run, Hrun3.
  destruct (filter_stage (Catalog.priceTest (Catalog.minPrice st) (Catalog.maxPrice st))
              h h3 r3 _ Hp3 Hc3) as (r4 & h4 & Hrun4 & Hp4 & Hf4 & Hc4).
  rewrite bind_run, Hrun4.
  destruct (sort_stage (Catalog.comparator getTime (Catalog.sortBy st)) h h4 r4 _ Hp4 Hf4 Hc4)
    as (h5 & Hrun5 & Hp5 & Hc5).
  rewrite bind_run, Hrun5.
  exists r4, h5. repeat split; try assumption; try apply Hp5.
Qed.

(** C9.  Run on a store in which the input array holds the games [games],
    the pipeline returns an array that did not exist before; every game
    object and every array that existed, the input array with its order and
    length among them, is afterwards as it was; the returned array holds the
    pipeline's result for [games]; and a second run on the same input returns
    another new array that holds the same games, the first one being left as
    it was. *)
Theorem pipeline_leaves_input (getTime : string -> Z) (st : Catalog.FilterState)
    (h : Store.heap) (allGames : Store.loc) (games : list Game.t) :
  Store.contents h allGames = Some games ->
  exists r h' r2 h'',
    Store.getFilteredGames getTime st allGames h = Some (r, h') /\
    Store.arrays h !! r = None /\
    Store.objects h' = Store.objects h /\
    (forall l elems, Store.arrays h !! l = Some elems -> Store.arrays h' !! l = Some elems) /\
    Store.arrays h' !! allGames = Store.arrays h !! allGames /\
    Store.contents h' allGames = Some games /\
    Store.contents h' r = Some (Catalog.getFilteredGames getTime st games) /\
    Store.getFilteredGames getTime st allGames h' = Some (r2, h'') /\
    r2 <> r /\
    Store.contents h'' r2 = Store.contents h' r /\
    Store.contents h'' r = Store.contents h' r /\
    Store.arrays h'' !! allGames = Store.arrays h !! allGames.
Proof.
  intros Hc.
  destruct (getFilteredGames_run getTime st h allGames games Hc)
    as (r & h' & Hrun & Hf & Hp & Hr).
  pose proof (preserved_contents _ _ _ _ Hp Hc) as Hc'.
  destruct (getFilteredGames_run getTime st h' allGames games Hc')
    as (r2 & h'' & Hrun2 & Hf2 & Hp2 & Hr2).
  assert (Ha : exists elems, arrays h !! allGames = Some elems).
  { unfold contents in Hc. destruct (arrays h !! allGames); [eauto | discriminate]. }
  destruct Ha as [elems Ha].
  assert (Ha' : arrays h' !! allGames = Some elems) by now apply Hp.
  exists r, h', r2, h''. repeat split; try assumption; try apply Hp.
  - congruence.
  - intros ->. unfold contents in Hr. rewrite Hf2 in Hr. discriminate.
  - congruence.
  - rewrite Hr. now apply (preserved_contents h' h'').
  - rewrite Ha. now apply Hp2.
Qed.

End StoreFacts.

(** ** API client *)

Lemma string_app_assoc (a b c : string) : (a +:+ b) +:+ c = a +:+ (b +:+ c).
Proof.
  induction a as [|ch a IH]; [reflexivity|].
  change (String ch ((a +:+ b) +:+ c) = String ch (a +:+ (b +:+ c))). now rewrite IH.
Qed.

Lemma request_calls env n2s fetch (endpoint : string) (options : option Api.RequestInit) :
  Api.calls (Api.request env n2s fetch endpoint options) =
    [(Api.API_BASE_URL env +:+ endpoint, Api.initOf options)].
Proof. reflexivity. Qed.

Lemma request_logs env n2s fetch (endpoint : string) (options : option Api.RequestInit) :
  Api.logged (Api.request env n2s fetch endpoint options) =
    match Api.result (Api.request env n2s fetch endpoint options) with
    | inl thrown => [thrown]
    | inr _ => []
    end.
Proof. reflexivity. Qed.

Lemma detail_string_truthy (response : Api.Response) (s : string) :
  Api.detail_string response = Some s ->
  exists props, Api.parsed response = Some (Api.JObject props) /\
    Api.lookupProp "detail" props = Some (Api.JString s) /\
    Api.truthy (Some (Api.JString s)) = true.
Proof.
  unfold Api.detail_string.
  destruct (Api.parsed response) as [[| | | | |props]|]; try discriminate.
  destruct (Api.lookupProp "detail" props) as [[| | |d| |]|] eqn:E; try discriminate.
  destruct (String.eqb d "") eqn:Ed; [discriminate|].
  intros [= <-]. exists props. repeat split; auto. simpl. now rewrite Ed.
Qed.

(** C5, as the client does it.  On a response that is not 2xx the call throws
    one exception, the one it logs.  When the body parses to an object whose
    [detail] is a non-empty string, it is an [Error] with exactly that
    message.  When the body does not parse, the message is "Unknown error".
    When the body parses to an object whose [detail] is absent or falsy, the
    message is "HTTP error! status: " followed by the status. *)
Theorem request_error_message (env : option string) (n2s : Q -> string)
    (fetch : string -> Api.RequestInit -> Api.fetched)
    (endpoint : string) (options : option Api.RequestInit) (response : Api.Response) :
  fetch (Api.API_BASE_URL env +:+ endpoint) (Api.initOf options) = Api.Responded response ->
  Api.ok response = false ->
  let r := Api.request env n2s fetch endpoint options in
  (exists thrown, Api.result r = inl thrown /\ Api.logged r = [thrown]) /\
  (forall s, Api.detail_string response = Some s -> Api.result r = inl (Api.Error s)) /\
  (Api.parsed response = None -> Api.result r = inl (Api.Error "Unknown error")) /\
  (forall props, Api.parsed response = Some (Api.JObject props) ->
     Api.truthy (Api.lookupProp "detail" props) = false ->
     Api.result r =
       inl (Api.Error ("HTTP error! status: " +:+ string_of_Z (Api.status response)))).
Proof.
  intros Hfetch Hok r.
  assert (Hres : Api.result r =
    match Api.detailOf (match Api.parsed response with
                        | Some v => v
                        | None => Api.JObject [("detail", Api.JString "Unknown error")]
                        end) with
    | inl thrown => inl thrown
    | inr detail =>
        inl (Api.Error (if Api.truthy detail
                        then match detail with Some v => Api.toString n2s v | None => "" end
                        else "HTTP error! status: " +:+ string_of_Z (Api.status response)))
    end).
  { subst r. unfold Api.request. simpl. rewrite Hfetch, Hok. reflexivity. }
  split; [|split; [|split]].
  - subst r. rewrite request_logs. rewrite Hres.
    destruct (Api.detailOf _); eauto.
  - intros s Hs. destruct (detail_string_truthy _ _ Hs) as (props & Hp & Hl & Ht).
    rewrite Hres, Hp. simpl. rewrite Hl, Ht. reflexivity.
  - intros Hp. rewrite Hres, Hp. reflexivity.
  - intros props Hp Ht. rewrite Hres, Hp. simpl. now rewrite Ht.
Qed.

(** The 404 of the specification: body [{"detail":"Game not found"}]. *)
Lemma request_error_message_witness :
  Api.result
    (Api.request None (fun _ => "")
       (fun _ _ => Api.Responded
          (Api.mkResponse 404 (Some (Api.JObject [("detail", Api.JString "Game not found")]))))
       "/games/7" None)
  = inl (Api.Error "Game not found").
Proof.
  pose proof (request_error_message None (fun _ => "")
    (fun _ _ => Api.Responded
       (Api.mkResponse 404 (Some (Api.JObject [("detail", Api.JString "Game not found")]))))
    "/games/7" None
    (Api.mkResponse 404 (Some (Api.JObject [("detail", Api.JString "Game not found")])))
    eq_refl eq_refl) as (_ & H & _).
  exact (H "Game not found" eq_refl).
Defined.

(** C5 as stated fails: a 500 whose body is not JSON has no [detail], and the
    message is "Unknown error", not one made of the status. *)
Lemma request_unparsable_body :
  let response := Api.mkResponse 500 None in
  Api.ok response = false /\
  Api.detail_string response = None /\
  Api.promised_message response = "HTTP error: 500" /\
  Api.result (Api.request None (fun _ => "") (fun _ _ => Api.Responded response) "/games/" None)
    = inl (Api.Error "Unknown error") /\
  Api.result (Api.request None (fun _ => "") (fun _ _ => Api.Responded response) "/games/" None)
    <> inl (Api.Error (Api.promised_message response)).
Proof.
  repeat split. discriminate.
Qed.

(** C10.  [searchGames] makes one call to [fetch]; its URL is the base path,
    then [/games/search/], then the keyword as it is; the options carry no
    method, so the request is a GET. *)
Theorem searchGames_request (env : option string) (n2s : Q -> string)
    (fetch : string -> Api.RequestInit -> Api.fetched) (keyword : string) :
  exists init,
    Api.calls (Api.searchGames env n2s fetch keyword) =
      [((Api.API_BASE_URL env +:+ "/games/search/") +:+ keyword, init)] /\
    Api.methodOf init = "GET" /\
    Api.body init = None.
Proof.
  exists (Api.initOf None). unfold Api.searchGames.
  rewrite request_calls, string_app_assoc. repeat split.
Qed.

Example searchGames_special_characters :
  Api.calls (Api.searchGames None (fun _ => "") (fun _ _ => Api.Rejected "offline") "a/b?c#d e") =
    [("/api/games/search/a/b?c#d e", Api.initOf None)].
Proof. reflexivity. Qed.

(** ** Profile joins *)

Lemma gameById_None (games : list Game.t) (game_id : Z) :
  Profile.gameById games game_id = None <-> ~ Profile.resolves games game_id.
Proof.
  unfold Profile.gameById, JsArray.find, Profile.resolves. split.
  - intros H (g & Hin & Hid).
    apply (List.find_none _ _ H) in Hin. apply Z.eqb_neq in Hin. contradiction.
  - intros H. destruct (List.find _ games) as [g|] eqn:E; [|reflexivity].
    apply List.find_some in E. destruct E as [Hin Hid]. apply Z.eqb_eq in Hid.
    exfalso. apply H. eauto.
Qed.

Lemma gameById_Some (games : list Game.t) (game_id : Z) (g : Game.t) :
  Profile.gameById games game_id = Some g -> In g games /\ Game.id g = game_id.
Proof.
  unfold Profile.gameById, JsArray.find. intros H.
  apply List.find_some in H. now rewrite Z.eqb_eq in H.
Qed.

Lemma titleOr_unresolved (games : list Game.t) (game_id : Z) :
  ~ Profile.resolves games game_id ->
  Profile.titleOr (Profile.gameById games game_id) game_id = "#" +:+ string_of_Z game_id.
Proof. intros H. apply gameById_None in H. now rewrite H. Qed.

Lemma userGames_app (games : list Game.t) (l1 l2 : list LibraryEntry.t) :
  Profile.userGames games (l1 ++ l2) = Profile.userGames games l1 ++ Profile.userGames games l2.
Proof. unfold Profile.userGames, JsArray.defined. apply omap_app. Qed.

Lemma userGames_drops (games : list Game.t) (l1 l2 : list LibraryEntry.t)
    (lib : LibraryEntry.t) :
  ~ Profile.resolves games (LibraryEntry.game_id lib) ->
  Profile.userGames games (l1 ++ lib :: l2) = Profile.userGames games (l1 ++ l2).
Proof.
  intros H. apply gameById_None in H.
  rewrite !userGames_app. f_equal.
  unfold Profile.userGames, JsArray.defined. simpl. now rewrite H.
Qed.

Lemma userGames_catalog (games : list Game.t) (library : list LibraryEntry.t) (g : Game.t) :
  In g (Profile.userGames games library) ->
  In g games /\ exists lib, In lib library /\ LibraryEntry.game_id lib = Game.id g.
Proof.
  unfold Profile.userGames, JsArray.defined. intros H.
  apply list_elem_of_In, list_elem_of_omap in H. destruct H as (lib & Hlib & Hg).
  apply gameById_Some in Hg. destruct Hg as [Hin Hid].
  split; [assumption|]. exists lib. split; [now apply list_elem_of_In | congruence].
Qed.

(** C6, as the profile does it.  Every order and every review of the user
    keeps its row; a row whose game is not in the catalog is labelled
    [#<game_id>].  A library entry whose game is not in the catalog gets no
    row: the library shows catalog games only. *)
Theorem profile_unresolved (user : User.t) (games : list Game.t)
    (data : list Order.t) (library : list LibraryEntry.t) (allReviews : list Review.t)
    (st : Profile.state) :
  let st' := Profile.loadData (Some user) (inr games) (fun _ => inr data)
               (fun _ => inr library) (inr allReviews) st in
  let mine := List.filter (fun review => Review.user_id review =? User.id user) allReviews in
  (length (Profile.orderLabels st') = length data /\
   forall i order, data !! i = Some order ->
     ~ Profile.resolves games (Order.game_id order) ->
     Profile.orderLabels st' !! i = Some ("#" +:+ string_of_Z (Order.game_id order))) /\
  (length (Profile.reviewLabels st') = length mine /\
   forall i review, mine !! i = Some review ->
     ~ Profile.resolves games (Review.game_id review) ->
     Profile.reviewLabels st' !! i = Some ("#" +:+ string_of_Z (Review.game_id review))) /\
  (forall l1 lib l2, library = l1 ++ lib :: l2 ->
     ~ Profile.resolves games (LibraryEntry.game_id lib) ->
     Profile.libraryGames st' = Profile.userGames games (l1 ++ l2)) /\
  (forall g, In g (Profile.libraryGames st') -> In g games).
Proof.
  intros st' mine. subst st' mine. simpl.
  unfold Profile.orderLabels, Profile.reviewLabels. simpl.
  split; [|split; [|split]].
  - split.
    + unfold Profile.ordersWithGames. now rewrite !length_map.
    + intros i order Hi Hun. unfold Profile.ordersWithGames.
      rewrite List.map_map. change (List.map ?f ?l) with (f <$> l).
      rewrite list_lookup_fmap, Hi. simpl. now rewrite titleOr_unresolved.
  - split.
    + now rewrite length_map.
    + intros i review Hi Hun. change (List.map ?f ?l) with (f <$> l).
      rewrite list_lookup_fmap, Hi. simpl. now rewrite titleOr_unresolved.
  - intros l1 lib l2 -> Hun. now apply userGames_drops.
  - intros g Hg. now apply userGames_catalog in Hg.
Qed.

(** The order of the specification: [game_id = 999], absent from the catalog. *)
Lemma profile_unresolved_witness :
  Profile.orderLabels
    (Profile.loadData (Some (User.mk 1 "ann" "ann@example.org"))
       (inr [Game.mk 1 "Portal" "" (999 # 100) (45 # 10) "2007-10-10" 2 1])
       (fun _ => inr [Order.mk 5 1 999 (1999 # 100) "2024-01-05"])
       (fun _ => inr []) (inr []) Profile.initial) !! 0%nat
  = Some "#999".
Proof.
  refine (proj2 (proj1 (profile_unresolved (User.mk 1 "ann" "ann@example.org")
    [Game.mk 1 "Portal" "" (999 # 100) (45 # 10) "2007-10-10" 2 1]
    [Order.mk 5 1 999 (1999 # 100) "2024-01-05"] [] [] Profile.initial))
    0%nat (Order.mk 5 1 999 (1999 # 100) "2024-01-05") eq_refl _).
  intros (g & [<-|[]] & Hid). discriminate Hid.
Defined.

(** C6 as stated fails for the library: an entry for game 999, absent from
    the catalog, leaves the library without any row. *)
Lemma profile_library_entry_dropped :
  let games := [Game.mk 1 "Portal" "" (999 # 100) (45 # 10) "2007-10-10" 2 1] in
  let st' := Profile.loadData (Some (User.mk 1 "ann" "ann@example.org")) (inr games)
               (fun _ => inr []) (fun _ => inr [LibraryEntry.mk 1 999]) (inr [])
               Profile.initial in
  ~ Profile.resolves games 999 /\
  Profile.libraryGames st' = [] /\
  Profile.libraryLabels st' = [] /\
  ~ In "#999" (Profile.libraryLabels st').
Proof.
  repeat split.
  - intros (g & [<-|[]] & Hid). discriminate Hid.
  - intros [].
Qed.

(** ** Home: top-rated games *)

Lemma rated_iff (g : Game.t) : Home.rated g = true <-> (0 < Game.rating g)%Q.
Proof.
  unfold Home.rated. rewrite (Qgt_alt (Game.rating g) 0).
  destruct (Game.rating g ?= 0)%Q; split; congruence.
Qed.

Lemma rated_not_unrated (g : Game.t) :
  (0 <= Game.rating g)%Q -> negb (Home.unrated g) = Home.rated g.
Proof.
  intros Hnn. unfold Home.unrated.
  destruct (Home.rated g) eqn:Er.
  - apply rated_iff in Er. destruct (Qeq_bool (Game.rating g) 0) eqn:E; [|reflexivity].
    apply Qeq_bool_iff in E. rewrite E in Er. now apply Qlt_irrefl in Er.
  - destruct (Qeq_bool (Game.rating g) 0) eqn:E; [reflexivity|].
    exfalso. destruct (Qle_lt_or_eq _ _ Hnn) as [Hlt|Heq].
    + apply rated_iff in Hlt. congruence.
    + symmetry in Heq. apply Qeq_bool_iff in Heq. congruence.
Qed.

Lemma filter_none {A : Type} (p : A -> bool) (l : list A) :
  Forall (fun a => p a = false) l -> List.filter p l = [].
Proof.
  induction 1 as [|a l Ha _ IH]; simpl; [reflexivity|]. now rewrite Ha.
Qed.

(** In a list ordered by rating descending the rated games come first. *)
Lemma rated_prefix (n : nat) (l : list Game.t) :
  StronglySorted (JsArray.keyLe (fun g => (- Game.rating g)%Q)) l ->
  List.filter Home.rated (take n l) = take n (List.filter Home.rated l).
Proof.
  revert n. induction l as [|g l IH]; intros n Hs.
  - now destruct n.
  - inversion Hs as [|? ? Hl Hg]; subst. destruct n as [|n]; [reflexivity|].
    simpl. destruct (Home.rated g) eqn:Er; simpl.
    + now rewrite IH.
    + assert (Hnone : Forall (fun a => Home.rated a = false) l).
      { eapply Forall_impl; [exact Hg|]. intros a Ha. simpl in Ha.
        unfold JsArray.keyLe in Ha. apply Qopp_le_cancel in Ha.
        destruct (Home.rated a) eqn:Ea; [|reflexivity].
        apply rated_iff in Ea.
        assert (Hg0 : (0 < Game.rating g)%Q) by (eapply Qlt_le_trans; eauto).
        apply rated_iff in Hg0. congruence. }
      rewrite (filter_none _ l Hnone), (filter_none _ (take n l)).
      * now destruct n.
      * now apply Forall_take.
Qed.

Lemma topRated_rated_first (n : nat) (games : list Game.t) :
  Home.topRated n games = take n (JsArray.sort Home.byRating (List.filter Home.rated games)).
Proof.
  unfold Home.topRated, JsArray.slice0.
  rewrite rated_prefix by (apply sort_sorted, byRating_key).
  now rewrite (filter_sort Home.byRating _ byRating_key).
Qed.

(** What the code's sort by rating gives on the games that are not unrated:
    it is the ordered rest of the specification. *)
Lemma topRated_ordered (n : nat) (games : list Game.t) :
  Forall (fun g => (0 <= Game.rating g)%Q) games ->
  Home.topRated_spec n games (Home.topRated n games).
Proof.
  intros Hnn. unfold Home.topRated_spec.
  assert (Hrest : List.filter (fun g => negb (Home.unrated g)) games =
                  List.filter Home.rated games).
  { apply List.filter_ext_in. intros g Hg. apply rated_not_unrated.
    rewrite Forall_forall in Hnn. apply Hnn. now apply list_elem_of_In. }
  rewrite Hrest.
  destruct (sort_by_key Home.byRating _ (List.filter Home.rated games) byRating_key)
    as (Hs & Hp & Hst).
  exists (JsArray.sort Home.byRating (List.filter Home.rated games)).
  split; [exact Hp|]. split; [|split].
  - eapply StronglySorted_weaken; [|exact Hs].
    intros a b Hab. now apply Qopp_le_cancel.
  - intros r. specialize (Hst (- r)%Q).
    eapply filter_same_as; [|exact Hst].
    intros g; unfold Catalog.ratedAt, JsArray.hasKey; now rewrite Qeq_bool_opp.
  - apply topRated_rated_first.
Qed.

(** C8.  On both pages ([n = 6] and [n = 3]): when no rating is negative, the
    top-rated list is the list obtained by leaving out the games of rating 0,
    ordering the rest by rating descending (no game before one of higher
    rating, games of equal rating in catalog order) and taking the first
    [n]; no game of rating 0 is ever in the list; and when at least [n] games
    have a positive rating the list has exactly [n] entries. *)
Theorem topRated_lists (games : list Game.t) :
  (Forall (fun g => (0 <= Game.rating g)%Q) games ->
   Home.topRated_spec 6 games (Home.Positional.topRatedGames games) /\
   Home.topRated_spec 3 games (Home.Aggregated.topRatedGames games)) /\
  Forall (fun g => ~ (Game.rating g == 0)%Q) (Home.Positional.topRatedGames games) /\
  Forall (fun g => ~ (Game.rating g == 0)%Q) (Home.Aggregated.topRatedGames games) /\
  ((6 <= length (List.filter Home.rated games))%nat ->
   length (Home.Positional.topRatedGames games) = 6%nat) /\
  ((3 <= length (List.filter Home.rated games))%nat ->
   length (Home.Aggregated.topRatedGames games) = 3%nat).
Proof.
  unfold Home.Positional.topRatedGames, Home.Aggregated.topRatedGames.
  assert (Hpos : forall n, Forall (fun g => ~ (Game.rating g == 0)%Q) (Home.topRated n games)).
  { intros n. apply Forall_forall. intros g Hg. apply list_elem_of_In in Hg.
    unfold Home.topRated in Hg. apply List.filter_In in Hg. destruct Hg as [_ Hg].
    apply rated_iff in Hg. intros E. rewrite E in Hg. now apply Qlt_irrefl in Hg. }
  assert (Hlen : forall n, (n <= length (List.filter Home.rated games))%nat ->
            length (Home.topRated n games) = n).
  { intros n Hn. rewrite topRated_rated_first, length_take, sort_length. lia. }
  split; [|repeat split; auto].
  intros Hnn. split; now apply topRated_ordered.
Qed.

(** Three games, the second one unrated: the list is the third game, then
    the first. *)
Lemma topRated_lists_witness :
  let a := Game.mk 1 "A" "" (10 # 1) (45 # 10) "2020-01-01" 1 1 in
  let b := Game.mk 2 "B" "" (20 # 1) 0 "2021-01-01" 1 1 in
  let c := Game.mk 3 "C" "" (30 # 1) (48 # 10) "2022-01-01" 1 1 in
  Home.topRated_spec 3 [a; b; c] (Home.Aggregated.topRatedGames [a; b; c]) /\
  Home.Aggregated.topRatedGames [a; b; c] = [c; a].
Proof.
  intros a b c. split; [|reflexivity].
  refine (proj2 (proj1 (topRated_lists [a; b; c]) _)).
  repeat constructor; simpl; discriminate.
Defined.

(** ** Home: most purchased games *)

Lemma lookup_putIndexed_eq (k v : Z) (l : list (Z * Z)) :
  JsRecord.lookup k (JsRecord.putIndexed k v l) = Some v.
Proof.
  induction l as [|[k' v'] l IH]; simpl.
  - now rewrite Z.eqb_refl.
  - destruct (Z.ltb_spec k k'); simpl; [now rewrite Z.eqb_refl|].
    destruct (Z.eqb_spec k k') as [->|Hne]; simpl.
    + now rewrite Z.eqb_refl.
    + destruct (Z.eqb_spec k k'); [contradiction | assumption].
Qed.

Lemma lookup_putIndexed_ne (j k v : Z) (l : list (Z * Z)) :
  j <> k -> JsRecord.lookup j (JsRecord.putIndexed k v l) = JsRecord.lookup j l.
Proof.
  intros Hne. induction l as [|[k' v'] l IH]; simpl.
  - destruct (Z.eqb_spec j k); [contradiction | reflexivity].
  - destruct (Z.ltb_spec k k'); simpl.
    + destruct (Z.eqb_spec j k); [contradiction | reflexivity].
    + destruct (Z.eqb_spec k k') as [->|Hkk']; simpl.
      * destruct (Z.eqb_spec j k'); [contradiction | reflexivity].
      * now rewrite IH.
Qed.

Lemma In_putIndexed (k v : Z) (l : list (Z * Z)) (p : Z * Z) :
  In p (JsRecord.putIndexed k v l) -> p = (k, v) \/ In p l.
Proof.
  induction l as [|[k' v'] l IH]; simpl.
  - intros [<-|[]]. now left.
  - destruct (Z.ltb_spec k k'); simpl; [intros [<-|H']; auto|].
    destruct (Z.eqb_spec k k'); simpl; [intros [<-|H']; auto|].
    intros [H'|H']; [auto|]. apply IH in H'. tauto.
Qed.

Lemma putIndexed_sorted (k v : Z) (l : list (Z * Z)) :
  StronglySorted Home.keyLt l -> StronglySorted Home.keyLt (JsRecord.putIndexed k v l).
Proof.
  induction l as [|[k' v'] l IH]; intros Hs; simpl.
  - repeat constructor.
  - inversion Hs as [|? ? Hl Hk']; subst.
    destruct (Z.ltb_spec k k').
    + constructor; [assumption|]. constructor; [exact H|].
      eapply Forall_impl; [exact Hk'|]. unfold Home.keyLt. simpl. intros; lia.
    + destruct (Z.eqb_spec k k') as [->|Hne].
      * constructor; assumption.
      * constructor; [now apply IH|].
        apply Forall_forall. intros p Hp. apply list_elem_of_In, In_putIndexed in Hp.
        destruct Hp as [->|Hp].
        -- unfold Home.keyLt. simpl. lia.
        -- rewrite Forall_forall in Hk'. now apply Hk', list_elem_of_In.
Qed.

Lemma lookup_In (k v : Z) (l : list (Z * Z)) :
  StronglySorted Home.keyLt l ->
  (JsRecord.lookup k l = Some v <-> In (k, v) l).
Proof.
  induction l as [|[k' v'] l IH]; intros Hs; simpl.
  - split; [discriminate | tauto].
  - inversion Hs as [|? ? Hl Hk']; subst.
    destruct (Z.eqb_spec k k') as [->|Hne].
    + split.
      * intros [= ->]. now left.
      * intros [[= ->]|Hin]; [reflexivity|].
        rewrite Forall_forall in Hk'. apply list_elem_of_In, Hk' in Hin.
        unfold Home.keyLt in Hin. simpl in Hin. lia.
    + rewrite (IH Hl). split; [tauto|]. intros [[= -> ->]|Hin]; [contradiction | assumption].
Qed.

Lemma purchases_snoc (orders : list Order.t) (o : Order.t) (k : Z) :
  Home.purchases (orders ++ [o]) k =
  Home.purchases orders k + (if Order.game_id o =? k then 1 else 0).
Proof.
  unfold Home.purchases. rewrite List.filter_app, length_app. simpl.
  destruct (Order.game_id o =? k); simpl; lia.
Qed.

Lemma purchases_nonneg (orders : list Order.t) (k : Z) : 0 <= Home.purchases orders k.
Proof. unfold Home.purchases. lia. Qed.

Lemma tally_snoc (orders : list Order.t) (o : Order.t) :
  Home.tally (orders ++ [o]) = Home.bump (Home.tally orders) (Order.game_id o).
Proof. unfold Home.tally. now rewrite fold_left_app. Qed.

(** The tally of orders whose ids are array indices: no other property, the
    keys ascending, each game with its number of purchases. *)
Lemma tally_counts (orders : list Order.t) :
  Forall (fun o => JsRecord.isIndex (Order.game_id o) = true) orders ->
  JsRecord.named (Home.tally orders) = [] /\
  StronglySorted Home.keyLt (JsRecord.indexed (Home.tally orders)) /\
  forall k, JsRecord.lookup k (JsRecord.indexed (Home.tally orders)) =
            if Home.purchases orders k =? 0 then None else Some (Home.purchases orders k).
Proof.
  induction orders as [|o orders IH] using rev_ind; intros Hidx.
  - repeat split; constructor.
  - apply Forall_app in Hidx. destruct Hidx as [Hidx Ho].
    inversion Ho as [|? ? Hio _]; subst.
    destruct (IH Hidx) as (Hn & Hs & Hl).
    rewrite tally_snoc. unfold Home.bump, JsRecord.set, JsRecord.get. rewrite Hio. simpl.
    split; [assumption|]. split; [now apply putIndexed_sorted|].
    intros k. rewrite purchases_snoc.
    pose proof (purchases_nonneg orders k) as Hk.
    destruct (Z.eqb_spec (Order.game_id o) k) as [->|Hne].
    + rewrite lookup_putIndexed_eq, Hl.
      destruct (Z.eqb_spec (Home.purchases orders k + 1) 0); [lia|].
      destruct (Z.eqb_spec (Home.purchases orders k) 0) as [->|Hz]; [reflexivity|].
      destruct (Z.eqb_spec (Home.purchases orders k) 0); [contradiction | reflexivity].
    + rewrite lookup_putIndexed_ne by congruence. rewrite Hl, Z.add_0_r. reflexivity.
Qed.

Lemma entries_counts (orders : list Order.t) :
  Forall (fun o => JsRecord.isIndex (Order.game_id o) = true) orders ->
  StronglySorted Home.keyLt (JsRecord.entries (Home.tally orders)) /\
  forall k v, In (k, v) (JsRecord.entries (Home.tally orders)) <->
              v = Home.purchases orders k /\ 0 < v.
Proof.
  intros Hidx. destruct (tally_counts orders Hidx) as (Hn & Hs & Hl).
  unfold JsRecord.entries. rewrite Hn, app_nil_r. split; [assumption|].
  intros k v. rewrite <- (lookup_In k v _ Hs), Hl.
  pose proof (purchases_nonneg orders k).
  destruct (Z.eqb_spec (Home.purchases orders k) 0); split.
  - discriminate.
  - intros [-> ?]. lia.
  - intros [= <-]. split; [reflexivity | lia].
  - intros [-> _]. reflexivity.
Qed.

Lemma byCount_key (x y : Z * Z) :
  JsArray.after Home.byCount x y = true <-> (Home.countKey y < Home.countKey x)%Q.
Proof.
  apply (after_difference _ Home.countKey). intros a b.
  unfold Home.byCount, Home.countKey.
  unfold Z.sub. rewrite inject_Z_plus, !inject_Z_opp. ring.
Qed.

Lemma StronglySorted_among {A : Type} (R S : A -> A -> Prop) (l : list A) :
  (forall a b, In a l -> In b l -> R a b -> S a b) ->
  StronglySorted R l -> StronglySorted S l.
Proof.
  intros H Hs. induction Hs as [|x l Hl IH Hx]; constructor.
  - apply IH. intros a b Ha Hb. apply H; now right.
  - apply Forall_forall. intros b Hb. rewrite Forall_forall in Hx.
    apply H; [now left | right; now apply list_elem_of_In | now apply Hx].
Qed.

(** The entries sorted by count: every game with its purchases, a game
    before another when it ranks before it. *)
Lemma ranking (orders : list Order.t) :
  Forall (fun o => JsRecord.isIndex (Order.game_id o) = true) orders ->
  let ranked := JsArray.sort Home.byCount (JsRecord.entries (Home.tally orders)) in
  (forall k v, In (k, v) ranked <-> v = Home.purchases orders k /\ 0 < v) /\
  StronglySorted (fun x y => Home.ranksBefore orders (fst x) (fst y)) ranked.
Proof.
  intros Hidx ranked. destruct (entries_counts orders Hidx) as [Hs Hin].
  assert (Hin' : forall k v, In (k, v) ranked <-> v = Home.purchases orders k /\ 0 < v).
  { intros k v. unfold ranked. now rewrite sort_In. }
  split; [exact Hin'|].
  apply (StronglySorted_among (JsArray.keyThen Home.countKey Home.keyLt)).
  - intros [a va] [b vb] Ha Hb. apply Hin' in Ha. apply Hin' in Hb.
    destruct Ha as [-> _], Hb as [-> _].
    unfold JsArray.keyThen, Home.countKey, Home.keyLt, Home.ranksBefore. simpl.
    rewrite <- Zlt_Qlt. intros [Hlt|[Heq Hab]].
    + left. lia.
    + right. unfold Qeq in Heq. simpl in Heq. split; [lia | assumption].
  - apply (sort_keyThen _ _ byCount_key). exact Hs.
Qed.

Lemma resolved_catalog (games : list Game.t) (ids : list Z) (g : Game.t) :
  In g (Home.resolved games ids) -> In g games /\ In (Game.id g) ids.
Proof.
  unfold Home.resolved, JsArray.defined, JsArray.find. intros H.
  apply list_elem_of_In, list_elem_of_omap in H. destruct H as (id & Hid & Hg).
  apply List.find_some in Hg. destruct Hg as [Hin Heq]. apply Z.eqb_eq in Heq.
  split; [assumption|]. rewrite Heq. now apply list_elem_of_In.
Qed.

Lemma find_first {A : Type} (p : A -> bool) (l : list A) (x : A) :
  List.find p l = Some x ->
  exists before after,
    l = before ++ x :: after /\ p x = true /\ Forall (fun y => p y = false) before.
Proof.
  induction l as [|y l IH]; simpl; [discriminate|].
  destruct (p y) eqn:Ey.
  - intros [= ->]. exists [], l. repeat split; [assumption | constructor].
  - intros H. destruct (IH H) as (before & after & -> & Hx & Hb).
    exists (y :: before), after. repeat split; [assumption | now constructor].
Qed.

Lemma find_existsb {A : Type} (p : A -> bool) (l : list A) :
  existsb p l = match List.find p l with Some _ => true | None => false end.
Proof.
  induction l as [|y l IH]; simpl; [reflexivity|].
  destruct (p y); [reflexivity | exact IH].
Qed.

(** The resolving step finds, for each picked id of the catalog and in the
    order of the ids, the first game of that id. *)
Lemma resolved_first (games : list Game.t) (ids : list Z) :
  Forall2 (Featured.firstWithId games) (List.filter (Joined.inCatalog games) ids)
          (Home.resolved games ids).
Proof.
  unfold Home.resolved, JsArray.defined, JsArray.find, Joined.inCatalog.
  induction ids as [|id ids IH]; [constructor|].
  cbn [List.filter omap list_omap]. rewrite find_existsb.
  destruct (List.find (fun g => Game.id g =? id) games) as [g|] eqn:E; [|exact IH].
  constructor; [|exact IH].
  destruct (find_first _ _ _ E) as (before & after & Hl & Hg & Hb).
  exists before, after. split; [assumption|]. split; [now apply Z.eqb_eq|].
  eapply Forall_impl; [exact Hb|]. intros h Hh. now apply Z.eqb_neq.
Qed.

Lemma notIn_remaining (games featuredGames : list Game.t) :
  List.filter (Home.notIn featuredGames) games = Featured.remaining games featuredGames.
Proof.
  unfold Featured.remaining. apply List.filter_ext. intros g.
  unfold Home.notIn, JsArray.find, Joined.inCatalog. rewrite find_existsb.
  now destruct (List.find _ featuredGames).
Qed.

Lemma firstWithId_find (games : list Game.t) (id : Z) (g : Game.t) :
  Featured.firstWithId games id g ->
  JsArray.find (fun h => Game.id h =? id) games = Some g.
Proof.
  intros (before & after & -> & Hid & Hb). unfold JsArray.find.
  induction Hb as [|h before Hh _ IH]; simpl.
  - apply Z.eqb_eq in Hid. now rewrite Hid.
  - apply Z.eqb_neq in Hh. now rewrite Hh.
Qed.

(** The orders of the specification: two for game 1, then one for game 2. *)
Lemma orders_one_one_two (games : list Game.t) (o1 o2 o3 : Order.t) (g1 g2 : Game.t) :
  Order.game_id o1 = 1 -> Order.game_id o2 = 1 -> Order.game_id o3 = 2 ->
  JsArray.find (fun g => Game.id g =? 1) games = Some g1 ->
  JsArray.find (fun g => Game.id g =? 2) games = Some g2 ->
  Home.getMostPurchasedGames games (inr [o1; o2; o3]) =
    g1 :: g2 :: take 1 (List.filter (Home.notIn [g1; g2]) games).
Proof.
  intros H1 H2 H3 Hg1 Hg2.
  assert (Hids : Home.sortedGameIds [o1; o2; o3] = [1; 2]).
  { unfold Home.sortedGameIds, Home.tally. simpl. rewrite H1, H2, H3. reflexivity. }
  unfold Home.getMostPurchasedGames. rewrite Hids.
  unfold Home.resolved, JsArray.defined. simpl. rewrite Hg1, Hg2. reflexivity.
Qed.

(** C7, as the page does it.  For orders whose game ids are array indices:
    the ids picked are at most 3, all purchased, in descending order of their
    purchase counts with equal counts in ascending order of the id, and every
    purchased id that is not picked ranks after all 3 picked ones.  The
    featured list is the picked ids that are in the catalog, in that order
    and each as the first catalog game of that id, followed, when these are
    fewer than 3, by the first catalog games not among them, up to 3 games
    in all.  In particular, for two orders of game 1 followed by one of
    game 2 the list is game 1, game 2, and the first other game of the
    catalog.  When the orders cannot be fetched the list is the first 3
    games. *)
Theorem most_purchased (games : list Game.t) (orders : list Order.t) :
  Forall (fun o => JsRecord.isIndex (Order.game_id o) = true) orders ->
  let ids := Home.sortedGameIds orders in
  ((length ids <= 3)%nat /\
   StronglySorted (Home.ranksBefore orders) ids /\
   (forall id, In id ids -> 0 < Home.purchases orders id) /\
   (forall id, 0 < Home.purchases orders id -> ~ In id ids ->
      length ids = 3%nat /\ Forall (fun a => Home.ranksBefore orders a id) ids)) /\
  Featured.spec games ids (Home.getMostPurchasedGames games (inr orders)) /\
  (forall g1 g2, List.map Order.game_id orders = [1; 1; 2] ->
     Featured.firstWithId games 1 g1 -> Featured.firstWithId games 2 g2 ->
     Home.getMostPurchasedGames games (inr orders) =
       g1 :: g2 :: take 1 (Featured.remaining games [g1; g2])) /\
  (forall e, Home.getMostPurchasedGames games (inl e) = take 3 games).
Proof.
  intros Hidx ids.
  destruct (ranking orders Hidx) as [Hin Hs].
  set (ranked := JsArray.sort Home.byCount (JsRecord.entries (Home.tally orders))) in *.
  assert (Hids : ids = List.map fst (take 3 ranked)) by reflexivity.
  rewrite <- (take_drop 3 ranked) in Hs.
  split; [|split; [|split]].
  - split; [|split; [|split]].
    + rewrite Hids, length_map, length_take. lia.
    + rewrite Hids. apply StronglySorted_app_1_l in Hs.
      apply (StronglySorted_fmap fst _ _ _ (fun x y H => H) Hs).
    + intros id Hid. rewrite Hids in Hid. apply List.in_map_iff in Hid.
      destruct Hid as ([k v] & <- & Hp). simpl.
      assert (Hr : In (k, v) ranked).
      { apply list_elem_of_In. apply (subseteq_take 3 ranked). now apply list_elem_of_In. }
      apply Hin in Hr. destruct Hr as [-> Hv]. exact Hv.
    + intros id Hpos Hout.
      assert (Hr : In (id, Home.purchases orders id) ranked) by (apply Hin; auto).
      rewrite <- (take_drop 3 ranked) in Hr. apply in_app_or in Hr.
      destruct Hr as [Hr|Hr].
      { exfalso. apply Hout. rewrite Hids. apply List.in_map_iff.
        exists (id, Home.purchases orders id). auto. }
      split.
      * rewrite Hids, length_map, length_take.
        assert (Hlen : (3 < length ranked)%nat).
        { destruct (Nat.lt_ge_cases 3 (length ranked)) as [|Hle]; [assumption|].
          rewrite drop_ge in Hr by exact Hle. destruct Hr. }
        lia.
      * rewrite Hids. apply Forall_forall. intros a Ha.
        apply list_elem_of_In, List.in_map_iff in Ha. destruct Ha as (p & <- & Hp).
        apply (StronglySorted_app_1_elem_of _ _ _ p (id, Home.purchases orders id) Hs);
          now apply list_elem_of_In.
  - exists (Home.resolved games ids). split; [apply resolved_first|].
    unfold Home.getMostPurchasedGames. fold ids.
    unfold JsArray.slice0. rewrite notIn_remaining.
    destruct (Nat.ltb_spec (length (Home.resolved games ids)) 3) as [Hlt|Hge]; [reflexivity|].
    replace (3 - length (Home.resolved games ids))%nat with 0%nat by lia.
    now rewrite take_0, app_nil_r.
  - intros g1 g2 Hmap H1 H2.
    destruct orders as [|o1 [|o2 [|o3 [|o4 rest]]]]; try discriminate Hmap.
    injection Hmap as E1 E2 E3.
    rewrite <- notIn_remaining.
    apply orders_one_one_two; auto using firstWithId_find.
  - reflexivity.
Qed.

(** The orders of the specification, [1; 1; 2], on a catalog of three games
    that lists the games in the order 3, 2, 1. *)
Lemma most_purchased_witness :
  let g1 := Game.mk 1 "A" "" (10 # 1) (45 # 10) "2020-01-01" 1 1 in
  let g2 := Game.mk 2 "B" "" (20 # 1) 0 "2021-01-01" 1 1 in
  let g3 := Game.mk 3 "C" "" (30 # 1) (48 # 10) "2022-01-01" 1 1 in
  let orders := [Order.mk 1 7 1 (10 # 1) "2024-01-01"; Order.mk 2 8 1 (10 # 1) "2024-01-02";
                 Order.mk 3 7 2 (20 # 1) "2024-01-03"] in
  Featured.spec [g3; g2; g1] (Home.sortedGameIds orders)
    (Home.getMostPurchasedGames [g3; g2; g1] (inr orders)) /\
  Home.sortedGameIds orders = [1; 2] /\
  Home.getMostPurchasedGames [g3; g2; g1] (inr orders) = [g1; g2; g3].
Proof.
  intros g1 g2 g3 orders. split; [|split; reflexivity].
  refine (proj1 (proj2 (most_purchased [g3; g2; g1] orders _))).
  repeat constructor.
Defined.

(** C7 as stated fails on ties: game 2 is ordered first, game 1 after it,
    once each, and game 1 comes out before game 2. *)
Lemma most_purchased_tie :
  let g1 := Game.mk 1 "A" "" (10 # 1) (45 # 10) "2020-01-01" 1 1 in
  let g2 := Game.mk 2 "B" "" (20 # 1) 0 "2021-01-01" 1 1 in
  let g3 := Game.mk 3 "C" "" (30 # 1) (48 # 10) "2022-01-01" 1 1 in
  let orders := [Order.mk 1 7 2 (20 # 1) "2024-01-01"; Order.mk 2 8 1 (10 # 1) "2024-01-02"] in
  Home.purchases orders 1 = Home.purchases orders 2 /\
  (Home.firstOrder orders 2 < Home.firstOrder orders 1)%nat /\
  Home.getMostPurchasedGames [g2; g1; g3] (inr orders) = [g1; g2; g3].
Proof.
  repeat split. simpl. lia.
Qed.

(** ** The properties on a sample catalog *)

Lemma pipeline_filters_witness :
  incl
    (Catalog.getFilteredGames IsoDate.getTime
       (Catalog.mkFilterState (Some 1) None (15 # 1) (40 # 1) "price-desc")
       [Game.mk 1 "A" "" (10 # 1) (45 # 10) "2020-01-01" 1 1;
        Game.mk 2 "B" "" (20 # 1) 0 "2021-01-01" 1 2;
        Game.mk 3 "C" "" (30 # 1) (48 # 10) "2022-01-01" 1 1])
    (Catalog.getFilteredGames IsoDate.getTime
       (Catalog.withPrices 0 (10000 # 1)
          (Catalog.mkFilterState (Some 1) None (15 # 1) (40 # 1) "price-desc"))
       [Game.mk 1 "A" "" (10 # 1) (45 # 10) "2020-01-01" 1 1;
        Game.mk 2 "B" "" (20 # 1) 0 "2021-01-01" 1 2;
        Game.mk 3 "C" "" (30 # 1) (48 # 10) "2022-01-01" 1 1]).
Proof.
  refine (proj2 (proj2 (proj2 (proj2 (pipeline_filters _ _ _)))) 0%Q (10000 # 1) _ _);
    unfold Qle; simpl; lia.
Defined.

Lemma pipeline_sorts_witness :
  StronglySorted (Catalog.newestFirst IsoDate.getTime)
    (Catalog.getFilteredGames IsoDate.getTime
       (Catalog.mkFilterState None None 0 (10000 # 1) "newest")
       [Game.mk 1 "A" "" (10 # 1) (45 # 10) "2020-01-01" 1 1;
        Game.mk 2 "B" "" (20 # 1) 0 "2022-01-01" 1 2;
        Game.mk 3 "C" "" (30 # 1) (48 # 10) "2021-06-15" 1 1]).
Proof.
  refine (proj1 (proj1 (proj2 (pipeline_sorts IsoDate.getTime
    (Catalog.mkFilterState None None 0 (10000 # 1) "newest") _)) eq_refl)).
Defined.

Lemma pipeline_leaves_input_witness :
  let games :=
    [Game.mk 1 "A" "" (10 # 1) (45 # 10) "2020-01-01" 1 1;
     Game.mk 2 "B" "" (20 # 1) 0 "2022-01-01" 1 2] in
  let h := Store.mkHeap
             (<[1%positive := Game.mk 1 "A" "" (10 # 1) (45 # 10) "2020-01-01" 1 1]>
                (<[2%positive := Game.mk 2 "B" "" (20 # 1) 0 "2022-01-01" 1 2]> ∅))
             (<[7%positive := [1%positive; 2%positive]]> ∅) in
  let st := Catalog.mkFilterState None None 0 (10000 # 1) "price-desc" in
  exists r h' r2 h'',
    Store.getFilteredGames IsoDate.getTime st 7%positive h = Some (r, h') /\
    Store.arrays h !! r = None /\
    Store.objects h' = Store.objects h /\
    (forall l elems, Store.arrays h !! l = Some elems -> Store.arrays h' !! l = Some elems) /\
    Store.arrays h' !! 7%positive = Store.arrays h !! 7%positive /\
    Store.contents h' 7%positive = Some games /\
    Store.contents h' r = Some (Catalog.getFilteredGames IsoDate.getTime st games) /\
    Store.getFilteredGames IsoDate.getTime st 7%positive h' = Some (r2, h'') /\
    r2 <> r /\
    Store.contents h'' r2 = Store.contents h' r /\
    Store.contents h'' r = Store.contents h' r /\
    Store.arrays h'' !! 7%positive = Store.arrays h !! 7%positive.
Proof.
  intros games h st. apply (pipeline_leaves_input IsoDate.getTime st h 7%positive games).
  reflexivity.
Defined.

Example getFilteredGames_sample :
  List.map Game.id
    (Catalog.getFilteredGames IsoDate.getTime
       (Catalog.mkFilterState (Some 1) None (15 # 1) (40 # 1) "price-desc")
       [Game.mk 1 "A" "" (10 # 1) (45 # 10) "2020-01-01" 1 1;
        Game.mk 2 "B" "" (20 # 1) 0 "2021-01-01" 1 2;
        Game.mk 3 "C" "" (30 # 1) (48 # 10) "2022-01-01" 1 1;
        Game.mk 4 "D" "" (30 # 1) (20 # 10) "2023-01-01" 1 1;
        Game.mk 5 "E" "" (25 # 1) (20 # 10) "2023-01-01" 2 1])
  = [3; 4; 2].
Proof. reflexivity. Qed.

Example slider_max_below_min :
  Slider.Clamped.handleMaxChange (Slider.mkRange 500 9999) 400 =
    Slider.mkOutcome (Slider.mkRange 500 500) [(500, 500)].
Proof. reflexivity. Qed.

(** * Further properties *)

(** ** Range slider: the handlers beyond the committed minimum *)

(** X1.  The max handler commits nothing when the current minimum is 9999.
    Otherwise it commits the proposed value capped at 10000 and raised to
    the current minimum, leaves the minimum as it is and reports the new
    pair: a value between the minimum and 10000 is committed as it is, a
    value below the minimum commits the minimum itself (the bounds meet),
    and a value above 10000 commits 10000 when the minimum is not above it. *)
Theorem max_handler_commit (r : Slider.range) (v : Z) :
  (Slider.min r = 9999 -> Slider.Clamped.handleMaxChange r v = Slider.mkOutcome r []) /\
  (Slider.min r <> 9999 ->
   let newMax := Z.max (Slider.min r) (Z.min v 10000) in
   Slider.Clamped.handleMaxChange r v =
     Slider.mkOutcome (Slider.mkRange (Slider.min r) newMax) [(Slider.min r, newMax)] /\
   (Slider.min r <= v <= 10000 -> newMax = v) /\
   (v < Slider.min r -> newMax = Slider.min r) /\
   (10000 < v -> Slider.min r <= 10000 -> newMax = 10000)).
Proof.
  unfold Slider.Clamped.handleMaxChange.
  destruct (Z.eqb_spec (Slider.min r) 9999); split; intros; try contradiction; try easy.
  simpl. repeat split; lia.
Qed.

(** From (500, 9999) a maximum proposed at 400 commits (500, 500). *)
Lemma max_handler_commit_witness :
  Slider.Clamped.handleMaxChange (Slider.mkRange 500 9999) 400 =
    Slider.mkOutcome (Slider.mkRange 500 500) [(500, 500)].
Proof.
  destruct (proj2 (max_handler_commit (Slider.mkRange 500 9999) 400)) as (H1 & _).
  - simpl; lia.
  - exact H1.
Defined.

(** X2.  Delivering an update a second time changes nothing, for the clamped
    handlers and for the plain ones: the state after the repetition is the
    state after the first delivery, and the repetition reports the pair the
    first delivery reported. *)
Theorem slider_update_twice (r : Slider.range) (u : Slider.update) :
  let once := Slider.handle Slider.Clamped.handleMinChange Slider.Clamped.handleMaxChange r u in
  let twice := Slider.handle Slider.Clamped.handleMinChange Slider.Clamped.handleMaxChange
                 (Slider.next once) u in
  let once' := Slider.handle Slider.Plain.handleMinChange Slider.Plain.handleMaxChange r u in
  let twice' := Slider.handle Slider.Plain.handleMinChange Slider.Plain.handleMaxChange
                  (Slider.next once') u in
  Slider.next twice = Slider.next once /\
  Slider.reported twice = Slider.reported once /\
  Slider.next twice' = Slider.next once' /\
  Slider.reported twice' = Slider.reported once'.
Proof.
  destruct r as [lo hi], u as [v|v]; simpl;
    unfold Slider.Clamped.handleMinChange, Slider.Clamped.handleMaxChange,
      Slider.Plain.handleMinChange, Slider.Plain.handleMaxChange; simpl.
  - destruct (Z.eqb_spec hi 1) as [->|Hne]; simpl.
    + repeat split; f_equal; try lia. all: repeat f_equal; lia.
    + destruct (Z.eqb_spec hi 1); [contradiction|]. simpl.
      repeat split; repeat f_equal; lia.
  - destruct (Z.eqb_spec lo 9999) as [->|Hne]; simpl.
    + repeat split; repeat f_equal; lia.
    + destruct (Z.eqb_spec lo 9999); [contradiction|]. simpl.
      repeat split; repeat f_equal; lia.
Qed.

Lemma clamped_reset (r : Slider.range) :
  Slider.within_domain r ->
  SliderRun.clamped r [Slider.MaxChange 10000; Slider.MinChange 0; Slider.MaxChange 10000] =
    Slider.mkRange 0 10000.
Proof.
  unfold Slider.within_domain, Slider.bounded_above, SliderRun.clamped, SliderRun.final.
  destruct r as [lo hi]. simpl. intros H.
  unfold Slider.Clamped.handleMaxChange at 2. simpl.
  destruct (Z.eqb_spec lo 9999) as [->|Hlo]; simpl.
  - unfold Slider.Clamped.handleMinChange. simpl.
    destruct (Z.eqb_spec hi 1); [lia|]. simpl.
    unfold Slider.Clamped.handleMaxChange. simpl.
    replace (Z.min (Z.min 0 9999) hi) with 0 by lia. simpl. f_equal.
  - unfold Slider.Clamped.handleMinChange. simpl.
    replace (Z.max lo (Z.min 10000 10000)) with 10000 by lia. simpl.
    unfold Slider.Clamped.handleMaxChange. simpl. reflexivity.
Qed.

Lemma final_app hMin hMax (r : Slider.range) (us vs : list Slider.update) :
  SliderRun.final hMin hMax r (us ++ vs) =
  SliderRun.final hMin hMax (SliderRun.final hMin hMax r us) vs.
Proof. unfold SliderRun.final. apply fold_left_app. Qed.

(** X3.  The early returns never lock the slider.  From every state with
    [0 <= min <= max <= 10000] and [min <= 9999], every such pair of bounds
    is reached by five updates with values between 0 and 10000. *)
Theorem slider_never_stuck (r target : Slider.range) :
  Slider.within_domain r -> Slider.within_domain target ->
  exists us,
    length us = 5%nat /\
    Forall (fun u => 0 <= Slider.proposed u <= 10000) us /\
    SliderRun.clamped r us = target.
Proof.
  intros Hr Ht.
  pose proof (clamped_reset r Hr) as Hreset.
  destruct target as [lo hi].
  unfold Slider.within_domain, Slider.bounded_above in Ht. simpl in Ht.
  destruct (Z.eq_dec lo 9999) as [->|Hlo].
  - exists ([Slider.MaxChange 10000; Slider.MinChange 0; Slider.MaxChange 10000] ++
            [Slider.MaxChange hi; Slider.MinChange 9999]).
    split; [reflexivity|]. split.
    + repeat constructor; simpl; lia.
    + unfold SliderRun.clamped in *. rewrite final_app, Hreset.
      unfold SliderRun.final. simpl.
      unfold Slider.Clamped.handleMaxChange. simpl.
      unfold Slider.Clamped.handleMinChange. simpl.
      replace (Z.max 0 (Z.min hi 10000)) with hi by lia.
      destruct (Z.eqb_spec hi 1); [lia|]. simpl. f_equal. lia.
  - exists ([Slider.MaxChange 10000; Slider.MinChange 0; Slider.MaxChange 10000] ++
            [Slider.MinChange lo; Slider.MaxChange hi]).
    split; [reflexivity|]. split.
    + repeat constructor; simpl; lia.
    + unfold SliderRun.clamped in *. rewrite final_app, Hreset.
      unfold SliderRun.final. simpl.
      unfold Slider.Clamped.handleMinChange. simpl.
      unfold Slider.Clamped.handleMaxChange. simpl.
      replace (Z.min (Z.min lo 9999) 10000) with lo by lia.
      destruct (Z.eqb_spec lo 9999); [contradiction|]. simpl. f_equal. lia.
Qed.

(** From the bounds at the top, (9999, 10000), down to (1, 1). *)
Lemma slider_never_stuck_witness :
  exists us,
    length us = 5%nat /\
    Forall (fun u => 0 <= Slider.proposed u <= 10000) us /\
    SliderRun.clamped (Slider.mkRange 9999 10000) us = Slider.mkRange 1 1.
Proof.
  apply (slider_never_stuck (Slider.mkRange 9999 10000) (Slider.mkRange 1 1));
    unfold Slider.within_domain, Slider.bounded_above; simpl; lia.
Defined.

(** X4.  In every state with [min <= max <= 10000] and [min <= 9999] the two
    thumbs have different stacking orders, 2 and 3, and the minimum thumb is
    the upper one exactly when the bounds are 9999 and 10000.  In that state
    the max handler commits nothing, whatever is proposed, and the min
    handler still commits every proposed value, capped at 9999. *)
Theorem min_thumb_on_top (r : Slider.range) :
  Slider.bounded_above r ->
  Slider.Clamped.minZIndex r + Slider.Clamped.maxZIndex r = 5 /\
  (Slider.Clamped.minZIndex r = 3 \/ Slider.Clamped.minZIndex r = 2) /\
  (Slider.Clamped.minZIndex r = 3 <-> Slider.min r = 9999 /\ Slider.max r = 10000) /\
  (Slider.Clamped.minZIndex r = 3 ->
   forall v,
     Slider.Clamped.handleMaxChange r v = Slider.mkOutcome r [] /\
     Slider.Clamped.handleMinChange r v =
       Slider.mkOutcome (Slider.mkRange (Z.min v 9999) 10000) [(Z.min v 9999, 10000)]).
Proof.
  unfold Slider.bounded_above, Slider.Clamped.minZIndex, Slider.Clamped.maxZIndex.
  destruct r as [lo hi]. cbn [Slider.min Slider.max]. intros H.
  destruct (Z.leb_spec 9999 lo), (Z.eqb_spec hi 10000); cbn [andb];
    (split; [reflexivity|]); (split; [auto|]); (split; [intuition lia|]).
  all: try (intros E; discriminate E).
  intros _ v. destruct H as (H1 & H2 & H3). subst hi. assert (lo = 9999) by lia. subst lo.
  unfold Slider.Clamped.handleMaxChange, Slider.Clamped.handleMinChange. simpl.
  split; [reflexivity|].
  replace (Z.min (Z.min v 9999) 10000) with (Z.min v 9999) by lia. reflexivity.
Qed.

Lemma min_thumb_on_top_witness :
  Slider.Clamped.minZIndex (Slider.mkRange 9999 10000) = 3 /\
  Slider.Clamped.handleMaxChange (Slider.mkRange 9999 10000) 9999 =
    Slider.mkOutcome (Slider.mkRange 9999 10000) [].
Proof.
  destruct (min_thumb_on_top (Slider.mkRange 9999 10000)) as (_ & _ & H3 & H4).
  - unfold Slider.bounded_above; simpl; lia.
  - split; [apply H3; split; reflexivity|].
    apply (H4 (proj2 H3 (conj eq_refl eq_refl)) 9999).
Defined.

(** ** Catalog page with its sidebar *)

Section PageRuns.
Variable sidebar : CatalogPage.sidebar.
Variable engineMessage : Api.exception -> string.
Variable t : string -> string.
Variable Number : string -> CatalogPage.number.
Variable inv : CatalogPage.system -> Prop.
Variable allowed : CatalogPage.event -> Prop.
Hypothesis step_inv :
  forall s e, allowed e -> inv s -> inv (CatalogPage.step sidebar engineMessage t Number s e).

Lemma run_inv (s : CatalogPage.system) (es : list CatalogPage.event) :
  inv s -> Forall allowed es -> inv (CatalogPage.run sidebar engineMessage t Number s es).
Proof.
  unfold CatalogPage.run. revert s.
  induction es as [|e es IH]; intros s Hs Hes; simpl; [assumption|].
  inversion Hes as [|? ? He Hes']; subst. apply IH; auto.
Qed.
End PageRuns.

Lemma every_event (es : list CatalogPage.event) : Forall (fun _ => True) es.
Proof. now apply Forall_forall. Qed.

(** The effect on the search params touches the selected genre only. *)
Lemma genreEffect_keeps (Number : string -> CatalogPage.number) (st : CatalogPage.state) :
  let st' := CatalogPage.genreEffect Number st in
  CatalogPage.minPrice st' = CatalogPage.minPrice st /\
  CatalogPage.maxPrice st' = CatalogPage.maxPrice st /\
  CatalogPage.sortBy st' = CatalogPage.sortBy st /\
  CatalogPage.error st' = CatalogPage.error st.
Proof.
  unfold CatalogPage.genreEffect.
  destruct (CatalogPage.param "genre" (CatalogPage.searchParams st)) as [g|]; [|auto].
  destruct (String.eqb g ""); simpl; auto.
Qed.

(** The pairs a slider reports touch the price range only. *)
Lemma reported_keeps (l : list (Z * Z)) (p : CatalogPage.state) :
  let p' := fold_left (fun st q => CatalogPage.handlePriceChange (fst q) (snd q) st) l p in
  CatalogPage.sortBy p' = CatalogPage.sortBy p /\
  CatalogPage.error p' = CatalogPage.error p.
Proof.
  revert p. induction l as [|x l IH]; intros p; simpl; [auto|].
  destruct (IH (CatalogPage.handlePriceChange (fst x) (snd x) p)) as [H1 H2].
  simpl in H1, H2. rewrite H1, H2. auto.
Qed.

Lemma step_prices sidebar engineMessage t Number
    (s : CatalogPage.system) (e : CatalogPage.event) :
  CatalogPage.minPrice (CatalogPage.page s) = inject_Z (Slider.min (CatalogPage.range s)) /\
  CatalogPage.maxPrice (CatalogPage.page s) = inject_Z (Slider.max (CatalogPage.range s)) /\
  Slider.ordered (CatalogPage.range s) /\
  (sidebar = CatalogPage.Clamped -> Slider.bounded_above (CatalogPage.range s)) ->
  let s' := CatalogPage.step sidebar engineMessage t Number s e in
  CatalogPage.minPrice (CatalogPage.page s') = inject_Z (Slider.min (CatalogPage.range s')) /\
  CatalogPage.maxPrice (CatalogPage.page s') = inject_Z (Slider.max (CatalogPage.range s')) /\
  Slider.ordered (CatalogPage.range s') /\
  (sidebar = CatalogPage.Clamped -> Slider.bounded_above (CatalogPage.range s')).
Proof.
  intros (Hmin & Hmax & Ho & Hb). destruct s as [p r].
  destruct e as [u|i|[i|]|[i|]|q|ps| |o| |o]; simpl in *.
  - destruct sidebar; simpl.
    + specialize (Hb eq_refl).
      pose proof (clamped_step_bounded r u Hb) as Hb'.
      split; [|split; [|split; [exact (proj1 Hb') | intros _; exact Hb']]].
      * destruct r as [lo hi], u as [v|v]; simpl in *;
          unfold Slider.Clamped.handleMinChange, Slider.Clamped.handleMaxChange; simpl.
        -- destruct (hi =? 1); simpl; auto.
        -- destruct (lo =? 9999); simpl; auto.
      * destruct r as [lo hi], u as [v|v]; simpl in *;
          unfold Slider.Clamped.handleMinChange, Slider.Clamped.handleMaxChange; simpl.
        -- destruct (hi =? 1); simpl; auto.
        -- destruct (lo =? 9999); simpl; auto.
    + split; [|split; [|split; [now apply plain_step_ordered | discriminate]]].
      * destruct r as [lo hi], u as [v|v]; reflexivity.
      * destruct r as [lo hi], u as [v|v]; reflexivity.
  - destruct (Sidebar.sortOptions t !! i); simpl; auto.
  - destruct (CatalogPage.genres p !! i); simpl; auto.
  - auto.
  - destruct (CatalogPage.platforms p !! i); simpl; auto.
  - auto.
  - destruct (genreEffect_keeps Number (CatalogPage.handleSearch q p)) as (E1 & E2 & _).
    simpl in E1, E2. rewrite E1, E2. auto.
  - destruct (genreEffect_keeps Number (CatalogPage.setSearchParams ps p)) as (E1 & E2 & _).
    simpl in E1, E2. rewrite E1, E2. auto.
  - auto.
  - destruct o; simpl; auto.
  - auto.
  - destruct o as [err|[gs ps]]; simpl; auto.
Qed.

(** X5.  Whatever happens on the page after mounting (slider updates with
    arbitrary integer values, clicks on sort, genre and platform options,
    searches, navigations, loads starting and settling), and whichever of
    the two sidebars is mounted, the price range of the page is the range of
    the sidebar's slider, and it is never empty: [minPrice <= maxPrice].
    With the clamped sidebar also [maxPrice <= 10000].  The plain sidebar
    has no such cap: every proposed maximum that is not below the minimum
    becomes the maximum price. *)
Theorem page_prices_follow_slider (sidebar : CatalogPage.sidebar)
    (engineMessage : Api.exception -> string) (t : string -> string)
    (Number : string -> CatalogPage.number) (params : list (string * string))
    (es : list CatalogPage.event) :
  let s := CatalogPage.run sidebar engineMessage t Number (CatalogPage.mounted params) es in
  CatalogPage.minPrice (CatalogPage.page s) = inject_Z (Slider.min (CatalogPage.range s)) /\
  CatalogPage.maxPrice (CatalogPage.page s) = inject_Z (Slider.max (CatalogPage.range s)) /\
  (CatalogPage.minPrice (CatalogPage.page s) <= CatalogPage.maxPrice (CatalogPage.page s))%Q /\
  (sidebar = CatalogPage.Clamped ->
   (CatalogPage.maxPrice (CatalogPage.page s) <= 10000 # 1)%Q) /\
  (sidebar = CatalogPage.Plain ->
   forall v, Slider.min (CatalogPage.range s) <= v ->
     CatalogPage.maxPrice
       (CatalogPage.page
          (CatalogPage.step sidebar engineMessage t Number s
             (CatalogPage.Slide (Slider.MaxChange v)))) = inject_Z v).
Proof.
  intros s.
  assert (H : CatalogPage.minPrice (CatalogPage.page s) = inject_Z (Slider.min (CatalogPage.range s)) /\
              CatalogPage.maxPrice (CatalogPage.page s) = inject_Z (Slider.max (CatalogPage.range s)) /\
              Slider.ordered (CatalogPage.range s) /\
              (sidebar = CatalogPage.Clamped -> Slider.bounded_above (CatalogPage.range s))).
  { subst s.
    apply (run_inv sidebar engineMessage t Number
             (fun s => CatalogPage.minPrice (CatalogPage.page s) =
                         inject_Z (Slider.min (CatalogPage.range s)) /\
                       CatalogPage.maxPrice (CatalogPage.page s) =
                         inject_Z (Slider.max (CatalogPage.range s)) /\
                       Slider.ordered (CatalogPage.range s) /\
                       (sidebar = CatalogPage.Clamped ->
                        Slider.bounded_above (CatalogPage.range s)))
             (fun _ => True)).
    - intros s e _. apply step_prices.
    - repeat split; simpl; unfold Slider.bounded_above, Slider.ordered; simpl; lia.
    - apply every_event. }
  destruct H as (Hmin & Hmax & Ho & Hb).
  rewrite Hmin, Hmax. split; [reflexivity|]. split; [reflexivity|]. split; [|split].
  - rewrite <- Zle_Qle. exact Ho.
  - intros Hs. destruct (Hb Hs) as (_ & Hhi & _).
    change (10000 # 1) with (inject_Z 10000). now rewrite <- Zle_Qle.
  - intros -> v Hv. destruct s as [p [lo hi]]. simpl in *.
    f_equal. lia.
Qed.

(** The plain sidebar after mounting: a proposed maximum of 20000 becomes
    the maximum price. *)
Lemma page_prices_follow_slider_witness :
  CatalogPage.maxPrice
    (CatalogPage.page
       (CatalogPage.step CatalogPage.Plain (fun _ => "") (fun k => k)
          (fun _ => CatalogPage.NotInteger) (CatalogPage.mounted [])
          (CatalogPage.Slide (Slider.MaxChange 20000)))) = inject_Z 20000.
Proof.
  refine (proj2 (proj2 (proj2 (proj2
    (page_prices_follow_slider CatalogPage.Plain (fun _ => "") (fun k => k)
       (fun _ => CatalogPage.NotInteger) [] [])))) eq_refl 20000 _).
  simpl. lia.
Defined.

Lemma sortOptions_values (t : string -> string) :
  List.map fst (Sidebar.sortOptions t) = Catalog.sortKeys.
Proof. reflexivity. Qed.

Lemma step_sortBy sidebar engineMessage t Number
    (s : CatalogPage.system) (e : CatalogPage.event) :
  In (CatalogPage.sortBy (CatalogPage.page s)) Catalog.sortKeys ->
  In (CatalogPage.sortBy
        (CatalogPage.page (CatalogPage.step sidebar engineMessage t Number s e)))
     Catalog.sortKeys.
Proof.
  intros H. destruct s as [p r].
  destruct e as [u|i|[i|]|[i|]|q|ps| |o| |o]; simpl in *; auto.
  - destruct (reported_keeps (Slider.reported
      (Slider.handle (CatalogPage.handleMinChange sidebar)
         (CatalogPage.handleMaxChange sidebar) r u)) p) as [E _].
    simpl in E. now rewrite E.
  - destruct (Sidebar.sortOptions t !! i) as [o|] eqn:E; simpl; auto.
    assert (Hin : In o (Sidebar.sortOptions t))
      by (apply list_elem_of_In; eapply list_elem_of_lookup_2; eauto).
    apply (List.in_map fst) in Hin. exact Hin.
  - destruct (CatalogPage.genres p !! i); simpl; auto.
  - destruct (CatalogPage.platforms p !! i); simpl; auto.
  - destruct (genreEffect_keeps Number (CatalogPage.handleSearch q p)) as (_ & _ & E & _).
    simpl in E. now rewrite E.
  - destruct (genreEffect_keeps Number (CatalogPage.setSearchParams ps p)) as (_ & _ & E & _).
    simpl in E. now rewrite E.
  - destruct o; simpl; auto.
  - destruct o as [err|[gs ps]]; simpl; auto.
Qed.

Lemma sortLabel_option (t : string -> string) (sortBy : string) :
  In sortBy Catalog.sortKeys ->
  exists label, In (sortBy, label) (Sidebar.sortOptions t) /\
    Sidebar.sortLabel t sortBy = if String.eqb label "" then t "filters.newest" else label.
Proof.
  unfold Catalog.sortKeys. simpl.
  intros [<-|[<-|[<-|[<-|[<-|[]]]]]]; eexists; (split; [|reflexivity]); simpl; auto 10.
Qed.

(** X6.  Whatever happens on the page after mounting, and whichever sidebar
    is mounted, the sort key is one of the five keys of the dropdown.  So
    the pipeline always has a comparator (its branch without sorting is not
    reached from the page), and the dropdown button shows the label of the
    option with that key, or the label of 'newest' when that label is
    empty. *)
Theorem page_sort_key_known (sidebar : CatalogPage.sidebar)
    (engineMessage : Api.exception -> string)
    (t : string -> string) (Number : string -> CatalogPage.number)
    (getTime : string -> Z) (params : list (string * string))
    (es : list CatalogPage.event) :
  let s := CatalogPage.run sidebar engineMessage t Number (CatalogPage.mounted params) es in
  let sortBy := CatalogPage.sortBy (CatalogPage.page s) in
  In sortBy Catalog.sortKeys /\
  (exists compareFn, Catalog.comparator getTime sortBy = Some compareFn) /\
  (exists label, In (sortBy, label) (Sidebar.sortOptions t) /\
     Sidebar.sortLabel t sortBy = if String.eqb label "" then t "filters.newest" else label).
Proof.
  intros s sortBy.
  assert (H : In sortBy Catalog.sortKeys).
  { subst sortBy s.
    apply (run_inv sidebar engineMessage t Number
             (fun s => In (CatalogPage.sortBy (CatalogPage.page s)) Catalog.sortKeys)
             (fun _ => True)).
    - intros s e _. apply step_sortBy.
    - simpl. auto.
    - apply every_event. }
  split; [assumption|]. split; [|now apply sortLabel_option].
  destruct (comparator_cases getTime sortBy)
    as [[_ E]|[[_ E]|[[_ E]|[[_ E]|[[_ E]|[Hno _]]]]]]; eauto. contradiction.
Qed.

Lemma step_error sidebar engineMessage t Number
    (s : CatalogPage.system) (e : CatalogPage.event) :
  CatalogPage.failing e = false ->
  CatalogPage.error (CatalogPage.page (CatalogPage.step sidebar engineMessage t Number s e)) =
  CatalogPage.error (CatalogPage.page s).
Proof.
  intros He. destruct s as [p r].
  destruct e as [u|i|[i|]|[i|]|q|ps| |o| |o]; simpl in *; auto.
  - destruct (reported_keeps (Slider.reported
      (Slider.handle (CatalogPage.handleMinChange sidebar)
         (CatalogPage.handleMaxChange sidebar) r u)) p) as [_ E].
    exact E.
  - destruct (Sidebar.sortOptions t !! i); reflexivity.
  - destruct (CatalogPage.genres p !! i); reflexivity.
  - destruct (CatalogPage.platforms p !! i); reflexivity.
  - destruct (genreEffect_keeps Number (CatalogPage.handleSearch q p)) as (_ & _ & _ & E).
    exact E.
  - destruct (genreEffect_keeps Number (CatalogPage.setSearchParams ps p)) as (_ & _ & _ & E).
    exact E.
  - destruct o; [discriminate | reflexivity].
  - destruct o as [err|[gs ps]]; [discriminate | reflexivity].
Qed.

(** X7.  No handler of the page resets the error.  Over any events among
    which no load fails, and with either sidebar, the error of the page
    stays what it was; so once a load has failed with a non-empty message,
    the page shows the loading line or that message, never the results,
    also after a retry has succeeded. *)
Theorem page_error_stays (sidebar : CatalogPage.sidebar)
    (engineMessage : Api.exception -> string)
    (t : string -> string) (Number : string -> CatalogPage.number) (getTime : string -> Z)
    (s : CatalogPage.system) (es : list CatalogPage.event) :
  Forall (fun e => CatalogPage.failing e = false) es ->
  let s' := CatalogPage.run sidebar engineMessage t Number s es in
  CatalogPage.error (CatalogPage.page s') = CatalogPage.error (CatalogPage.page s) /\
  (forall message, CatalogPage.error (CatalogPage.page s) = Some message -> message <> "" ->
     CatalogPage.render getTime t (CatalogPage.page s') = CatalogPage.Loading \/
     CatalogPage.render getTime t (CatalogPage.page s') = CatalogPage.Failed message).
Proof.
  intros Hes s'.
  assert (H : CatalogPage.error (CatalogPage.page s') = CatalogPage.error (CatalogPage.page s)).
  { subst s'.
    apply (run_inv sidebar engineMessage t Number
             (fun x => CatalogPage.error (CatalogPage.page x) = CatalogPage.error (CatalogPage.page s))
             (fun e => CatalogPage.failing e = false)); auto.
    intros x e He Hx. now rewrite step_error. }
  split; [assumption|]. intros message Hm Hne.
  unfold CatalogPage.render. destruct (CatalogPage.loading (CatalogPage.page s')); [now left|].
  right. rewrite H, Hm. simpl.
  destruct (String.eqb_spec message ""); [contradiction | reflexivity].
Qed.

(** A fetch fails after mounting; the retry then succeeds. *)
Lemma page_error_stays_witness :
  let run := CatalogPage.run CatalogPage.Plain (fun _ => "") (fun k => k)
               (fun _ => CatalogPage.NotInteger) in
  CatalogPage.render IsoDate.getTime (fun k => k)
    (CatalogPage.page
       (run
          (run (CatalogPage.mounted [])
             [CatalogPage.FetchStarted;
              CatalogPage.FetchSettled (inl (Api.Error "Game not found"))])
          [CatalogPage.FetchStarted;
           CatalogPage.FetchSettled
             (inr [Game.mk 1 "A" "" (10 # 1) (45 # 10) "2020-01-01" 1 1])]))
  = CatalogPage.Failed "Game not found".
Proof.
  intros run.
  destruct (proj2 (page_error_stays CatalogPage.Plain (fun _ => "") (fun k => k)
    (fun _ => CatalogPage.NotInteger) IsoDate.getTime
    (run (CatalogPage.mounted [])
       [CatalogPage.FetchStarted;
        CatalogPage.FetchSettled (inl (Api.Error "Game not found"))])
    [CatalogPage.FetchStarted;
     CatalogPage.FetchSettled (inr [Game.mk 1 "A" "" (10 # 1) (45 # 10) "2020-01-01" 1 1])]
    ltac:(repeat constructor)) "Game not found" eq_refl ltac:(discriminate)) as [H|H].
  - discriminate H.
  - exact H.
Defined.

(** ** Catalog pipeline: how filtering and sorting compose *)

Lemma sort_fixed {A : Type} (compareFn : A -> A -> Q) (key : A -> Q) (l : list A) :
  (forall a b, JsArray.after compareFn a b = true <-> (key b < key a)%Q) ->
  StronglySorted (JsArray.keyLe key) l -> JsArray.sort compareFn l = l.
Proof.
  intros Hkey Hs. induction Hs as [|x l Hl IH Hx]; simpl; [reflexivity|].
  rewrite IH. now apply (insert_front compareFn key Hkey).
Qed.

Lemma sort_sort {A : Type} (compareFn : A -> A -> Q) (key : A -> Q) (l : list A) :
  (forall a b, JsArray.after compareFn a b = true <-> (key b < key a)%Q) ->
  JsArray.sort compareFn (JsArray.sort compareFn l) = JsArray.sort compareFn l.
Proof.
  intros Hkey. apply (sort_fixed compareFn key _ Hkey). now apply sort_sorted.
Qed.

Lemma comparator_key getTime (sortBy : string) (compareFn : Game.t -> Game.t -> Q) :
  Catalog.comparator getTime sortBy = Some compareFn ->
  exists key, forall a b, JsArray.after compareFn a b = true <-> (key b < key a)%Q.
Proof.
  intros H.
  destruct (comparator_cases getTime sortBy)
    as [[_ E]|[[_ E]|[[_ E]|[[_ E]|[[_ E]|[_ E]]]]]];
    rewrite E in H; try discriminate; injection H as <-.
  - eexists. apply byNewest_key.
  - eexists. apply byOldest_key.
  - eexists. apply byPriceAsc_key.
  - eexists. apply byPriceDesc_key.
  - eexists. apply catalog_byRating_key.
Qed.

Lemma sortStage_filter getTime (sortBy : string) (p : Game.t -> bool) (l : list Game.t) :
  List.filter p (Catalog.sortStage getTime sortBy l) =
  Catalog.sortStage getTime sortBy (List.filter p l).
Proof.
  unfold Catalog.sortStage.
  destruct (Catalog.comparator getTime sortBy) as [c|] eqn:E; [|reflexivity].
  destruct (comparator_key _ _ _ E) as [key Hkey]. now apply (filter_sort c key Hkey).
Qed.

Lemma sortStage_twice getTime (sortBy : string) (l : list Game.t) :
  Catalog.sortStage getTime sortBy (Catalog.sortStage getTime sortBy l) =
  Catalog.sortStage getTime sortBy l.
Proof.
  unfold Catalog.sortStage.
  destruct (Catalog.comparator getTime sortBy) as [c|] eqn:E; [|reflexivity].
  destruct (comparator_key _ _ _ E) as [key Hkey]. now apply (sort_sort c key).
Qed.

Lemma filter_twice {A : Type} (p : A -> bool) (l : list A) :
  List.filter p (List.filter p l) = List.filter p l.
Proof.
  rewrite filter_filter. apply filter_pointwise. intros a. now destruct (p a).
Qed.

(** X8.  Running the pipeline on its own output changes nothing: the output
    already passes every filter and is already in the order of the sort key. *)
Theorem pipeline_idempotent (getTime : string -> Z) (st : Catalog.FilterState)
    (games : list Game.t) :
  Catalog.getFilteredGames getTime st (Catalog.getFilteredGames getTime st games) =
  Catalog.getFilteredGames getTime st games.
Proof.
  unfold Catalog.getFilteredGames. rewrite !filterStage_passes.
  rewrite sortStage_filter, filter_twice. apply sortStage_twice.
Qed.

(** X9.  Sorting never changes which games are shown.  Sorting the whole
    catalog first and filtering afterwards gives the list the pipeline
    gives; the number of results is the number of catalog games that pass
    the filters, whatever the sort key; and the results for two sort keys
    are rearrangements of each other. *)
Theorem pipeline_sort_keeps_games (getTime : string -> Z) (st : Catalog.FilterState)
    (games : list Game.t) :
  Catalog.getFilteredGames getTime st games =
    List.filter (Catalog.passes st) (Catalog.sortStage getTime (Catalog.sortBy st) games) /\
  length (Catalog.getFilteredGames getTime st games) =
    length (List.filter (Catalog.passes st) games) /\
  (forall sortBy,
     Permutation (Catalog.getFilteredGames getTime st games)
                 (Catalog.getFilteredGames getTime (CatalogPage.sortedBy sortBy st) games)).
Proof.
  unfold Catalog.getFilteredGames. rewrite filterStage_passes. split; [|split].
  - now rewrite sortStage_filter.
  - apply Permutation_length, sortStage_perm.
  - intros sortBy. rewrite filterStage_passes. simpl.
    rewrite !sortStage_perm.
    replace (List.filter (Catalog.passes (CatalogPage.sortedBy sortBy st)) games)
      with (List.filter (Catalog.passes st) games); [reflexivity|].
    apply filter_pointwise. intros g. reflexivity.
Qed.

Lemma StronglySorted_rev {A : Type} (R : A -> A -> Prop) (l : list A) :
  StronglySorted R l -> StronglySorted (fun a b => R b a) (rev l).
Proof.
  induction 1 as [|x l Hl IH Hx]; simpl; [constructor|].
  apply StronglySorted_app_2; [|assumption|repeat constructor].
  intros a b Ha Hb. apply list_elem_of_singleton in Hb. subst b.
  rewrite Forall_forall in Hx. apply Hx.
  apply list_elem_of_In. apply list_elem_of_In, List.in_rev in Ha. exact Ha.
Qed.

(** Two comparators that order by opposite keys sort a list without ties
    into lists that are the reverse of each other. *)
Lemma sort_opposite {A : Type} (up down : A -> A -> Q) (key : A -> Q) (l : list A) :
  (forall a b, JsArray.after up a b = true <-> (key b < key a)%Q) ->
  (forall a b, JsArray.after down a b = true <-> (- key b < - key a)%Q) ->
  (forall a b, In a l -> In b l -> (key a == key b)%Q -> a = b) ->
  JsArray.sort down l = rev (JsArray.sort up l).
Proof.
  intros Hup Hdown Hties.
  apply (StronglySorted_unique_strong (JsArray.keyLe (fun a => (- key a)%Q))).
  - intros a b Ha Hb Hab Hba. unfold JsArray.keyLe in *.
    apply Qopp_le_cancel in Hab. apply Qopp_le_cancel in Hba.
    apply Hties.
    + apply (sort_In down). now apply list_elem_of_In.
    + apply (sort_In up), List.in_rev. now apply list_elem_of_In.
    + now apply Qle_antisym.
  - now apply sort_sorted.
  - eapply StronglySorted_weaken; [|apply StronglySorted_rev, (sort_sorted up key Hup)].
    intros a b Hab. unfold JsArray.keyLe in *. simpl in Hab. now apply Qopp_le_compat.
  - rewrite (sort_perm down l). rewrite <- Permutation_rev. symmetry. apply sort_perm.
Qed.

(** X10.  When no two games that pass the filters share a release date, the
    'oldest' list is the 'newest' list read backwards; when no two share a
    price, the 'price-desc' list is the 'price-asc' list read backwards. *)
Theorem opposite_sort_keys (getTime : string -> Z) (st : Catalog.FilterState)
    (games : list Game.t) :
  let pre := Catalog.filterStage st games in
  ((forall a b, In a pre -> In b pre ->
      Catalog.timeOf getTime a = Catalog.timeOf getTime b -> a = b) ->
   Catalog.getFilteredGames getTime (CatalogPage.sortedBy "oldest" st) games =
     rev (Catalog.getFilteredGames getTime (CatalogPage.sortedBy "newest" st) games)) /\
  ((forall a b, In a pre -> In b pre -> (Game.price a == Game.price b)%Q -> a = b) ->
   Catalog.getFilteredGames getTime (CatalogPage.sortedBy "price-desc" st) games =
     rev (Catalog.getFilteredGames getTime (CatalogPage.sortedBy "price-asc" st) games)).
Proof.
  intros pre.
  assert (Hpre : forall s, Catalog.filterStage (CatalogPage.sortedBy s st) games = pre)
    by reflexivity.
  unfold Catalog.getFilteredGames. rewrite !Hpre. simpl. fold pre.
  unfold Catalog.sortStage. simpl. split; intros Hties.
  - rewrite <- (rev_involutive (JsArray.sort (Catalog.byOldest getTime) pre)). f_equal.
    symmetry.
    apply (sort_opposite (Catalog.byOldest getTime) (Catalog.byNewest getTime)
             (fun g => inject_Z (Catalog.timeOf getTime g))).
    + apply byOldest_key.
    + apply byNewest_key.
    + intros a b Ha Hb Hab. apply Hties; auto.
      unfold Qeq in Hab. simpl in Hab. lia.
  - apply (sort_opposite Catalog.byPriceAsc Catalog.byPriceDesc Game.price).
    + apply byPriceAsc_key.
    + apply byPriceDesc_key.
    + exact Hties.
Qed.

Lemma opposite_sort_keys_witness :
  Catalog.getFilteredGames IsoDate.getTime
    (CatalogPage.sortedBy "oldest" (Catalog.mkFilterState None None 0 (10000 # 1) "rating"))
    [Game.mk 1 "A" "" (10 # 1) (45 # 10) "2020-01-01" 1 1;
     Game.mk 2 "B" "" (20 # 1) 0 "2022-01-01" 1 2;
     Game.mk 3 "C" "" (30 # 1) (48 # 10) "2021-06-15" 1 1]
  = rev (Catalog.getFilteredGames IsoDate.getTime
           (CatalogPage.sortedBy "newest" (Catalog.mkFilterState None None 0 (10000 # 1) "rating"))
           [Game.mk 1 "A" "" (10 # 1) (45 # 10) "2020-01-01" 1 1;
            Game.mk 2 "B" "" (20 # 1) 0 "2022-01-01" 1 2;
            Game.mk 3 "C" "" (30 # 1) (48 # 10) "2021-06-15" 1 1]).
Proof.
  refine (proj1 (opposite_sort_keys IsoDate.getTime _ _) _).
  intros a b Ha Hb.
  simpl in Ha, Hb.
  destruct Ha as [<-|[<-|[<-|[]]]], Hb as [<-|[<-|[<-|[]]]];
    first [reflexivity | intros H; vm_compute in H; discriminate H].
Defined.

(** ** Home: the featured list and the carousel *)

Lemma In_putNamed (k v : Z) (l : list (Z * Z)) (p : Z * Z) :
  In p (JsRecord.putNamed k v l) -> p = (k, v) \/ In p l.
Proof.
  induction l as [|[k' v'] l IH]; simpl.
  - intros [<-|[]]. now left.
  - destruct (Z.eqb_spec k k'); simpl; [intros [<-|H']; auto|].
    intros [H'|H']; [auto|]. apply IH in H'. tauto.
Qed.

Lemma putNamed_keys (k v : Z) (l : list (Z * Z)) :
  NoDup (List.map fst l) -> NoDup (List.map fst (JsRecord.putNamed k v l)).
Proof.
  induction l as [|[k' v'] l IH]; intros Hn; simpl.
  - repeat constructor. intros Hin. inversion Hin.
  - apply NoDup_cons in Hn. destruct Hn as [Hk' Hl].
    destruct (Z.eqb_spec k k') as [->|Hne]; simpl.
    + apply NoDup_cons. split; assumption.
    + apply NoDup_cons. split; [|now apply IH].
      intros Hin. apply list_elem_of_In, List.in_map_iff in Hin.
      destruct Hin as (p & Hp & Hin). apply In_putNamed in Hin.
      destruct Hin as [->|Hin]; simpl in Hp; [congruence|].
      apply Hk'. apply list_elem_of_In, List.in_map_iff. eauto.
Qed.

Lemma sorted_keys (l : list (Z * Z)) :
  StronglySorted Home.keyLt l -> NoDup (List.map fst l).
Proof.
  induction 1 as [|p l Hl IH Hp]; simpl; [constructor|].
  apply NoDup_cons. split; [|assumption].
  intros Hin. apply list_elem_of_In, List.in_map_iff in Hin. destruct Hin as (q & Hq & Hin).
  rewrite Forall_forall in Hp. apply list_elem_of_In, Hp in Hin.
  unfold Home.keyLt in Hin. lia.
Qed.

(** The keys of a tally are pairwise different, whatever the ids. *)
Lemma tally_keys (orders : list Order.t) :
  StronglySorted Home.keyLt (JsRecord.indexed (Home.tally orders)) /\
  NoDup (List.map fst (JsRecord.named (Home.tally orders))) /\
  Forall (fun p => JsRecord.isIndex (fst p) = true) (JsRecord.indexed (Home.tally orders)) /\
  Forall (fun p => JsRecord.isIndex (fst p) = false) (JsRecord.named (Home.tally orders)).
Proof.
  induction orders as [|o orders IH] using rev_ind.
  - repeat split; constructor.
  - destruct IH as (Hs & Hn & Hi & Hni). rewrite tally_snoc.
    unfold Home.bump, JsRecord.set.
    destruct (JsRecord.isIndex (Order.game_id o)) eqn:E; simpl.
    + repeat split; try assumption; [now apply putIndexed_sorted|].
      apply Forall_forall. intros p Hp. apply list_elem_of_In, In_putIndexed in Hp.
      destruct Hp as [->|Hp]; [exact E|].
      rewrite Forall_forall in Hi. now apply Hi, list_elem_of_In.
    + repeat split; try assumption; [now apply putNamed_keys|].
      apply Forall_forall. intros p Hp. apply list_elem_of_In, In_putNamed in Hp.
      destruct Hp as [->|Hp]; [exact E|].
      rewrite Forall_forall in Hni. now apply Hni, list_elem_of_In.
Qed.

Lemma entries_keys (orders : list Order.t) :
  NoDup (List.map fst (JsRecord.entries (Home.tally orders))).
Proof.
  destruct (tally_keys orders) as (Hs & Hn & Hi & Hni).
  unfold JsRecord.entries. rewrite List.map_app. apply NoDup_app.
  split; [now apply sorted_keys|]. split; [|assumption].
  intros k Hk Hk'.
  apply list_elem_of_In, List.in_map_iff in Hk. destruct Hk as (p & <- & Hp).
  apply list_elem_of_In, List.in_map_iff in Hk'. destruct Hk' as (q & Hq & Hq').
  rewrite Forall_forall in Hi, Hni.
  apply list_elem_of_In, Hi in Hp. apply list_elem_of_In, Hni in Hq'. congruence.
Qed.

Lemma sortedGameIds_NoDup (orders : list Order.t) : NoDup (Home.sortedGameIds orders).
Proof.
  pose proof (entries_keys orders) as Hkeys.
  unfold Home.sortedGameIds, JsArray.slice0.
  set (ranked := JsArray.sort Home.byCount (JsRecord.entries (Home.tally orders))).
  assert (Hranked : NoDup (List.map fst ranked)).
  { apply NoDup_ListNoDup.
    eapply (Permutation_NoDup (l := List.map fst (JsRecord.entries (Home.tally orders))));
      [|now apply NoDup_ListNoDup].
    apply Permutation_map. symmetry. apply sort_perm. }
  rewrite <- (take_drop 3 ranked), List.map_app in Hranked.
  now apply NoDup_app in Hranked.
Qed.

Lemma sortedGameIds_length (orders : list Order.t) : (length (Home.sortedGameIds orders) <= 3)%nat.
Proof.
  unfold Home.sortedGameIds, JsArray.slice0. rewrite length_map, length_take. lia.
Qed.

Lemma resolved_ids (games : list Game.t) (ids : list Z) :
  NoDup ids -> NoDup (List.map Game.id (Home.resolved games ids)).
Proof.
  induction ids as [|i ids IH]; intros Hn; [constructor|].
  apply NoDup_cons in Hn. destruct Hn as [Hi Hids].
  unfold Home.resolved, JsArray.defined in *. simpl.
  destruct (JsArray.find _ games) as [g|] eqn:E; simpl; [|now apply IH].
  apply NoDup_cons. split; [|now apply IH].
  apply List.find_some in E. destruct E as [_ Hid]. apply Z.eqb_eq in Hid. rewrite Hid.
  intros Hin. apply list_elem_of_In, List.in_map_iff in Hin. destruct Hin as (g' & Hg' & Hin).
  apply (resolved_catalog games ids) in Hin. destruct Hin as [_ Hin].
  apply Hi, list_elem_of_In. congruence.
Qed.

Lemma resolved_length (games : list Game.t) (ids : list Z) :
  (length (Home.resolved games ids) <= length ids)%nat.
Proof.
  induction ids as [|i ids IH]; [reflexivity|].
  unfold Home.resolved, JsArray.defined in *.
  change (omap ?f (i :: ids))
    with (match f i with Some y => y :: omap f ids | None => omap f ids end).
  cbv beta. destruct (JsArray.find (fun g => Game.id g =? i) games); simpl; lia.
Qed.

Lemma unique_by_id (games : list Game.t) (a b : Game.t) :
  NoDup (List.map Game.id games) -> In a games -> In b games ->
  Game.id a = Game.id b -> a = b.
Proof.
  induction games as [|g games IH]; intros Hn Ha Hb Hab; [destruct Ha|].
  simpl in Hn. apply NoDup_cons in Hn. destruct Hn as [Hg Hn].
  destruct Ha as [->|Ha], Hb as [->|Hb]; auto.
  - exfalso. apply Hg. rewrite Hab. apply list_elem_of_In, List.in_map, Hb.
  - exfalso. apply Hg. rewrite <- Hab. apply list_elem_of_In, List.in_map, Ha.
Qed.

Lemma notIn_false (featured : list Game.t) (g : Game.t) :
  Home.notIn featured g = false <-> exists fg, In fg featured /\ Game.id fg = Game.id g.
Proof.
  unfold Home.notIn, JsArray.find. split.
  - destruct (List.find _ featured) as [fg|] eqn:E; [|discriminate].
    intros _. apply List.find_some in E. destruct E as [Hin Hid].
    apply Z.eqb_eq in Hid. eauto.
  - intros (fg & Hin & Hid).
    destruct (List.find _ featured) as [x|] eqn:E; [reflexivity|].
    apply (List.find_none _ _ E) in Hin. apply Z.eqb_neq in Hin. contradiction.
Qed.

Lemma NoDup_of_ids (games : list Game.t) :
  NoDup (List.map Game.id games) -> NoDup games.
Proof.
  induction games as [|g games IH]; simpl; intros Hn; [constructor|].
  apply NoDup_cons in Hn. destruct Hn as [Hg Hn]. apply NoDup_cons. split; [|auto].
  intros Hin. apply Hg. apply list_elem_of_In, List.in_map, list_elem_of_In, Hin.
Qed.

(** The games of the catalog that are not featured yet: all but the
    featured ones. *)
Lemma remaining_length (games featured : list Game.t) :
  NoDup (List.map Game.id games) -> NoDup (List.map Game.id featured) ->
  (forall g, In g featured -> In g games) ->
  (length (List.filter (Home.notIn featured) games) + length featured)%nat = length games.
Proof.
  intros Hg Hf Hsub.
  rewrite <- (List.filter_length (Home.notIn featured) games). f_equal.
  apply Permutation_length.
  apply NoDup_Permutation.
  - now apply NoDup_of_ids.
  - apply NoDup_ListNoDup, List.NoDup_filter, NoDup_ListNoDup. now apply NoDup_of_ids.
  - intros x. rewrite !list_elem_of_In, List.filter_In. unfold compose. split.
    + intros Hx. split; [auto|]. apply negb_true_iff, notIn_false. eauto.
    + intros [Hx Hno]. apply negb_true_iff, notIn_false in Hno.
      destruct Hno as (fg & Hfg & Hid).
      rewrite <- (unique_by_id games fg x Hg (Hsub _ Hfg) Hx Hid). exact Hfg.
Qed.

Lemma filter_ids (p : Game.t -> bool) (games : list Game.t) :
  NoDup (List.map Game.id games) -> NoDup (List.map Game.id (List.filter p games)).
Proof.
  induction games as [|g games IH]; simpl; intros Hg; [constructor|].
  apply NoDup_cons in Hg. destruct Hg as [Hx Hg].
  destruct (p g); simpl; [|auto].
  apply NoDup_cons. split; [|auto]. intros Hin. apply Hx.
  apply list_elem_of_In, List.in_map_iff in Hin. destruct Hin as (y & Hy & Hin).
  apply List.filter_In in Hin. destruct Hin as [Hin _].
  rewrite <- Hy. apply list_elem_of_In, List.in_map, Hin.
Qed.

Lemma length_le_of_ids (games featured : list Game.t) :
  NoDup (List.map Game.id featured) ->
  (forall g, In g featured -> In g games) ->
  (length featured <= length games)%nat.
Proof.
  intros Hf Hsub. apply NoDup_incl_length.
  - apply NoDup_ListNoDup. now apply NoDup_of_ids.
  - exact Hsub.
Qed.

Lemma featured_shape (games : list Game.t) (outcome : Api.exception + list Order.t) :
  NoDup (List.map Game.id games) ->
  length (Home.getMostPurchasedGames games outcome) = Nat.min 3 (length games) /\
  NoDup (List.map Game.id (Home.getMostPurchasedGames games outcome)) /\
  (forall g, In g (Home.getMostPurchasedGames games outcome) -> In g games).
Proof.
  intros Hg. destruct outcome as [err|orders]; unfold Home.getMostPurchasedGames.
  - unfold JsArray.slice0. split; [apply length_take|]. split.
    + rewrite <- (take_drop 3 games), List.map_app in Hg. now apply NoDup_app in Hg.
    + intros g Hin. apply list_elem_of_In. apply (subseteq_take 3 games).
      now apply list_elem_of_In.
  - set (featured := Home.resolved games (Home.sortedGameIds orders)).
    assert (Hf : NoDup (List.map Game.id featured))
      by apply resolved_ids, sortedGameIds_NoDup.
    assert (Hsub : forall g, In g featured -> In g games)
      by (intros g Hin; now apply resolved_catalog in Hin).
    assert (Hlen3 : (length featured <= 3)%nat).
    { pose proof (sortedGameIds_length orders) as H3.
      pose proof (resolved_length games (Home.sortedGameIds orders)) as H.
      fold featured in H. lia. }
    pose proof (remaining_length games featured Hg Hf Hsub) as Hrem.
    pose proof (length_le_of_ids games featured Hf Hsub) as Hle.
    unfold JsArray.slice0.
    assert (Hshape : (if (length featured <? 3)%nat
                      then featured ++ take (3 - length featured)
                                         (List.filter (Home.notIn featured) games)
                      else featured) =
                     featured ++ take (3 - length featured)
                                   (List.filter (Home.notIn featured) games)).
    { destruct (Nat.ltb_spec (length featured) 3); [reflexivity|].
      replace (3 - length featured)%nat with 0%nat by lia.
      now rewrite take_0, app_nil_r. }
    rewrite Hshape. split; [|split].
    + rewrite length_app, length_take. lia.
    + rewrite List.map_app. apply NoDup_app. split; [assumption|]. split.
      * intros i Hi Hi'.
        apply list_elem_of_In, List.in_map_iff in Hi. destruct Hi as (fg & <- & Hfg).
        apply list_elem_of_In, List.in_map_iff in Hi'. destruct Hi' as (g & Hid & Hin).
        apply list_elem_of_In, (subseteq_take _ _), list_elem_of_In, List.filter_In in Hin.
        destruct Hin as [_ Hno].
        assert (Hfalse : Home.notIn featured g = false) by (apply notIn_false; eauto).
        congruence.
      * pose proof (filter_ids (Home.notIn featured) games Hg) as Hall.
        rewrite <- (take_drop (3 - length featured)
                      (List.filter (Home.notIn featured) games)), List.map_app in Hall.
        now apply NoDup_app in Hall.
    + intros g Hin. apply in_app_or in Hin. destruct Hin as [Hin|Hin]; [auto|].
      apply list_elem_of_In, (subseteq_take _ _), list_elem_of_In, List.filter_In in Hin.
      tauto.
Qed.

(** X11.  For a catalog in which no two games share an id, whatever the
    orders are and also when they cannot be fetched, the featured list holds
    [min(3, number of games)] games of the catalog and no game twice. *)
Theorem featured_three_distinct (games : list Game.t)
    (outcome : Api.exception + list Order.t) :
  NoDup (List.map Game.id games) ->
  length (Home.getMostPurchasedGames games outcome) = Nat.min 3 (length games) /\
  NoDup (List.map Game.id (Home.getMostPurchasedGames games outcome)) /\
  (forall g, In g (Home.getMostPurchasedGames games outcome) -> In g games).
Proof. apply featured_shape. Qed.

Lemma featured_three_distinct_witness :
  length
    (Home.getMostPurchasedGames
       [Game.mk 3 "C" "" (30 # 1) (48 # 10) "2022-01-01" 1 1;
        Game.mk 2 "B" "" (20 # 1) 0 "2021-01-01" 1 1;
        Game.mk 1 "A" "" (10 # 1) (45 # 10) "2020-01-01" 1 1;
        Game.mk 4 "D" "" (30 # 1) (20 # 10) "2023-01-01" 1 1]
       (inr [Order.mk 1 7 9 (10 # 1) "2024-01-01"; Order.mk 2 8 (-4) (10 # 1) "2024-01-02";
             Order.mk 3 7 2 (20 # 1) "2024-01-03"]))
  = 3%nat.
Proof.
  refine (proj1 (featured_three_distinct _ _ _)).
  apply (bool_decide_unpack _). vm_compute. exact I.
Defined.

Lemma slides_bound (featured : list Game.t) (es : list HomePage.slideEvent) (start : nat) :
  (start < 3)%nat -> (fold_left (HomePage.slideStep featured) es start < 3)%nat.
Proof.
  revert start. induction es as [|e es IH]; intros start Hs; simpl; [assumption|].
  apply IH. destruct e as [|index]; unfold HomePage.slideStep.
  - apply Nat.mod_upper_bound. lia.
  - unfold JsArray.slice0. destruct (Nat.ltb_spec index (length (take 3 featured))) as [Hlt|];
      [|assumption].
    rewrite length_take in Hlt. lia.
Qed.

Lemma ticks_from_zero (featured : list Game.t) (k : nat) :
  (k < 3)%nat -> HomePage.slides featured (repeat HomePage.Tick k) = k.
Proof.
  intros Hk. unfold HomePage.slides.
  destruct k as [|[|[|k]]]; try reflexivity. lia.
Qed.

(** X12.  The current slide of the carousel is always 0, 1 or 2, whatever
    the timer and the indicators do.  With three featured games the slide
    always has a game to show.  With fewer the timer runs past them: after
    as many ticks as there are featured games the slide has no game.  For a
    catalog of at least three games with pairwise different ids the
    featured list always has three. *)
Theorem carousel_slide (featuredGames : list Game.t) (es : list HomePage.slideEvent) :
  (HomePage.slides featuredGames es < 3)%nat /\
  ((3 <= length featuredGames)%nat ->
   is_Some (HomePage.shown featuredGames (HomePage.slides featuredGames es))) /\
  ((length featuredGames < 3)%nat ->
   HomePage.shown featuredGames
     (HomePage.slides featuredGames (repeat HomePage.Tick (length featuredGames))) = None) /\
  (forall games outcome,
     featuredGames = Home.getMostPurchasedGames games outcome ->
     NoDup (List.map Game.id games) -> (3 <= length games)%nat ->
     is_Some (HomePage.shown featuredGames (HomePage.slides featuredGames es))).
Proof.
  assert (Hb : (HomePage.slides featuredGames es < 3)%nat)
    by (apply slides_bound; lia).
  assert (H3 : (3 <= length featuredGames)%nat ->
               is_Some (HomePage.shown featuredGames (HomePage.slides featuredGames es))).
  { intros Hlen. apply lookup_lt_is_Some. lia. }
  repeat split; try assumption.
  - intros Hlen. rewrite ticks_from_zero by assumption.
    unfold HomePage.shown. now apply lookup_ge_None.
  - intros games outcome -> Hids Hlen. apply H3.
    rewrite (proj1 (featured_shape games outcome Hids)). lia.
Qed.

(** A catalog of two games: the second tick leaves the slide without a game. *)
Lemma carousel_slide_witness :
  HomePage.shown
    [Game.mk 1 "A" "" (10 # 1) (45 # 10) "2020-01-01" 1 1;
     Game.mk 2 "B" "" (20 # 1) 0 "2021-01-01" 1 1]
    (HomePage.slides
       [Game.mk 1 "A" "" (10 # 1) (45 # 10) "2020-01-01" 1 1;
        Game.mk 2 "B" "" (20 # 1) 0 "2021-01-01" 1 1]
       [HomePage.Tick; HomePage.Tick])
  = None.
Proof.
  refine (proj1 (proj2 (proj2 (carousel_slide
    [Game.mk 1 "A" "" (10 # 1) (45 # 10) "2020-01-01" 1 1;
     Game.mk 2 "B" "" (20 # 1) 0 "2021-01-01" 1 1] []))) _).
  simpl. lia.
Defined.

(** ** Home: the genre strip *)

Lemma byGameCount_key (a b : HomePage.GenreWithCount) :
  JsArray.after HomePage.byGameCount a b = true <->
  (- inject_Z (HomePage.gameCount b) < - inject_Z (HomePage.gameCount a))%Q.
Proof.
  apply (after_difference _ (fun c => (- inject_Z (HomePage.gameCount c))%Q)).
  intros x y. unfold HomePage.byGameCount.
  unfold Z.sub. rewrite inject_Z_plus, inject_Z_opp. ring.
Qed.

(** X13.  After a successful load the genre strip lists every fetched genre
    once, each with the number of fetched games of that genre (0 for a
    genre without games), in descending order of that number, genres with
    the same number in the order of the fetched list.  After a failed load
    the games and the strip are what they were. *)
Theorem genre_strip (engineMessage : Api.exception -> string)
    (gamesData : list Game.t) (genresData : list Genre.t) (st : HomePage.state) :
  let strip := HomePage.genres
                 (HomePage.loadData engineMessage (inr (gamesData, genresData)) st) in
  Permutation (List.map HomePage.genre strip) genresData /\
  Forall (fun c => HomePage.gameCount c = HomePage.countGames gamesData (HomePage.genre c))
         strip /\
  StronglySorted (fun a b => HomePage.gameCount b <= HomePage.gameCount a) strip /\
  (forall n,
     List.map HomePage.genre (List.filter (fun c => HomePage.gameCount c =? n) strip) =
     List.filter (fun g => HomePage.countGames gamesData g =? n) genresData) /\
  (forall err,
     HomePage.games (HomePage.loadData engineMessage (inl err) st) = HomePage.games st /\
     HomePage.genres (HomePage.loadData engineMessage (inl err) st) = HomePage.genres st).
Proof.
  intros strip. subst strip. simpl. unfold HomePage.sortedGenres.
  set (counted := List.map
         (fun genre => HomePage.mkCounted genre (HomePage.countGames gamesData genre))
         genresData).
  destruct (sort_by_key HomePage.byGameCount _ counted byGameCount_key) as (Hs & Hp & Hst).
  assert (Hgenres : List.map HomePage.genre counted = genresData).
  { unfold counted. rewrite List.map_map. simpl. apply List.map_id. }
  split; [|split; [|split; [|split]]].
  - rewrite Hp. now rewrite Hgenres.
  - apply Forall_forall. intros c Hc. apply list_elem_of_In in Hc.
    apply (proj1 (sort_In HomePage.byGameCount _ _)) in Hc. unfold counted in Hc.
    apply List.in_map_iff in Hc. destruct Hc as (g & <- & _). reflexivity.
  - eapply StronglySorted_weaken; [|exact Hs].
    intros a b Hab. unfold JsArray.keyLe in Hab. apply Qopp_le_cancel in Hab.
    now rewrite Zle_Qle.
  - intros n. specialize (Hst (- inject_Z n)%Q).
    rewrite (filter_same_as (fun c => HomePage.gameCount c =? n)
               (JsArray.hasKey (fun c => (- inject_Z (HomePage.gameCount c))%Q) (- inject_Z n))
               _ counted).
    + unfold counted. clear. induction genresData as [|g gs IH]; simpl; [reflexivity|].
      destruct (HomePage.countGames gamesData g =? n); simpl; now rewrite IH.
    + intros c. unfold JsArray.hasKey. now rewrite Qeq_bool_opp, Qeq_bool_inject.
    + exact Hst.
  - intros err. split; reflexivity.
Qed.

(** ** Home: the best of the rated games *)

(** X14.  The top-rated list is in descending order of rating, holds
    [min(n, number of rated games)] games, and is the best of the rated
    games: the rated games are the list together with games none of which
    has a higher rating than a game of the list. *)
Theorem topRated_best (n : nat) (games : list Game.t) :
  StronglySorted Catalog.bestFirst (Home.topRated n games) /\
  length (Home.topRated n games) = Nat.min n (length (List.filter Home.rated games)) /\
  exists rest,
    Permutation (List.filter Home.rated games) (Home.topRated n games ++ rest) /\
    forall a b, In a (Home.topRated n games) -> In b rest ->
      (Game.rating b <= Game.rating a)%Q.
Proof.
  rewrite topRated_rated_first.
  set (ranked := JsArray.sort Home.byRating (List.filter Home.rated games)).
  assert (Hs : StronglySorted Catalog.bestFirst ranked).
  { eapply StronglySorted_weaken; [|apply (sort_sorted Home.byRating _ byRating_key)].
    intros a b Hab. unfold JsArray.keyLe in Hab. now apply Qopp_le_cancel in Hab. }
  rewrite <- (take_drop n ranked) in Hs.
  split; [|split].
  - now apply StronglySorted_app_1_l in Hs.
  - unfold ranked. now rewrite length_take, sort_length.
  - exists (drop n ranked). split.
    + rewrite take_drop. symmetry. apply sort_perm.
    + intros a b Ha Hb.
      apply (StronglySorted_app_1_elem_of _ _ _ a b Hs); now apply list_elem_of_In.
Qed.

Lemma topRated_best_witness :
  length
    (Home.topRated 2
       [Game.mk 1 "A" "" (10 # 1) (45 # 10) "2020-01-01" 1 1;
        Game.mk 2 "B" "" (20 # 1) 0 "2021-01-01" 1 1;
        Game.mk 3 "C" "" (30 # 1) (48 # 10) "2022-01-01" 1 1;
        Game.mk 4 "D" "" (30 # 1) (20 # 10) "2023-01-01" 1 1])
  = 2%nat.
Proof.
  refine (eq_trans (proj1 (proj2 (topRated_best 2 _))) eq_refl).
Defined.

(** ** Ids in labels and in request paths *)

Lemma to_int_not_nil (n : Z) :
  Z.to_int n <> Decimal.Pos Decimal.Nil /\ Z.to_int n <> Decimal.Neg Decimal.Nil.
Proof.
  destruct n as [|p|p]; simpl; split; try discriminate;
    intros [= H]; now apply DecimalPos.Unsigned.to_uint_nonnil in H.
Qed.

Lemma string_of_Z_inj (a b : Z) : string_of_Z a = string_of_Z b -> a = b.
Proof.
  unfold string_of_Z. intros H.
  apply DecimalZ.to_int_inj.
  destruct (to_int_not_nil a) as [Ha1 Ha2], (to_int_not_nil b) as [Hb1 Hb2].
  pose proof (DecimalString.NilZero.isi _ Ha1 Ha2) as Ea.
  pose proof (DecimalString.NilZero.isi _ Hb1 Hb2) as Eb.
  rewrite H in Ea. congruence.
Qed.

Lemma string_app_inj (p a b : string) : p +:+ a = p +:+ b -> a = b.
Proof.
  induction p as [|c p IH]; [auto|].
  change (String c (p +:+ a) = String c (p +:+ b) -> a = b).
  intros [= H]. auto.
Qed.

(** X15.  The placeholder of an unresolved record identifies its game: two
    game ids that are not in the catalog get the same label only when they
    are the same id. *)
Theorem placeholder_identifies_game (games : list Game.t) (a b : Z) :
  ~ Profile.resolves games a -> ~ Profile.resolves games b ->
  (Profile.titleOr (Profile.gameById games a) a =
   Profile.titleOr (Profile.gameById games b) b <-> a = b).
Proof.
  intros Ha Hb. rewrite !titleOr_unresolved by assumption. split.
  - intros H. apply string_app_inj in H. now apply string_of_Z_inj.
  - now intros ->.
Qed.

Lemma placeholder_identifies_game_witness :
  Profile.titleOr (Profile.gameById [] 999) 999 <>
  Profile.titleOr (Profile.gameById [] (-999)) (-999).
Proof.
  intros H.
  apply (proj1 (placeholder_identifies_game [] 999 (-999)
                  ltac:(intros (g & [] & _)) ltac:(intros (g & [] & _)))) in H.
  discriminate H.
Defined.

(** X16.  The requests for two games, and for the orders of two users, go
    to the same URL only when the ids are the same. *)
Theorem id_paths_differ (env : option string) (n2s : Q -> string)
    (fetch : string -> Api.RequestInit -> Api.fetched) (a b : Z) :
  (Api.calls (Api.getGameById env n2s fetch a) = Api.calls (Api.getGameById env n2s fetch b)
   <-> a = b) /\
  (Api.calls (Api.getUserOrders env n2s fetch a) = Api.calls (Api.getUserOrders env n2s fetch b)
   <-> a = b).
Proof.
  unfold Api.getGameById, Api.getUserOrders. rewrite !request_calls.
  split; (split; [|now intros ->]); intros [= H];
    apply string_app_inj, string_app_inj in H; now apply string_of_Z_inj.
Qed.

(** ** API client: what a call returns, throws and sends *)

(** X17.  A call returns a value exactly when [fetch] answers with a status
    from 200 to 299 and a body that parses, and the value is the parsed
    body; then nothing is logged.  When [fetch] itself fails, its failure is
    thrown as it is; a 2xx answer whose body does not parse throws the
    parse error.  Whatever is thrown is logged once, and whatever happens
    [fetch] is called once. *)
Theorem request_outcome (env : option string) (n2s : Q -> string)
    (fetch : string -> Api.RequestInit -> Api.fetched)
    (endpoint : string) (options : option Api.RequestInit) :
  let r := Api.request env n2s fetch endpoint options in
  let answer := fetch (Api.API_BASE_URL env +:+ endpoint) (Api.initOf options) in
  (forall v, Api.result r = inr v <->
     exists response, answer = Api.Responded response /\
       Api.ok response = true /\ Api.parsed response = Some v) /\
  (forall v, Api.result r = inr v -> Api.logged r = []) /\
  (forall thrown, Api.result r = inl thrown -> Api.logged r = [thrown]) /\
  (forall reason, answer = Api.Rejected reason -> Api.result r = inl (Api.Failure reason)) /\
  (forall response, answer = Api.Responded response -> Api.ok response = true ->
     Api.parsed response = None -> Api.result r = inl Api.SyntaxError) /\
  length (Api.calls r) = 1%nat.
Proof.
  intros r answer.
  assert (Hlog : Api.logged r =
                 match Api.result r with inl thrown => [thrown] | inr _ => [] end)
    by apply request_logs.
  assert (Hres : Api.result r =
    match answer with
    | Api.Rejected reason => inl (Api.Failure reason)
    | Api.Responded response =>
        if negb (Api.ok response) then
          match Api.detailOf (match Api.parsed response with
                              | Some v => v
                              | None => Api.JObject [("detail", Api.JString "Unknown error")]
                              end) with
          | inl thrown => inl thrown
          | inr detail =>
              inl (Api.Error (if Api.truthy detail
                              then match detail with
                                   | Some v => Api.toString n2s v
                                   | None => ""
                                   end
                              else "HTTP error! status: " +:+ string_of_Z (Api.status response)))
          end
        else match Api.parsed response with
             | Some v => inr v
             | None => inl Api.SyntaxError
             end
    end) by reflexivity.
  split; [|split; [|split; [|split; [|split]]]].
  - intros v. rewrite Hres. split.
    + destruct answer as [reason|response]; [discriminate|].
      destruct (Api.ok response) eqn:Hok; simpl.
      * destruct (Api.parsed response) as [w|] eqn:Hp; [|discriminate].
        intros [= ->]. exists response. auto.
      * destruct (Api.detailOf _); discriminate.
    + intros (response & -> & Hok & Hp). now rewrite Hok, Hp.
  - intros v Hv. now rewrite Hlog, Hv.
  - intros thrown Ht. now rewrite Hlog, Ht.
  - intros reason Ha. now rewrite Hres, Ha.
  - intros response Ha Hok Hp. now rewrite Hres, Ha, Hok, Hp.
  - reflexivity.
Qed.

(** A 200 with the body [[]]. *)
Lemma request_outcome_witness :
  Api.result
    (Api.getGames None (fun _ => "")
       (fun _ _ => Api.Responded (Api.mkResponse 200 (Some (Api.JArray [])))))
  = inr (Api.JArray []).
Proof.
  refine (proj2 (proj1 (request_outcome None (fun _ => "")
    (fun _ _ => Api.Responded (Api.mkResponse 200 (Some (Api.JArray []))))
    "/games/" None) (Api.JArray [])) _).
  exists (Api.mkResponse 200 (Some (Api.JArray []))). repeat split.
Defined.

(** X18.  Error bodies outside the convention.  On a response that is not
    2xx: a body that is JSON [null] makes the call throw the engine's type
    error instead of a normalized error; a [detail] that is an object gives
    the message "[object Object]"; a [detail] that is an empty array gives
    the empty message; and a body that is a JSON string, number, boolean or
    array has no [detail], so the message is the one made of the status. *)
Theorem error_body_outside_convention (env : option string) (n2s : Q -> string)
    (fetch : string -> Api.RequestInit -> Api.fetched)
    (endpoint : string) (options : option Api.RequestInit) (response : Api.Response) :
  fetch (Api.API_BASE_URL env +:+ endpoint) (Api.initOf options) = Api.Responded response ->
  Api.ok response = false ->
  let r := Api.request env n2s fetch endpoint options in
  (Api.parsed response = Some Api.JNull -> Api.result r = inl Api.TypeError) /\
  (forall props fields, Api.parsed response = Some (Api.JObject props) ->
     Api.lookupProp "detail" props = Some (Api.JObject fields) ->
     Api.result r = inl (Api.Error "[object Object]")) /\
  (forall props, Api.parsed response = Some (Api.JObject props) ->
     Api.lookupProp "detail" props = Some (Api.JArray []) ->
     Api.result r = inl (Api.Error "")) /\
  (forall v, Api.parsed response = Some v ->
     match v with Api.JNull | Api.JObject _ => False | _ => True end ->
     Api.result r =
       inl (Api.Error ("HTTP error! status: " +:+ string_of_Z (Api.status response)))).
Proof.
  intros Hfetch Hok r.
  assert (Hres : Api.result r =
    match Api.detailOf (match Api.parsed response with
                        | Some v => v
                        | None => Api.JObject [("detail", Api.JString "Unknown error")]
                        end) with
    | inl thrown => inl thrown
    | inr detail =>
        inl (Api.Error (if Api.truthy detail
                        then match detail with Some v => Api.toString n2s v | None => "" end
                        else "HTTP error! status: " +:+ string_of_Z (Api.status response)))
    end).
  { subst r. unfold Api.request. simpl. rewrite Hfetch, Hok. reflexivity. }
  split; [|split; [|split]].
  - intros Hp. now rewrite Hres, Hp.
  - intros props fields Hp Hd. rewrite Hres, Hp. simpl. now rewrite Hd.
  - intros props Hp Hd. rewrite Hres, Hp. simpl. now rewrite Hd.
  - intros v Hp Hv. rewrite Hres, Hp. destruct v; try contradiction; reflexivity.
Qed.

(** A 422 whose [detail] is a list of validation errors, here an empty one. *)
Lemma error_body_outside_convention_witness :
  Api.result
    (Api.request None (fun _ => "")
       (fun _ _ => Api.Responded
          (Api.mkResponse 422 (Some (Api.JObject [("detail", Api.JArray [])]))))
       "/orders" (Some (Api.mkInit (Some "POST") [] (Some "{}"))))
  = inl (Api.Error "").
Proof.
  refine (proj1 (proj2 (proj2 (error_body_outside_convention None (fun _ => "")
    (fun _ _ => Api.Responded
       (Api.mkResponse 422 (Some (Api.JObject [("detail", Api.JArray [])]))))
    "/orders" (Some (Api.mkInit (Some "POST") [] (Some "{}")))
    (Api.mkResponse 422 (Some (Api.JObject [("detail", Api.JArray [])])))
    eq_refl eq_refl))) _ eq_refl eq_refl).
Defined.

Lemma before_index (k k' : string) :
  Api.enumeratedBefore k k' = true -> is_Some (Api.arrayIndex k).
Proof.
  unfold Api.enumeratedBefore. destruct (Api.arrayIndex k); [eauto | discriminate].
Qed.

(** Setting one property of an object that has [Content-Type] after array
    indices only. *)
Lemma setProp_content_type (k w v : string) (front rest : list (string * string)) :
  Forall (fun kv => is_Some (Api.arrayIndex (fst kv))) front ->
  exists front' rest',
    Api.setProp k w (front ++ ("Content-Type", v) :: rest) =
      front' ++ ("Content-Type", if String.eqb k "Content-Type" then w else v) :: rest' /\
    Forall (fun kv => is_Some (Api.arrayIndex (fst kv))) front'.
Proof.
  induction front as [|[k0 v0] front IH]; intros Hf.
  - cbn [app Api.setProp]. destruct (String.eqb_spec k "Content-Type") as [->|Hne].
    + exists [], rest. split; [reflexivity | constructor].
    + destruct (Api.enumeratedBefore k "Content-Type") eqn:Eb.
      * exists [(k, w)], rest. split; [reflexivity|].
        constructor; [now apply before_index in Eb | constructor].
      * exists [], (Api.setProp k w rest). split; [reflexivity | constructor].
  - inversion Hf as [|? ? Hk0 Hfront]; subst. simpl in Hk0.
    cbn [app Api.setProp]. destruct (String.eqb_spec k k0) as [->|Hne].
    + exists ((k0, w) :: front), rest. split.
      * destruct (String.eqb_spec k0 "Content-Type") as [->|]; [|reflexivity].
        destruct Hk0 as [i Hi]. discriminate Hi.
      * now constructor.
    + destruct (Api.enumeratedBefore k k0) eqn:Eb.
      * exists ((k, w) :: (k0, v0) :: front), rest. split.
        -- destruct (String.eqb_spec k "Content-Type") as [->|]; [|reflexivity].
           discriminate Eb.
        -- apply before_index in Eb. repeat constructor; assumption.
      * destruct (IH Hfront) as (front' & rest' & E & Hf').
        exists ((k0, v0) :: front'), rest'. split; [now rewrite E | now constructor].
Qed.

Lemma merged_content_type (hs front rest : list (string * string)) (v : string) :
  Forall (fun kv => is_Some (Api.arrayIndex (fst kv))) front ->
  exists front' rest' v',
    fold_left (fun acc kv => Api.setProp (fst kv) (snd kv) acc) hs
      (front ++ ("Content-Type", v) :: rest) = front' ++ ("Content-Type", v') :: rest' /\
    Forall (fun kv => is_Some (Api.arrayIndex (fst kv))) front' /\
    (Forall (fun kv => fst kv <> "Content-Type") hs -> v' = v) /\
    (forall before w after, hs = before ++ ("Content-Type", w) :: after ->
       Forall (fun kv => fst kv <> "Content-Type") after -> v' = w).
Proof.
  revert front rest v. induction hs as [|[k x] hs IH]; intros front rest v Hf.
  - exists front, rest, v. repeat split; auto.
    intros [|? ?] w after E; discriminate E.
  - cbn [fold_left fst snd].
    destruct (setProp_content_type k x v front rest Hf) as (front1 & rest1 & E & Hf1).
    rewrite E.
    destruct (IH front1 rest1 (if String.eqb k "Content-Type" then x else v) Hf1)
      as (front' & rest' & v' & E' & Hf' & Hkeep & Hset).
    exists front', rest', v'. split; [exact E'|]. split; [exact Hf'|]. split.
    + intros Hall. inversion Hall as [|? ? Hk Hhs]; subst. simpl in Hk.
      rewrite (Hkeep Hhs). destruct (String.eqb_spec k "Content-Type"); [contradiction | reflexivity].
    + intros [|b before] w after Eq Hafter.
      * injection Eq as -> -> ->. rewrite (Hkeep Hafter). reflexivity.
      * injection Eq as _ ->. now apply (Hset before w after).
Qed.

Lemma getProp_after_indices (front rest : list (string * string)) (v : string) :
  Forall (fun kv => is_Some (Api.arrayIndex (fst kv))) front ->
  Api.getProp "Content-Type" (front ++ ("Content-Type", v) :: rest) = Some v.
Proof.
  induction 1 as [|[k0 v0] front Hk0 _ IH]; [reflexivity|].
  cbn [app Api.getProp]. destruct (String.eqb_spec "Content-Type" k0) as [<-|]; [|exact IH].
  destruct Hk0 as [i Hi]. discriminate Hi.
Qed.

(** X19.  Every request is sent with a [Content-Type] header, which only
    headers named by an array index precede in the object handed to
    [fetch].  Its value is [application/json] when the headers of the
    options, given as an object, have no property of that name, and is the
    value of that property when they have one; so it is [application/json]
    for the calls that list and fetch games, search, list orders and delete
    an order, whose only header it is. *)
Theorem request_content_type (env : option string) (n2s : Q -> string)
    (fetch : string -> Api.RequestInit -> Api.fetched)
    (endpoint : string) (options : option Api.RequestInit) :
  (exists url init v front rest,
     Api.calls (Api.request env n2s fetch endpoint options) = [(url, init)] /\
     Api.getProp "Content-Type" (Api.headers init) = Some v /\
     Api.headers init = front ++ ("Content-Type", v) :: rest /\
     Forall (fun kv => is_Some (Api.arrayIndex (fst kv))) front /\
     (match options with
      | Some o => Forall (fun kv => fst kv <> "Content-Type") (Api.headers o)
      | None => True
      end -> v = "application/json") /\
     (forall o before w after,
        options = Some o -> Api.headers o = before ++ ("Content-Type", w) :: after ->
        Forall (fun kv => fst kv <> "Content-Type") after -> v = w)) /\
  (forall id userId gameId keyword,
     List.map (fun c => Api.headers (snd c))
       (Api.calls (Api.getGames env n2s fetch) ++
        Api.calls (Api.getGameById env n2s fetch id) ++
        Api.calls (Api.searchGames env n2s fetch keyword) ++
        Api.calls (Api.getAllOrders env n2s fetch) ++
        Api.calls (Api.getUserOrders env n2s fetch userId) ++
        Api.calls (Api.deleteOrder env n2s fetch userId gameId)) =
     repeat [("Content-Type", "application/json")] 6).
Proof.
  split; [|reflexivity].
  rewrite request_calls.
  assert (H : exists v front rest,
            Api.mergedHeaders options = front ++ ("Content-Type", v) :: rest /\
            Forall (fun kv => is_Some (Api.arrayIndex (fst kv))) front /\
            (match options with
             | Some o => Forall (fun kv => fst kv <> "Content-Type") (Api.headers o)
             | None => True
             end -> v = "application/json") /\
            (forall o before w after,
               options = Some o -> Api.headers o = before ++ ("Content-Type", w) :: after ->
               Forall (fun kv => fst kv <> "Content-Type") after -> v = w)).
  { unfold Api.mergedHeaders. destruct options as [o|].
    - destruct (merged_content_type (Api.headers o) [] [] "application/json" ltac:(constructor))
        as (front & rest & v & E & Hf & Hkeep & Hset).
      exists v, front, rest. split; [exact E|]. split; [exact Hf|]. split; [exact Hkeep|].
      intros o' before w after [= <-]. apply Hset.
    - exists "application/json", [], []. repeat split; auto. intros o ? ? ? E. discriminate E. }
  destruct H as (v & front & rest & E & Hf & Hkeep & Hset).
  exists (Api.API_BASE_URL env +:+ endpoint), (Api.initOf options), v, front, rest.
  split; [reflexivity|]. split; [|split; [exact E|auto]].
  change (Api.headers (Api.initOf options)) with (Api.mergedHeaders options).
  rewrite E. now apply getProp_after_indices.
Qed.

(** A call with the headers [{ Accept: ..., 1: ... }]: the header named [1]
    is enumerated first, [Content-Type] after it. *)
Lemma request_content_type_witness :
  let options :=
    Api.mkInit (Some "POST") [("1", "one"); ("Accept", "application/json")] (Some "{}") in
  (exists url init,
     Api.calls (Api.request None (fun _ => "") (fun _ _ => Api.Rejected "offline") "/reviews"
                  (Some options)) = [(url, init)] /\
     Api.getProp "Content-Type" (Api.headers init) = Some "application/json") /\
  Api.mergedHeaders (Some options) =
    [("1", "one"); ("Content-Type", "application/json"); ("Accept", "application/json")].
Proof.
  intros options. split; [|reflexivity].
  destruct (proj1 (request_content_type None (fun _ => "") (fun _ _ => Api.Rejected "offline")
    "/reviews" (Some options)))
    as (url & init & v & front & rest & Hcalls & Hget & _ & _ & Hv & _).
  exists url, init. split; [exact Hcalls|].
  rewrite Hget, Hv; [reflexivity|]. repeat constructor; simpl; discriminate.
Defined.

(** ** Catalog page: a failure without a message *)

(** X20.  The page tests the error for truth, so a failed fetch whose
    message is empty is not shown: once it has settled the page shows the
    results computed from the games it had before, and an error shown
    earlier is gone. *)
Theorem page_empty_message (engineMessage : Api.exception -> string)
    (t : string -> string) (getTime : string -> Z)
    (err : Api.exception) (st : CatalogPage.state) :
  Thrown.message engineMessage "Failed to fetch games" err = "" ->
  let st' := CatalogPage.fetchSettled engineMessage (inl err) st in
  CatalogPage.allGames st' = CatalogPage.allGames st /\
  CatalogPage.error st' = Some "" /\
  CatalogPage.render getTime t st' =
    CatalogPage.Results
      (CatalogPage.countLine t (CatalogPage.getFilteredGames getTime st))
      (CatalogPage.getFilteredGames getTime st).
Proof.
  intros Hm st'. subst st'. unfold CatalogPage.fetchSettled. rewrite Hm.
  repeat split.
Qed.

(** The empty message of a 422 with an empty list of validation errors. *)
Lemma page_empty_message_witness :
  CatalogPage.render IsoDate.getTime (fun k => k)
    (CatalogPage.fetchSettled (fun _ => "engine") (inl (Api.Error ""))
       (CatalogPage.setError "Game not found"
          (CatalogPage.setAllGames [Game.mk 1 "A" "" (10 # 1) (45 # 10) "2020-01-01" 1 1]
             (CatalogPage.initial []))))
  = CatalogPage.Results (Some "1 common.gameFound")
      [Game.mk 1 "A" "" (10 # 1) (45 # 10) "2020-01-01" 1 1].
Proof.
  refine (eq_trans (proj2 (proj2 (page_empty_message (fun _ => "engine") (fun k => k)
    IsoDate.getTime (Api.Error "") _ eq_refl))) eq_refl).
Defined.

(** ** Game card *)

Lemma encode_length (codePoint : Z) : (length (JsString.encode codePoint) <= 2)%nat.
Proof. unfold JsString.encode. destruct (codePoint <? 65536); simpl; lia. Qed.

(** A text never has more code units than bytes. *)
Lemma units_bytes (n : nat) :
  forall (s : string) (d : JsString.t),
    (String.length s <= n)%nat -> JsString.units s = Some d ->
    (length d <= String.length s)%nat.
Proof.
  induction n as [|n IH]; intros s d Hn H.
  - destruct s; simpl in Hn; [|lia]. injection H as <-. simpl. lia.
  - destruct s as [|c0 s1]; [injection H as <-; simpl; lia|].
    cbn [JsString.units] in H. cbn [String.length] in Hn |- *.
    destruct (JsString.byte c0 <? 128).
    { destruct (JsString.units s1) as [r|] eqn:E; [|discriminate H].
      injection H as <-. specialize (IH s1 r ltac:(lia) E). simpl. lia. }
    destruct (JsString.byte c0 <? 192); [discriminate H|].
    destruct (JsString.byte c0 <? 224).
    { destruct s1 as [|c1 s2]; [discriminate H|]. cbn [String.length] in Hn |- *.
      destruct (JsString.continuation c1) as [x1|]; [|discriminate H]. cbn in H.
      destruct (JsString.scalar2 _); [|discriminate H].
      destruct (JsString.units s2) as [r|] eqn:E; [|discriminate H].
      injection H as <-. specialize (IH s2 r ltac:(lia) E).
      rewrite length_app. pose proof (encode_length ((JsString.byte c0 - 192) * 64 + x1)). lia. }
    destruct (JsString.byte c0 <? 240).
    { destruct s1 as [|c1 [|c2 s3]]; try discriminate H. cbn [String.length] in Hn |- *.
      destruct (JsString.continuation c1) as [x1|]; [|discriminate H].
      destruct (JsString.continuation c2) as [x2|]; [|discriminate H]. cbn in H.
      destruct (JsString.scalar3 _); [|discriminate H].
      destruct (JsString.units s3) as [r|] eqn:E; [|discriminate H].
      injection H as <-. specialize (IH s3 r ltac:(lia) E).
      rewrite length_app.
      pose proof (encode_length (((JsString.byte c0 - 224) * 64 + x1) * 64 + x2)). lia. }
    destruct (JsString.byte c0 <? 248); [|discriminate H].
    destruct s1 as [|c1 [|c2 [|c3 s4]]]; try discriminate H. cbn [String.length] in Hn |- *.
    destruct (JsString.continuation c1) as [x1|]; [|discriminate H].
    destruct (JsString.continuation c2) as [x2|]; [|discriminate H].
    destruct (JsString.continuation c3) as [x3|]; [|discriminate H]. cbn in H.
    destruct (JsString.scalar4 _); [|discriminate H].
    destruct (JsString.units s4) as [r|] eqn:E; [|discriminate H].
    injection H as <-. specialize (IH s4 r ltac:(lia) E).
    rewrite length_app.
    pose proof (encode_length ((((JsString.byte c0 - 240) * 64 + x1) * 64 + x2) * 64 + x3)). lia.
Qed.

(** X21.  The description line of a card is never longer than 103 UTF-16
    code units.  A description of at most 100 code units is shown as it is;
    a longer one is cut to its first 100 code units, followed by three
    dots.  The count is in code units, not in bytes: for a game whose
    description is a text, the line is the one above for the code units of
    that text, and a description of at most 100 bytes is always shown as it
    is. *)
Theorem card_description (description : JsString.t) :
  let shown := GameCard.shownDescription description in
  (length shown <= 103)%nat /\
  ((length description <= 100)%nat -> shown = description) /\
  ((100 < length description)%nat ->
   shown = take 100 description ++ [46; 46; 46] /\ length shown = 103%nat) /\
  (forall game : Game.t,
     JsString.units (Game.description game) = Some description ->
     GameCard.descriptionLine game = Some shown /\
     ((String.length (Game.description game) <= 100)%nat -> shown = description)).
Proof.
  intros shown. subst shown.
  assert (Hshown : (100 < length description)%nat ->
            GameCard.shownDescription description = take 100 description ++ [46; 46; 46] /\
            length (GameCard.shownDescription description) = 103%nat).
  { intros Hlong. unfold GameCard.shownDescription, JsString.substring0.
    destruct (Nat.ltb_spec 100 (length description)) as [_|Hshort]; [|lia].
    split; [reflexivity|]. rewrite length_app, length_take.
    change (length (JsString.literal "...")) with 3%nat. lia. }
  assert (Hkept : (length description <= 100)%nat ->
            GameCard.shownDescription description = description).
  { intros Hshort. unfold GameCard.shownDescription.
    destruct (Nat.ltb_spec 100 (length description)); [lia | reflexivity]. }
  split; [|split; [exact Hkept|split; [exact Hshown|]]].
  - destruct (Nat.lt_ge_cases 100 (length description)) as [Hlong|Hshort].
    + destruct (Hshown Hlong) as [_ ->]. lia.
    + rewrite (Hkept Hshort). lia.
  - intros game Hd. unfold GameCard.descriptionLine. rewrite Hd. split; [reflexivity|].
    intros Hbytes. apply Hkept.
    pose proof (units_bytes _ _ _ (Nat.le_refl _) Hd). lia.
Qed.

(** A description in Russian: 67 letters, spaces and signs, which are 125
    bytes and 67 code units; the card shows it as it is. *)
Lemma card_description_witness :
  let game :=
    Game.mk 1 "Civilization"
      "Пошаговая стратегия о развитии цивилизации от древности до космоса."
      (10 # 1) (45 # 10) "2020-01-01" 1 1 in
  String.length (Game.description game) = 125%nat /\
  exists description,
    JsString.units (Game.description game) = Some description /\
    length description = 67%nat /\
    GameCard.descriptionLine game = Some description.
Proof.
  intros game. split; [reflexivity|].
  exists (default [] (JsString.units (Game.description game))).
  assert (E : JsString.units (Game.description game) =
              Some (default [] (JsString.units (Game.description game))))
    by (vm_compute; reflexivity).
  split; [exact E|]. split; [vm_compute; reflexivity|].
  destruct (card_description (default [] (JsString.units (Game.description game))))
    as (_ & Hshort & _ & Hgame).
  destruct (Hgame game E) as [Hline _].
  rewrite Hline. rewrite Hshort; [reflexivity|]. vm_compute. repeat constructor.
Defined.

(** ** Profile: the three loads *)

(** X22.  The three loads of the profile do not depend on each other.  For a
    signed-in user and a fetched catalog, each of the three lists is the
    join of its own fetch when that fetch succeeds and is what it was when
    that fetch fails, whatever the other two fetches do; the reviews kept
    are those of the user.  When the catalog cannot be fetched, or nobody
    is signed in, nothing changes. *)
Theorem profile_loads_independent (user : User.t) (games : list Game.t)
    (getUserOrders : Z -> Api.exception + list Order.t)
    (getUserLibrary : Z -> Api.exception + list LibraryEntry.t)
    (getAllReviews : Api.exception + list Review.t) (st : Profile.state) :
  let st' := Profile.loadData (Some user) (inr games) getUserOrders getUserLibrary
               getAllReviews st in
  Profile.allGames st' = games /\
  Profile.orders st' =
    match getUserOrders (User.id user) with
    | inr data => Profile.ordersWithGames games data
    | inl _ => Profile.orders st
    end /\
  Profile.libraryGames st' =
    match getUserLibrary (User.id user) with
    | inr library => Profile.userGames games library
    | inl _ => Profile.libraryGames st
    end /\
  Profile.userReviews st' =
    match getAllReviews with
    | inr allReviews =>
        List.filter (fun review => Review.user_id review =? User.id user) allReviews
    | inl _ => Profile.userReviews st
    end /\
  (forall allReviews, getAllReviews = inr allReviews ->
     Forall (fun review => Review.user_id review = User.id user) (Profile.userReviews st')) /\
  (forall err,
     Profile.loadData (Some user) (inl err) getUserOrders getUserLibrary getAllReviews st = st) /\
  (forall catalog,
     Profile.loadData None catalog getUserOrders getUserLibrary getAllReviews st = st).
Proof.
  intros st'. subst st'. unfold Profile.loadData, Profile.loadOrders, Profile.loadLibrary,
    Profile.loadUserReviews.
  destruct (getUserOrders (User.id user)) as [e1|data],
           (getUserLibrary (User.id user)) as [e2|library],
           getAllReviews as [e3|allReviews]; simpl.
  all: do 4 (split; [reflexivity|]).
  all: split; [|split; intros; reflexivity].
  all: intros all Heq; try discriminate Heq.
  all: apply Forall_forall; intros r Hr;
    apply list_elem_of_In, List.filter_In in Hr; destruct Hr as [_ Hr];
    now apply Z.eqb_eq in Hr.
Qed.

(** The orders cannot be fetched; the reviews still load. *)
Lemma profile_loads_independent_witness :
  Forall (fun review => Review.user_id review = 1)
    (Profile.userReviews
       (Profile.loadData (Some (User.mk 1 "ann" "ann@example.org")) (inr [])
          (fun _ => inl (Api.Error "Not found")) (fun _ => inr [])
          (inr [Review.mk 1 1 7 5 "good"; Review.mk 2 3 7 2 "bad"]) Profile.initial)).
Proof.
  refine (proj1 (proj2 (proj2 (proj2 (proj2 (profile_loads_independent
    (User.mk 1 "ann" "ann@example.org") [] (fun _ => inl (Api.Error "Not found"))
    (fun _ => inr []) (inr [Review.mk 1 1 7 5 "good"; Review.mk 2 3 7 2 "bad"])
    Profile.initial))))) _ eq_refl).
Defined.

(** ** Home: the tally of purchases *)

Lemma lookup_putNamed_eq (k v : Z) (l : list (Z * Z)) :
  JsRecord.lookup k (JsRecord.putNamed k v l) = Some v.
Proof.
  induction l as [|[k' v'] l IH]; simpl.
  - now rewrite Z.eqb_refl.
  - destruct (Z.eqb_spec k k') as [->|Hne]; simpl.
    + now rewrite Z.eqb_refl.
    + destruct (Z.eqb_spec k k'); [contradiction | assumption].
Qed.

Lemma lookup_putNamed_ne (j k v : Z) (l : list (Z * Z)) :
  j <> k -> JsRecord.lookup j (JsRecord.putNamed k v l) = JsRecord.lookup j l.
Proof.
  intros Hne. induction l as [|[k' v'] l IH]; simpl.
  - destruct (Z.eqb_spec j k); [contradiction | reflexivity].
  - destruct (Z.eqb_spec k k') as [->|Hkk']; simpl.
    + destruct (Z.eqb_spec j k'); [contradiction | reflexivity].
    + now rewrite IH.
Qed.

Lemma lookup_absent (k : Z) (l : list (Z * Z)) :
  Forall (fun p => fst p <> k) l -> JsRecord.lookup k l = None.
Proof.
  induction 1 as [|[k' v'] l Hk _ IH]; simpl; [reflexivity|].
  simpl in Hk. destruct (Z.eqb_spec k k'); [congruence | assumption].
Qed.

Lemma total_putNamed (k v : Z) (l : list (Z * Z)) :
  Joined.total (JsRecord.putNamed k v l) =
  Joined.total l + v -
  match JsRecord.lookup k l with Some old => old | None => 0 end.
Proof.
  induction l as [|[k' v'] l IH]; simpl; [lia|].
  destruct (Z.eqb_spec k k'); simpl; [lia|]. rewrite IH. lia.
Qed.

Lemma total_putIndexed (k v : Z) (l : list (Z * Z)) :
  StronglySorted Home.keyLt l ->
  Joined.total (JsRecord.putIndexed k v l) =
  Joined.total l + v -
  match JsRecord.lookup k l with Some old => old | None => 0 end.
Proof.
  induction l as [|[k' v'] l IH]; intros Hs; simpl; [lia|].
  inversion Hs as [|? ? Hl Hk']; subst.
  destruct (Z.ltb_spec k k') as [Hlt|Hge]; simpl.
  - destruct (Z.eqb_spec k k'); [lia|].
    rewrite lookup_absent; [lia|].
    eapply Forall_impl; [exact Hk'|]. unfold Home.keyLt. simpl. intros; lia.
  - destruct (Z.eqb_spec k k'); simpl; [lia|]. rewrite (IH Hl). lia.
Qed.

Lemma total_app (a b : list (Z * Z)) :
  Joined.total (a ++ b) = Joined.total a + Joined.total b.
Proof. induction a as [|x a IH]; simpl; [reflexivity|]. rewrite IH. lia. Qed.

Lemma tally_get (orders : list Order.t) (k : Z) :
  JsRecord.get (Home.tally orders) k =
  if Home.purchases orders k =? 0 then None else Some (Home.purchases orders k).
Proof.
  induction orders as [|o orders IH] using rev_ind; [unfold JsRecord.get; simpl; now destruct (JsRecord.isIndex k)|].
  rewrite tally_snoc, purchases_snoc.
  pose proof (purchases_nonneg orders k) as Hk.
  unfold Home.bump.
  destruct (Z.eqb_spec (Order.game_id o) k) as [Heq|Hne].
  - rewrite Heq, IH.
    assert (Hcur : (if Home.purchases orders k =? 0 then 0 else
                      match (if Home.purchases orders k =? 0 then None
                             else Some (Home.purchases orders k)) with
                      | Some n => if n =? 0 then 0 else n
                      | None => 0
                      end) = Home.purchases orders k).
    { destruct (Z.eqb_spec (Home.purchases orders k) 0) as [->|Hz]; [reflexivity|].
      destruct (Z.eqb_spec (Home.purchases orders k) 0); [contradiction | reflexivity]. }
    assert (Hcur' : match (if Home.purchases orders k =? 0 then None
                           else Some (Home.purchases orders k)) with
                    | Some n => if n =? 0 then 0 else n
                    | None => 0
                    end = Home.purchases orders k).
    { destruct (Z.eqb_spec (Home.purchases orders k) 0) as [->|Hz]; [reflexivity|].
      destruct (Z.eqb_spec (Home.purchases orders k) 0); [contradiction | reflexivity]. }
    rewrite Hcur'. unfold JsRecord.get, JsRecord.set.
    destruct (JsRecord.isIndex k) eqn:E; simpl; rewrite ?E;
      rewrite ?lookup_putIndexed_eq, ?lookup_putNamed_eq;
      (destruct (Z.eqb_spec (Home.purchases orders k + 1) 0); [lia | reflexivity]).
  - rewrite Z.add_0_r, <- IH. unfold JsRecord.get, JsRecord.set.
    destruct (JsRecord.isIndex (Order.game_id o)) eqn:Eo; simpl;
      destruct (JsRecord.isIndex k) eqn:Ek; simpl; try reflexivity.
    + apply lookup_putIndexed_ne. congruence.
    + apply lookup_putNamed_ne. congruence.
Qed.

Lemma tally_total (orders : list Order.t) :
  Joined.total (JsRecord.entries (Home.tally orders)) = Z.of_nat (length orders).
Proof.
  induction orders as [|o orders IH] using rev_ind; [reflexivity|].
  rewrite tally_snoc, length_app. simpl.
  destruct (tally_keys orders) as (Hs & _).
  pose proof (tally_get orders (Order.game_id o)) as Hget.
  pose proof (purchases_nonneg orders (Order.game_id o)) as Hnn.
  unfold JsRecord.entries in *. rewrite total_app in *.
  unfold Home.bump, JsRecord.set. rewrite Hget.
  unfold JsRecord.get in Hget.
  destruct (JsRecord.isIndex (Order.game_id o)) eqn:E; simpl.
  - rewrite (total_putIndexed _ _ _ Hs), Hget.
    destruct (Z.eqb_spec (Home.purchases orders (Order.game_id o)) 0) as [Hz|Hz]; simpl.
    + lia.
    + destruct (Z.eqb_spec (Home.purchases orders (Order.game_id o)) 0); [contradiction|]. lia.
  - rewrite total_putNamed, Hget.
    destruct (Z.eqb_spec (Home.purchases orders (Order.game_id o)) 0) as [Hz|Hz]; simpl.
    + lia.
    + destruct (Z.eqb_spec (Home.purchases orders (Order.game_id o)) 0); [contradiction|]. lia.
Qed.

(** X23.  The tally counts every order once, whatever the game ids are: the
    count read for a game id is the number of orders of that game (no
    property for a game without orders), the counts add up to the number of
    orders, and no game id is listed twice. *)
Theorem tally_counts_orders (orders : list Order.t) :
  (forall game_id,
     JsRecord.get (Home.tally orders) game_id =
     if Home.purchases orders game_id =? 0 then None
     else Some (Home.purchases orders game_id)) /\
  Joined.total (JsRecord.entries (Home.tally orders)) = Z.of_nat (length orders) /\
  NoDup (List.map fst (JsRecord.entries (Home.tally orders))).
Proof.
  split; [apply tally_get|]. split; [apply tally_total | apply entries_keys].
Qed.

(** ** Profile: rows whose game is in the catalog *)

Lemma inCatalog_gameById (games : list Game.t) (game_id : Z) :
  Joined.inCatalog games game_id = true <-> is_Some (Profile.gameById games game_id).
Proof.
  unfold Joined.inCatalog, Profile.gameById, JsArray.find.
  induction games as [|g games IH]; simpl.
  - split; [discriminate | intros [x [=]]].
  - destruct (Game.id g =? game_id); simpl; [split; eauto|exact IH].
Qed.

Lemma gameById_unique (games : list Game.t) (g : Game.t) :
  NoDup (List.map Game.id games) -> In g games ->
  Profile.gameById games (Game.id g) = Some g.
Proof.
  intros Hn Hin.
  destruct (Profile.gameById games (Game.id g)) as [g'|] eqn:E.
  - apply gameById_Some in E. destruct E as [Hin' Hid].
    f_equal. now apply (unique_by_id games).
  - apply gameById_None in E. exfalso. apply E. exists g. auto.
Qed.

(** X24.  In a catalog without repeated ids, the row of an order whose game
    is in the catalog shows the title of that game.  The library shows, in
    the order of the entries and as often as they are listed, the games of
    the entries whose game is in the catalog, and nothing else. *)
Theorem profile_resolved_rows (games : list Game.t) (data : list Order.t)
    (library : list LibraryEntry.t) :
  NoDup (List.map Game.id games) ->
  (forall i order g, data !! i = Some order -> In g games ->
     Game.id g = Order.game_id order ->
     Profile.ordersWithGames games data !! i = Some (Profile.mkRow order (Game.title g))) /\
  List.map Game.id (Profile.userGames games library) =
    List.filter (Joined.inCatalog games) (List.map LibraryEntry.game_id library) /\
  (forall g lib, In g games -> In lib library -> LibraryEntry.game_id lib = Game.id g ->
     In g (Profile.userGames games library)).
Proof.
  intros Hn. split; [|split].
  - intros i order g Hi Hin Hid. unfold Profile.ordersWithGames.
    change (List.map ?f ?l) with (f <$> l).
    rewrite list_lookup_fmap, Hi. simpl. rewrite <- Hid.
    now rewrite (gameById_unique games g Hn Hin).
  - unfold Profile.userGames, JsArray.defined.
    induction library as [|lib library IH]; [reflexivity|].
    change (omap ?f (lib :: library))
      with (match f lib with Some y => y :: omap f library | None => omap f library end).
    cbv beta. simpl List.map. simpl List.filter.
    destruct (Profile.gameById games (LibraryEntry.game_id lib)) as [g|] eqn:E.
    + assert (Hin : Joined.inCatalog games (LibraryEntry.game_id lib) = true)
        by (apply inCatalog_gameById; rewrite E; eauto).
      rewrite Hin. apply gameById_Some in E. destruct E as [_ Hid].
      simpl. now rewrite IH, Hid.
    + assert (Hout : Joined.inCatalog games (LibraryEntry.game_id lib) = false).
      { destruct (Joined.inCatalog games (LibraryEntry.game_id lib)) eqn:E'; [|reflexivity].
        apply inCatalog_gameById in E'. rewrite E in E'. now destruct E'. }
      now rewrite Hout.
  - intros g lib Hg Hlib Hid. unfold Profile.userGames, JsArray.defined.
    apply list_elem_of_In, list_elem_of_omap. exists lib.
    split; [now apply list_elem_of_In|]. rewrite Hid. now apply gameById_unique.
Qed.

Lemma profile_resolved_rows_witness :
  Profile.ordersWithGames
    [Game.mk 1 "Portal" "" (999 # 100) (45 # 10) "2007-10-10" 2 1;
     Game.mk 2 "Braid" "" (1499 # 100) (40 # 10) "2008-08-06" 3 1]
    [Order.mk 5 1 2 (1499 # 100) "2024-01-05"] !! 0%nat
  = Some (Profile.mkRow (Order.mk 5 1 2 (1499 # 100) "2024-01-05") "Braid").
Proof.
  refine (proj1 (profile_resolved_rows
            [Game.mk 1 "Portal" "" (999 # 100) (45 # 10) "2007-10-10" 2 1;
             Game.mk 2 "Braid" "" (1499 # 100) (40 # 10) "2008-08-06" 3 1]
            [Order.mk 5 1 2 (1499 # 100) "2024-01-05"] [] _) 0%nat
            (Order.mk 5 1 2 (1499 # 100) "2024-01-05")
            (Game.mk 2 "Braid" "" (1499 # 100) (40 # 10) "2008-08-06" 3 1) eq_refl _ eq_refl).
  - apply (bool_decide_unpack _). vm_compute. exact I.
  - simpl. auto.
Defined.

(** ** Home: the top-rated list on the store *)

Lemma slice_run (n : nat) (h : Store.heap) (a : Store.loc) (games : list Game.t) :
  Store.contents h a = Some games ->
  exists r h', StoreHome.slice0 n a h = Some (r, h') /\
    Store.arrays h !! r = None /\ Store.preserved h h' /\
    Store.contents h' r = Some (take n games).
Proof.
  unfold Store.contents, StoreHome.slice0. intros H.
  destruct (Store.arrays h !! a) as [elems|] eqn:E; [|discriminate].
  rewrite bind_run. unfold Store.elements. rewrite E.
  destruct (newArray_run (take n elems) h) as (r & h' & Hrun & Hfresh & Hpres & Hr).
  exists r, h'. repeat split; try assumption; try apply Hpres.
  rewrite Hr. destruct Hpres as [-> _].
  apply mapM_Some. apply mapM_Some in H. now apply Forall2_take.
Qed.

(** X25.  Computing the top-rated list does not touch the games of the
    page: run on a store in which the array of the page holds [games], it
    returns an array that did not exist before and holds the top-rated
    list, and every array and game object that existed, the array of the
    page among them, is afterwards as it was. *)
Theorem topRated_leaves_games (n : nat) (h : Store.heap) (games : Store.loc)
    (gs : list Game.t) :
  Store.contents h games = Some gs ->
  exists r h',
    StoreHome.topRatedGames n games h = Some (r, h') /\
    Store.arrays h !! r = None /\
    Store.preserved h h' /\
    Store.contents h' games = Some gs /\
    Store.contents h' r = Some (Home.topRated n gs).
Proof.
  intros Hc. unfold StoreHome.topRatedGames.
  destruct (spread_run h games gs Hc) as (c & h1 & Hrun1 & Hf1 & Hp1 & Hc1).
  rewrite bind_run, Hrun1.
  destruct (sort_run Home.byRating h1 c gs Hc1) as (h2 & Hrun2 & Ho2 & Hother & Hc2).
  rewrite bind_run, Hrun2.
  assert (Hp2 : Store.preserved h h2).
  { split; [rewrite Ho2; apply Hp1|].
    intros l elems Hl. rewrite Hother; [now apply Hp1 | congruence]. }
  destruct (slice_run n h2 c _ Hc2) as (s & h3 & Hrun3 & Hf3 & Hp3 & Hc3).
  rewrite bind_run, Hrun3.
  destruct (filter_run Home.rated h3 s _ Hc3) as (r & h4 & Hrun4 & Hf4 & Hp4 & Hc4).
  pose proof (preserved_trans _ _ _ Hp2 Hp3) as Hp23.
  pose proof (preserved_trans _ _ _ Hp23 Hp4) as Hp.
  exists r, h4. split; [exact Hrun4|]. split; [now apply (fresh_back h h3)|].
  split; [exact Hp|]. split; [now apply (preserved_contents h h4) | exact Hc4].
Qed.

Lemma topRated_leaves_games_witness :
  let gs :=
    [Game.mk 1 "A" "" (10 # 1) (45 # 10) "2020-01-01" 1 1;
     Game.mk 2 "B" "" (20 # 1) (48 # 10) "2022-01-01" 1 2] in
  let h := Store.mkHeap
             (<[1%positive := Game.mk 1 "A" "" (10 # 1) (45 # 10) "2020-01-01" 1 1]>
                (<[2%positive := Game.mk 2 "B" "" (20 # 1) (48 # 10) "2022-01-01" 1 2]> ∅))
             (<[7%positive := [1%positive; 2%positive]]> ∅) in
  exists r h',
    StoreHome.topRatedGames 3 7%positive h = Some (r, h') /\
    Store.arrays h !! r = None /\
    Store.preserved h h' /\
    Store.contents h' 7%positive = Some gs /\
    Store.contents h' r = Some (Home.topRated 3 gs).
Proof.
  intros gs h. apply (topRated_leaves_games 3 h 7%positive gs). reflexivity.
Defined.
